(** * Route summarization engine of the OSPF configuration generator

    A shallow embedding of [NetworkSummarizer] (src/ospf_generator.py) and of
    the parts of Python's standard [ipaddress] module it calls, of the
    parser [OSPFConfigParser.parse_file] and of the generator
    [FortigateConfigGenerator], followed by their properties.

    Conventions.
    - Python integers are [Z]; Python [str] values are [string] (the byte
      string of their UTF-8 encoding).
    - A Python [dict] is an insertion-ordered association list with unique
      keys ([dict_set] keeps the position of a key that is already present).
    - Exceptions are explicit: a computation returns [Ok v] or [Raise e].
      Inside the [ipaddress] parser, where every failure is an
      [AddressValueError] or a [NetmaskValueError] (both [ValueError]s caught
      by [ip_network]), failure is [None].
    - [ipaddress] is modelled after CPython's implementation, for both IP
      versions.  IPv6 zone identifiers (the [%scope] suffix that CPython
      accepts from 3.9 on) are not modelled: a network carries no zone
      identifier, and a string that holds one is malformed here
      ([ip_network_no_zone_id]), as it is for CPython 3.8.  Where a
      property depends on it, the absence of zone identifiers is a
      hypothesis ([no_zone_id], [zone_free]).  The interpreter's limit on
      the number of digits of a decimal literal is not modelled either. *)

From Stdlib Require Import ZArith List String Ascii Bool Lia QArith Permutation Sorted.
Import ListNotations.

Open Scope string_scope.
Open Scope list_scope.
Open Scope Z_scope.

(** ** Exceptions *)

Inductive exn : Type :=
| ValueError
| TypeError.

Inductive result (A : Type) : Type :=
| Ok (a : A)
| Raise (e : exn).

Arguments Ok {A} a.
Arguments Raise {A} e.

Definition bind {A B : Type} (m : result A) (k : A -> result B) : result B :=
  match m with
  | Ok a => k a
  | Raise e => Raise e
  end.

Notation "x <- m ;; k" := (bind m (fun x => k))
  (at level 61, m at next level, right associativity).

(** ** Strings *)

Definition len (s : string) : Z := Z.of_nat (String.length s).

Definition str_empty (s : string) : bool :=
  match s with
  | EmptyString => true
  | String _ _ => false
  end.

(** [c in s] for a one-character [c]. *)
Fixpoint contains (c : ascii) (s : string) : bool :=
  match s with
  | EmptyString => false
  | String d r => Ascii.eqb d c || contains c r
  end.

(** [s[0] == c] on a non-empty string. *)
Definition starts_with (c : ascii) (s : string) : bool :=
  match s with
  | EmptyString => false
  | String d _ => Ascii.eqb d c
  end.

(** [s.split(sep)] for a one-character separator. *)
Fixpoint split (sep : ascii) (s : string) : list string :=
  match s with
  | EmptyString => [EmptyString]
  | String c r =>
      if Ascii.eqb c sep then EmptyString :: split sep r
      else match split sep r with
           | [] => [String c EmptyString]
           | p :: ps => String c p :: ps
           end
  end.

(** [sep.join(l)] *)
Definition join (sep : string) (l : list string) : string := String.concat sep l.

Definition is_digit (c : ascii) : bool :=
  let n := Z.of_nat (nat_of_ascii c) in (48 <=? n) && (n <=? 57).

(** [s.isascii() and s.isdigit()] *)
Definition isdigit (s : string) : bool :=
  negb (str_empty s) && forallb is_digit (list_ascii_of_string s).

Definition hex_value (c : ascii) : option Z :=
  let n := Z.of_nat (nat_of_ascii c) in
  if (48 <=? n) && (n <=? 57) then Some (n - 48)
  else if (97 <=? n) && (n <=? 102) then Some (n - 87)
  else if (65 <=? n) && (n <=? 70) then Some (n - 55)
  else None.

(** [_HEX_DIGITS.issuperset(s)] *)
Definition all_hex (s : string) : bool :=
  forallb (fun c => match hex_value c with Some _ => true | None => false end)
          (list_ascii_of_string s).

(** [int(s, 10)] on a string of decimal digits. *)
Definition int10 (s : string) : Z :=
  fold_left (fun acc c => acc * 10 + (Z.of_nat (nat_of_ascii c) - 48))
            (list_ascii_of_string s) 0.

(** [int(s, 16)] on a string of hexadecimal digits. *)
Definition int16 (s : string) : Z :=
  fold_left (fun acc c => acc * 16 + match hex_value c with Some d => d | None => 0 end)
            (list_ascii_of_string s) 0.

Definition digit_char (d : Z) : ascii :=
  if d <? 10 then ascii_of_nat (Z.to_nat (48 + d)) else ascii_of_nat (Z.to_nat (87 + d)).

Fixpoint str_base_aux (fuel : nat) (base n : Z) (acc : string) : string :=
  match fuel with
  | O => acc
  | S f =>
      let acc' := String (digit_char (n mod base)) acc in
      if n <? base then acc' else str_base_aux f base (n / base) acc'
  end.

(** [str(n)] for a non-negative integer. *)
Definition str_int (n : Z) : string :=
  str_base_aux (S (Z.to_nat (Z.log2 n))) 10 n "".

(** ['%x' % n] for a non-negative integer. *)
Definition hex (n : Z) : string :=
  str_base_aux (S (Z.to_nat (Z.log2 n))) 16 n "".

(** ** Integers *)

(** [n.bit_length()] for [n >= 0]. *)
Definition bit_length (n : Z) : Z :=
  if n <=? 0 then 0 else Z.log2 n + 1.

(** [_count_righthand_zero_bits(number, bits)] *)
Definition _count_righthand_zero_bits (number bits : Z) : Z :=
  if number =? 0 then bits
  else Z.min bits (bit_length (Z.land (Z.lnot number) (number - 1))).

(** ** IP networks *)

Inductive ipver : Type := V4 | V6.

Definition ipver_eqb (a b : ipver) : bool :=
  match a, b with
  | V4, V4 | V6, V6 => true
  | _, _ => false
  end.

Definition _max_prefixlen (v : ipver) : Z :=
  match v with V4 => 32 | V6 => 128 end.

Definition _ALL_ONES (v : ipver) : Z := 2 ^ _max_prefixlen v - 1.

(** An [IPv4Network] or [IPv6Network] object.  [network_address] holds
    [int(net.network_address)]; the address object has the version of the
    network, and no zone identifier. *)
Record IPNetwork : Type := mkNet {
  version : ipver;
  network_address : Z;
  prefixlen : Z
}.

(** [_ip_int_from_prefix] *)
Definition _ip_int_from_prefix (v : ipver) (p : Z) : Z :=
  Z.lxor (_ALL_ONES v) (Z.shiftr (_ALL_ONES v) p).

Definition netmask (n : IPNetwork) : Z := _ip_int_from_prefix (version n) (prefixlen n).

Definition hostmask (n : IPNetwork) : Z := Z.lxor (netmask n) (_ALL_ONES (version n)).

Definition broadcast_address (n : IPNetwork) : Z :=
  Z.lor (network_address n) (hostmask n).

Definition num_addresses (n : IPNetwork) : Z :=
  broadcast_address n - network_address n + 1.

(** [a == b] on networks. *)
Definition net_eqb (a b : IPNetwork) : bool :=
  ipver_eqb (version a) (version b)
  && (network_address a =? network_address b)
  && (prefixlen a =? prefixlen b).

(** [a.subnet_of(b)]: raises [TypeError] across versions. *)
Definition subnet_of (a b : IPNetwork) : result bool :=
  if negb (ipver_eqb (version a) (version b)) then Raise TypeError
  else Ok ((network_address b <=? network_address a)
           && (broadcast_address a <=? broadcast_address b)).

(** [net.network_address.packed[i]] *)
Definition packed_byte (n : IPNetwork) (i : Z) : Z :=
  Z.land (Z.shiftr (network_address n) (_max_prefixlen (version n) - 8 * (i + 1))) 255.

(** *** Parsing, IPv4 *)

Definition _parse_octet (octet_str : string) : option Z :=
  if str_empty octet_str then None
  else if negb (isdigit octet_str) then None
  else if 3 <? len octet_str then None
  else if negb (octet_str =? "0")%string && starts_with "0" octet_str then None
  else
    let octet_int := int10 octet_str in
    if 255 <? octet_int then None else Some octet_int.

Fixpoint map_opt {A B : Type} (f : A -> option B) (l : list A) : option (list B) :=
  match l with
  | [] => Some []
  | x :: r =>
      match f x, map_opt f r with
      | Some y, Some ys => Some (y :: ys)
      | _, _ => None
      end
  end.

(** [int.from_bytes(bs, 'big')] *)
Definition from_bytes (bs : list Z) : Z :=
  fold_left (fun acc b => acc * 256 + b) bs 0.

Definition _ip_int_from_string_v4 (ip_str : string) : option Z :=
  if str_empty ip_str then None
  else
    let octets := split "." ip_str in
    if negb (Z.of_nat (List.length octets) =? 4) then None
    else option_map from_bytes (map_opt _parse_octet octets).

(** [IPv4Address(s)._ip] for a string [s]. *)
Definition IPv4Address (address : string) : option Z :=
  if contains "/" address then None else _ip_int_from_string_v4 address.

(** *** Parsing, IPv6 *)

Definition _parse_hextet (hextet_str : string) : option Z :=
  if negb (all_hex hextet_str) then None
  else if 4 <? len hextet_str then None
  else if str_empty hextet_str then None
  else Some (int16 hextet_str).

(** The scan for ['::']: [None] when there is more than one, else the
    value of [skip_index]. *)
Fixpoint find_skip (parts : list string) (i : Z) (skip_index : option Z)
  : option (option Z) :=
  match parts with
  | [] => Some skip_index
  | p :: r =>
      if str_empty p then
        match skip_index with
        | Some _ => None
        | None => find_skip r (i + 1) (Some i)
        end
      else find_skip r (i + 1) skip_index
  end.

Definition lastn {A : Type} (n : nat) (l : list A) : list A :=
  skipn (List.length l - n) l.

Definition parse_hextets (acc : option Z) (ps : list string) : option Z :=
  fold_left (fun acc p =>
               match acc, _parse_hextet p with
               | Some ip_int, Some h => Some (Z.lor (Z.shiftl ip_int 16) h)
               | _, _ => None
               end) ps acc.

(** The second half of [IPv6Address._ip_int_from_string], on the parts of
    the address once an IPv4-style suffix has been converted. *)
Definition _ip_int_from_parts (parts : list string) : option Z :=
  let n := Z.of_nat (List.length parts) in
  if 9 <? n then None
  else
    match find_skip (removelast (tl parts)) 1 None with
    | None => None
    | Some (Some skip_index) =>
        let parts_hi := skip_index in
        let parts_lo := n - skip_index - 1 in
        let hi_empty := str_empty (hd "" parts) in
        let lo_empty := str_empty (last parts "") in
        let parts_hi := if hi_empty then parts_hi - 1 else parts_hi in
        if hi_empty && negb (parts_hi =? 0) then None
        else
          let parts_lo := if lo_empty then parts_lo - 1 else parts_lo in
          if lo_empty && negb (parts_lo =? 0) then None
          else
            let parts_skipped := 8 - (parts_hi + parts_lo) in
            if parts_skipped <? 1 then None
            else
              let hi := parse_hextets (Some 0) (firstn (Z.to_nat parts_hi) parts) in
              let mid := option_map (fun ip_int => Z.shiftl ip_int (16 * parts_skipped)) hi in
              parse_hextets mid (lastn (Z.to_nat parts_lo) parts)
    | Some None =>
        if negb (n =? 8) then None
        else if str_empty (hd "" parts) then None
        else if str_empty (last parts "") then None
        else parse_hextets (Some 0) parts
    end.

Definition _ip_int_from_string_v6 (ip_str : string) : option Z :=
  if str_empty ip_str then None
  else
    let parts := split ":" ip_str in
    if Z.of_nat (List.length parts) <? 3 then None
    else
      let parts' :=
        if contains "." (last parts "") then
          match IPv4Address (last parts "") with
          | None => None
          | Some ipv4_int =>
              Some (removelast parts
                      ++ [hex (Z.land (Z.shiftr ipv4_int 16) 65535);
                          hex (Z.land ipv4_int 65535)])
          end
        else Some parts in
      match parts' with
      | None => None
      | Some parts => _ip_int_from_parts parts
      end.

Definition _ip_int_from_string (v : ipver) (ip_str : string) : option Z :=
  match v with
  | V4 => _ip_int_from_string_v4 ip_str
  | V6 => _ip_int_from_string_v6 ip_str
  end.

(** *** Netmasks *)

Definition _prefix_from_prefix_string (v : ipver) (prefixlen_str : string) : option Z :=
  if negb (isdigit prefixlen_str) then None
  else
    let p := int10 prefixlen_str in
    if (0 <=? p) && (p <=? _max_prefixlen v) then Some p else None.

Definition _prefix_from_ip_int (v : ipver) (ip_int : Z) : option Z :=
  let trailing_zeroes := _count_righthand_zero_bits ip_int (_max_prefixlen v) in
  let p := _max_prefixlen v - trailing_zeroes in
  let leading_ones := Z.shiftr ip_int trailing_zeroes in
  let all_ones := Z.shiftl 1 p - 1 in
  if negb (leading_ones =? all_ones) then None else Some p.

Definition _prefix_from_ip_string (v : ipver) (ip_str : string) : option Z :=
  match _ip_int_from_string v ip_str with
  | None => None
  | Some ip_int =>
      match _prefix_from_ip_int v ip_int with
      | Some p => Some p
      | None => _prefix_from_ip_int v (Z.lxor ip_int (_ALL_ONES v))
      end
  end.

(** [_make_netmask], returning the prefix length; the argument is the text
    after the ['/'], or [None] when the caller passes [_max_prefixlen]. *)
Definition _make_netmask (v : ipver) (arg : option string) : option Z :=
  match arg with
  | None => Some (_max_prefixlen v)
  | Some s =>
      match v with
      | V4 =>
          match _prefix_from_prefix_string V4 s with
          | Some p => Some p
          | None => _prefix_from_ip_string V4 s
          end
      | V6 => _prefix_from_prefix_string V6 s
      end
  end.

(** [_split_addr_prefix] on a string. *)
Definition _split_addr_prefix (address : string) : option (string * option string) :=
  match split "/" address with
  | [addr] => Some (addr, None)
  | [addr; mask] => Some (addr, Some mask)
  | _ => None
  end.

(** [IPv4Network(address, strict=False)] and [IPv6Network(address, strict=False)] *)
Definition Network_init (v : ipver) (address : string) : option IPNetwork :=
  match _split_addr_prefix address with
  | None => None
  | Some (addr, mask) =>
      match _ip_int_from_string v addr with
      | None => None
      | Some packed =>
          match _make_netmask v mask with
          | None => None
          | Some p =>
              let nm := _ip_int_from_prefix v p in
              if negb (Z.land packed nm =? packed)
              then Some (mkNet v (Z.land packed nm) p)
              else Some (mkNet v packed p)
          end
      end
  end.

(** [ipaddress.ip_network(address, strict=False)]; [None] is [ValueError].
    An address with a zone identifier is not accepted. *)
Definition ip_network (address : string) : option IPNetwork :=
  match Network_init V4 address with
  | Some n => Some n
  | None => Network_init V6 address
  end.

(** *** Printing *)

(** [IPv4Address._string_from_ip_int] *)
Definition _string_from_ip_int_v4 (ip_int : Z) : string :=
  join "." (map (fun i => str_int (Z.land (Z.shiftr ip_int (8 * (3 - i))) 255))
                [0; 1; 2; 3]).

Record dc_state : Type := mkDc {
  best_doublecolon_start : Z;
  best_doublecolon_len : Z;
  doublecolon_start : Z;
  doublecolon_len : Z
}.

Definition dc_step (st : dc_state) (ih : Z * string) : dc_state :=
  let (index, hextet) := ih in
  if (hextet =? "0")%string then
    let l := doublecolon_len st + 1 in
    let s := if doublecolon_start st =? -1 then index else doublecolon_start st in
    if best_doublecolon_len st <? l
    then mkDc s l s l
    else mkDc (best_doublecolon_start st) (best_doublecolon_len st) s l
  else mkDc (best_doublecolon_start st) (best_doublecolon_len st) (-1) 0.

Fixpoint enumerate_from {A : Type} (i : Z) (l : list A) : list (Z * A) :=
  match l with
  | [] => []
  | x :: r => (i, x) :: enumerate_from (i + 1) r
  end.

Definition _compress_hextets (hextets : list string) : list string :=
  let st := fold_left dc_step (enumerate_from 0 hextets) (mkDc (-1) 0 (-1) 0) in
  if 1 <? best_doublecolon_len st then
    let best_end := best_doublecolon_start st + best_doublecolon_len st in
    let hextets1 :=
      if best_end =? Z.of_nat (List.length hextets) then hextets ++ [""] else hextets in
    let hextets2 :=
      firstn (Z.to_nat (best_doublecolon_start st)) hextets1
        ++ [""] ++ skipn (Z.to_nat best_end) hextets1 in
    if best_doublecolon_start st =? 0 then "" :: hextets2 else hextets2
  else hextets.

(** [IPv6Address._string_from_ip_int] *)
Definition _string_from_ip_int_v6 (ip_int : Z) : string :=
  let hextets :=
    map (fun i => hex (Z.land (Z.shiftr ip_int (16 * (7 - i))) 65535))
        [0; 1; 2; 3; 4; 5; 6; 7] in
  join ":" (_compress_hextets hextets).

(** [str(address)] for the address [ip_int] of version [v]. *)
Definition str_addr (v : ipver) (ip_int : Z) : string :=
  match v with
  | V4 => _string_from_ip_int_v4 ip_int
  | V6 => _string_from_ip_int_v6 ip_int
  end.

(** [str(net)] *)
Definition str_net (n : IPNetwork) : string :=
  (str_addr (version n) (network_address n) ++ "/" ++ str_int (prefixlen n))%string.

(** ** Dictionaries and sorting *)

Section Dict.
Context {K V : Type} (eqb : K -> K -> bool).

(** [d.get(k)] *)
Fixpoint dict_get (k : K) (d : list (K * V)) : option V :=
  match d with
  | [] => None
  | (k', v) :: r => if eqb k' k then Some v else dict_get k r
  end.

(** [d[k] = v] *)
Fixpoint dict_set (k : K) (v : V) (d : list (K * V)) : list (K * V) :=
  match d with
  | [] => [(k, v)]
  | (k', v') :: r => if eqb k' k then (k', v) :: r else (k', v') :: dict_set k v r
  end.

(** [del d[k]] *)
Fixpoint dict_del (k : K) (d : list (K * V)) : list (K * V) :=
  match d with
  | [] => []
  | (k', v') :: r => if eqb k' k then r else (k', v') :: dict_del k r
  end.

(** [d.update(d2)] *)
Definition dict_update (d d2 : list (K * V)) : list (K * V) :=
  fold_left (fun acc kv => dict_set (fst kv) (snd kv) acc) d2 d.
End Dict.

(** A set of strings, used only for membership tests. *)
Definition str_in (s : string) (l : list string) : bool :=
  existsb (String.eqb s) l.

Section Sort.
Context {A : Type} (lt : A -> A -> bool).

Fixpoint insert_sorted (x : A) (l : list A) : list A :=
  match l with
  | [] => [x]
  | y :: r => if lt y x then y :: insert_sorted x r else x :: y :: r
  end.

(** A stable sort by [lt], standing for [sorted] on elements that [lt]
    can compare. *)
Definition stable_sort (l : list A) : list A := fold_right insert_sorted [] l.
End Sort.

(** All networks of the list have the same IP version. *)
Definition same_version (l : list IPNetwork) : bool :=
  match l with
  | [] => true
  | x :: r => forallb (fun y => ipver_eqb (version y) (version x)) r
  end.

(** [sorted(l, key=...)] where comparing the keys of two networks compares
    their addresses: comparing an IPv4 with an IPv6 address raises
    [TypeError], and a sort of a list that holds both compares two such. *)
Definition sorted_nets (lt : IPNetwork -> IPNetwork -> bool) (l : list IPNetwork)
  : result (list IPNetwork) :=
  if same_version l then Ok (stable_sort lt l) else Raise TypeError.

(** The key [(x.network_address, x.prefixlen)] of [find_summary_routes]. *)
Definition lt_addr_prefixlen (a b : IPNetwork) : bool :=
  (network_address a <? network_address b)
  || ((network_address a =? network_address b) && (prefixlen a <? prefixlen b)).

(** The key [x.network_address] of [_find_tightest_summary]. *)
Definition lt_addr (a b : IPNetwork) : bool :=
  network_address a <? network_address b.

(** [a < b] on networks of one version: by address, then by netmask. *)
Definition net_lt (a b : IPNetwork) : bool :=
  if negb (network_address a =? network_address b)
  then network_address a <? network_address b
  else netmask a <? netmask b.

(** ** Collapsing networks *)

(** [net.supernet()] *)
Definition supernet (n : IPNetwork) : IPNetwork :=
  if prefixlen n =? 0 then n
  else mkNet (version n)
             (Z.land (network_address n) (Z.shiftl (netmask n) 1))
             (prefixlen n - 1).

(** The body of [summarize_address_range]'s loop; [fuel] bounds the number
    of iterations, each of which moves [first_int] up by at least one. *)
Fixpoint summarize_loop (fuel : nat) (v : ipver) (first_int last_int : Z)
  : list IPNetwork :=
  match fuel with
  | O => []
  | S f =>
      if first_int <=? last_int then
        let ip_bits := _max_prefixlen v in
        let nbits := Z.min (_count_righthand_zero_bits first_int ip_bits)
                           (bit_length (last_int - first_int + 1) - 1) in
        let net := mkNet v first_int (ip_bits - nbits) in
        let first_int' := first_int + Z.shiftl 1 nbits in
        if first_int' - 1 =? _ALL_ONES v then [net]
        else net :: summarize_loop f v first_int' last_int
      else []
  end.

(** [summarize_address_range(first, last)] for two addresses of version
    [v] with [first <= last]. *)
Definition summarize_address_range (v : ipver) (first last : Z) : list IPNetwork :=
  summarize_loop (Z.to_nat (last - first + 1)) v first last.

(** [_find_address_range] on a non-empty list [first :: addresses]:
    [first] and [last] are the ends of the current run. *)
Fixpoint find_address_range_from (first last : Z) (addresses : list Z)
  : list (Z * Z) :=
  match addresses with
  | [] => [(first, last)]
  | ip :: r =>
      if negb (ip =? last + 1)
      then (first, last) :: find_address_range_from ip ip r
      else find_address_range_from first ip r
  end.

Definition _find_address_range (addresses : list Z) : list (Z * Z) :=
  match addresses with
  | [] => []
  | ip :: r => find_address_range_from ip ip r
  end.

(** The first loop of [_collapse_addresses_internal].  [to_merge] is kept
    as a stack: its head is the last element of the Python list, the one
    [pop()] takes and after which [append] adds. *)
Fixpoint merge_loop (fuel : nat) (to_merge : list IPNetwork)
         (subnets : list (IPNetwork * IPNetwork)) : list (IPNetwork * IPNetwork) :=
  match fuel with
  | O => subnets
  | S f =>
      match to_merge with
      | [] => subnets
      | net :: rest =>
          let sup := supernet net in
          match dict_get net_eqb sup subnets with
          | None => merge_loop f rest (dict_set net_eqb sup net subnets)
          | Some existing =>
              if negb (net_eqb existing net)
              then merge_loop f (sup :: rest) (dict_del net_eqb sup subnets)
              else merge_loop f rest subnets
          end
      end
  end.

(** Enough iterations for [merge_loop] to empty [to_merge]. *)
Definition merge_fuel (to_merge : list IPNetwork) : nat :=
  S (Z.to_nat (2 * fold_right (fun n acc => prefixlen n + 1 + acc) 0 to_merge)).

(** The second loop of [_collapse_addresses_internal]. *)
Fixpoint skip_subsumed (last : option IPNetwork) (nets : list IPNetwork)
  : list IPNetwork :=
  match nets with
  | [] => []
  | net :: r =>
      match last with
      | Some l =>
          if broadcast_address net <=? broadcast_address l
          then skip_subsumed last r
          else net :: skip_subsumed (Some net) r
      | None => net :: skip_subsumed (Some net) r
      end
  end.

Definition _collapse_addresses_internal (addresses : list IPNetwork)
  : result (list IPNetwork) :=
  let subnets := merge_loop (merge_fuel addresses) (rev addresses) [] in
  sorted <- sorted_nets net_lt (map snd subnets) ;;
  Ok (skip_subsumed None sorted).

(** The first loop of [collapse_addresses]: networks of full prefix length
    go to [ips] (as addresses), the others to [nets]; each is checked
    against the version of the last member of its list. *)
Fixpoint split_ips_nets (addresses : list IPNetwork)
         (ips : list (ipver * Z)) (nets : list IPNetwork)
  : result (list (ipver * Z) * list IPNetwork) :=
  match addresses with
  | [] => Ok (ips, nets)
  | ip :: r =>
      if prefixlen ip =? _max_prefixlen (version ip) then
        match rev ips with
        | (v, _) :: _ =>
            if negb (ipver_eqb v (version ip)) then Raise TypeError
            else split_ips_nets r (ips ++ [(version ip, network_address ip)]) nets
        | [] => split_ips_nets r (ips ++ [(version ip, network_address ip)]) nets
        end
      else
        match rev nets with
        | n :: _ =>
            if negb (ipver_eqb (version n) (version ip)) then Raise TypeError
            else split_ips_nets r ips (nets ++ [ip])
        | [] => split_ips_nets r ips (nets ++ [ip])
        end
  end.

(** [list(ipaddress.collapse_addresses(addresses))] *)
Definition collapse_addresses (addresses : list IPNetwork) : result (list IPNetwork) :=
  p <- split_ips_nets addresses [] [] ;;
  let (ips, nets) := p in
  let addrs :=
    match ips with
    | [] => []
    | (v, _) :: _ =>
        let sorted_ips := stable_sort Z.ltb (nodup Z.eq_dec (map snd ips)) in
        flat_map (fun fl => summarize_address_range v (fst fl) (snd fl))
                 (_find_address_range sorted_ips)
    end in
  _collapse_addresses_internal (addrs ++ nets).

(** ** Floating point *)

(** The integer nearest to [n / d], ties to even ([d > 0]). *)
Definition round_half_even (n d : Z) : Z :=
  let q := n / d in
  let r := n mod d in
  if 2 * r <? d then q
  else if d <? 2 * r then q + 1
  else if Z.even q then q else q + 1.

(** [a / b] on Python integers [a > 0] and [b > 0]: the quotient correctly
    rounded to a binary64 float (53 significant bits, ties to even), as a
    rational.  Quotients outside the range of normal floats do not occur
    for the address counts of a list that fits in memory. *)
Definition py_truediv (a b : Z) : Q :=
  if (a <=? 0) || (b <=? 0) then 0%Q
  else
    let e0 := Z.log2 a - Z.log2 b in
    (* a / b lies in [2^e, 2^(e+1)) *)
    let e := if b * 2 ^ Z.max e0 0 <=? a * 2 ^ Z.max (- e0) 0 then e0 else e0 - 1 in
    let k := 52 - e in
    let m := round_half_even (a * 2 ^ Z.max k 0) (b * 2 ^ Z.max (- k) 0) in
    if k <=? 0 then inject_Z (m * 2 ^ (- k))
    else Qmake m (Z.to_pos (2 ^ k)).

(** The float literal [0.05]. *)
Definition float_0_05 : Q := Qmake 3602879701896397 72057594037927936.

Definition Qltb (a b : Q) : bool := negb (Qle_bool b a).

(** ** The summarization engine *)

(** The summaries dictionary: summary text to the texts of its originals. *)
Definition summary_dict : Type := list (string * list string).

(** [min(l)]; [ValueError] on an empty list. *)
Definition py_min (l : list Z) : result Z :=
  match l with
  | [] => Raise ValueError
  | x :: r => Ok (fold_left Z.min r x)
  end.

(** [sum(l)] *)
Definition py_sum (l : list Z) : Z := fold_left Z.add l 0.

(** The classification key computed in [_group_by_major_network_class]. *)
Definition major_key (net : IPNetwork) : string :=
  let b0 := packed_byte net 0 in
  let b1 := packed_byte net 1 in
  if b0 =? 10 then "10"
  else if (b0 =? 172) && (16 <=? b1) && (b1 <=? 31) then ("172." ++ str_int b1)%string
  else if (b0 =? 192) && (b1 =? 168) then "192.168"
  else (str_int b0 ++ "." ++ str_int b1)%string.

Definition group_add (groups : list (string * list IPNetwork)) (net : IPNetwork)
  : list (string * list IPNetwork) :=
  let key := major_key net in
  match dict_get String.eqb key groups with
  | None => dict_set String.eqb key [net] groups
  | Some g => dict_set String.eqb key (g ++ [net]) groups
  end.

Definition _group_by_major_network_class (networks : list IPNetwork)
  : list (list IPNetwork) :=
  let groups := fold_left group_add networks [] in
  filter (fun group => 1 <? Z.of_nat (List.length group)) (map snd groups).

(** [all(net.subnet_of(c) for net in nets)] *)
Fixpoint all_subnet_of (nets : list IPNetwork) (c : IPNetwork) : result bool :=
  match nets with
  | [] => Ok true
  | net :: r =>
      b <- subnet_of net c ;;
      if b then all_subnet_of r c else Ok false
  end.

(** The candidate of prefix length [prefix_len]:
    [ip_network(f"{min_addr}/{prefix_len}", strict=False)]. *)
Definition summary_candidate (v : ipver) (min_addr prefix_len : Z) : option IPNetwork :=
  ip_network (str_addr v min_addr ++ "/" ++ str_int prefix_len)%string.

(** [used_addresses / total_addresses] for a candidate. *)
Definition efficiency (sorted_networks : list IPNetwork) (c : IPNetwork) : Q :=
  py_truediv (py_sum (map num_addresses sorted_networks)) (num_addresses c).

(** The [for prefix_len in range(8, 29)] loop of [_find_tightest_summary],
    on the prefix lengths still to try.  [Ok (Some s)] is [return s] (from
    inside the loop or after it), [Ok None] is reaching the final
    [return None], and [Raise] is an exception that leaves the loop. *)
Fixpoint scan_prefix_lengths (sorted_networks : list IPNetwork) (v : ipver)
         (min_addr min_prefixlen : Z) (prefix_lens : list Z)
         (best_summary : option (string * list string)) (best_efficiency : Q)
  : result (option (string * list string)) :=
  match prefix_lens with
  | [] =>
      match best_summary with
      | Some s => if Qltb 0 best_efficiency then Ok (Some s) else Ok None
      | None => Ok None
      end
  | prefix_len :: rest =>
      match summary_candidate v min_addr prefix_len with
      | None =>
          scan_prefix_lengths sorted_networks v min_addr min_prefixlen rest
                              best_summary best_efficiency
      | Some c =>
          contained <- all_subnet_of sorted_networks c ;;
          if contained then
            let eff := efficiency sorted_networks c in
            if prefix_len <? min_prefixlen then
              let this := (str_net c, map str_net sorted_networks) in
              let best_summary' :=
                if Qltb best_efficiency eff then Some this else best_summary in
              let best_efficiency' :=
                if Qltb best_efficiency eff then eff else best_efficiency in
              if Qle_bool float_0_05 eff then Ok (Some this)
              else scan_prefix_lengths sorted_networks v min_addr min_prefixlen rest
                                       best_summary' best_efficiency'
            else scan_prefix_lengths sorted_networks v min_addr min_prefixlen rest
                                     best_summary best_efficiency
          else scan_prefix_lengths sorted_networks v min_addr min_prefixlen rest
                                   best_summary best_efficiency
      end
  end.

(** [range(8, 29)] *)
Definition range_8_29 : list Z := map Z.of_nat (seq 8 21).

(** Step A of [_find_tightest_summary]: the result of
    [collapse_addresses] is accepted when it is one network with a shorter
    prefix than every member. *)
Definition exact_collapse (sorted_networks collapsed : list IPNetwork)
  : result (option (string * list string)) :=
  match collapsed with
  | [summary_net] =>
      m <- py_min (map prefixlen sorted_networks) ;;
      if prefixlen summary_net <? m
      then Ok (Some (str_net summary_net, map str_net sorted_networks))
      else Ok None
  | _ => Ok None
  end.

(** The body of the [try] block of [_find_tightest_summary]. *)
Definition tightest_summary_body (group_networks : list IPNetwork)
  : result (option (string * list string)) :=
  sorted_networks <- sorted_nets lt_addr group_networks ;;
  collapsed <- collapse_addresses sorted_networks ;;
  a <- exact_collapse sorted_networks collapsed ;;
  match a with
  | Some s => Ok (Some s)
  | None =>
      min_addr <- py_min (map network_address sorted_networks) ;;
      (* max_addr is computed here and not used *)
      min_prefixlen <- py_min (map prefixlen sorted_networks) ;;
      let v := match sorted_networks with net :: _ => version net | [] => V4 end in
      scan_prefix_lengths sorted_networks v min_addr min_prefixlen range_8_29 None 0%Q
  end.

Definition _find_tightest_summary (group_networks : list IPNetwork)
  : option (string * list string) :=
  if Z.of_nat (List.length group_networks) <? 2 then None
  else
    match tightest_summary_body group_networks with
    | Ok r => r
    | Raise _ => None   (* except Exception: pass *)
    end.

Definition _find_major_network_summaries (networks : list IPNetwork) : summary_dict :=
  let major_groups := _group_by_major_network_class networks in
  fold_left
    (fun summaries group_networks =>
       if Z.of_nat (List.length group_networks) <? 2 then summaries
       else
         match _find_tightest_summary group_networks with
         | Some (summary_net, original_nets) =>
             dict_set String.eqb summary_net original_nets summaries
         | None => summaries
         end)
    major_groups [].

(** One step of the inner loop of [_find_contiguous_summaries], for the
    pair [(ri, rj)]. *)
Definition try_pair (ri rj : IPNetwork) (summaries : summary_dict) : summary_dict :=
  match collapse_addresses [ri; rj] with
  | Ok [pair_summary] =>
      if prefixlen pair_summary <? Z.max (prefixlen ri) (prefixlen rj) then
        if prefixlen pair_summary <=? 28
        then dict_set String.eqb (str_net pair_summary) [str_net ri; str_net rj] summaries
        else summaries
      else summaries
  | _ => summaries   (* no single network, or an exception: continue *)
  end.

(** The two nested loops over [i < j]. *)
Fixpoint pair_loop (remaining_networks : list IPNetwork) (summaries : summary_dict)
  : summary_dict :=
  match remaining_networks with
  | [] => summaries
  | ri :: rest =>
      pair_loop rest (fold_left (fun acc rj => try_pair ri rj acc) rest summaries)
  end.

Definition _find_contiguous_summaries (networks : list IPNetwork)
           (existing_summaries : summary_dict) : summary_dict :=
  let already_summarized := flat_map snd existing_summaries in
  let remaining_networks :=
    filter (fun net => negb (str_in (str_net net) already_summarized)) networks in
  if Z.of_nat (List.length remaining_networks) <? 2 then []
  else pair_loop remaining_networks [].

(** The parsing loop of [find_summary_routes]: entries that [ip_network]
    rejects are skipped. *)
Definition parse_networks (networks : list string) : list IPNetwork :=
  flat_map (fun net => match ip_network net with
                       | Some n => [n]
                       | None => []
                       end) networks.

Definition find_summary_routes (networks : list string) : result summary_dict :=
  let network_objects := parse_networks networks in
  match network_objects with
  | [] => Ok []
  | _ :: _ =>
      network_objects <- sorted_nets lt_addr_prefixlen network_objects ;;
      let summaries :=
        dict_update String.eqb [] (_find_major_network_summaries network_objects) in
      let summaries :=
        dict_update String.eqb summaries
                    (_find_contiguous_summaries network_objects summaries) in
      Ok summaries
  end.

Definition get_optimized_networks (networks : list string)
  : result (list string * summary_dict) :=
  summaries <- find_summary_routes networks ;;
  let optimized := map fst summaries in
  let summarized_networks := flat_map snd summaries in
  let optimized :=
    optimized ++ filter (fun net => negb (str_in net summarized_networks)) networks in
  Ok (optimized, summaries).

(** ** Vocabulary of the properties *)

(** The integers [lo, lo + 1, ..., lo + n - 1]. *)
Definition Z_range (lo : Z) (n : nat) : list Z := map (fun i => lo + Z.of_nat i) (seq 0 n).

(** What [ip_network] builds: a prefix length within the version's range,
    an address of the version's width, and no host bits. *)
Definition wf_net (n : IPNetwork) : Prop :=
  0 <= prefixlen n <= _max_prefixlen (version n)
  /\ 0 <= network_address n < 2 ^ _max_prefixlen (version n)
  /\ network_address n mod 2 ^ (_max_prefixlen (version n) - prefixlen n) = 0.

(** The address [a] belongs to the network [n]. *)
Definition has_address (n : IPNetwork) (a : Z) : Prop :=
  network_address n <= a <= broadcast_address n.

(** [o] is a subnet of [s]: what [o.subnet_of(s)] tests. *)
Definition covers (s o : IPNetwork) : Prop :=
  version s = version o
  /\ network_address s <= network_address o
  /\ broadcast_address o <= broadcast_address s.

(** Some network of [l] covers [n]. *)
Definition covered_by (l : list IPNetwork) (n : IPNetwork) : Prop :=
  exists s, In s l /\ covers s n.

(** Weight of the networks still to merge, and the shape of the
    [subnets] dictionary, in [_collapse_addresses_internal]. *)
Definition merge_weight (to_merge : list IPNetwork) : Z :=
  fold_right (fun n acc => prefixlen n + 1 + acc) 0 to_merge.

Definition subnets_ok (subnets : list (IPNetwork * IPNetwork)) : Prop :=
  Forall (fun kv => wf_net (snd kv) /\ fst kv = supernet (snd kv)) subnets.

Definition addr_le (a b : IPNetwork) : Prop := network_address a <= network_address b.

(** What holds of every entry [(summary, originals)] of the summaries
    dictionary, for the parsed input [nets]: the texts are those of a
    network [s] and of networks [os] of the input, [s] covers each of them,
    and [s] has a shorter prefix than all of them (an entry of the group
    stage) or than the longer-prefixed of the two (an entry of the pair
    stage). *)
Definition entry_ok (nets : list IPNetwork) (e : string * list string) : Prop :=
  exists s os,
    fst e = str_net s
    /\ snd e = map str_net os
    /\ (forall o, In o os -> In o nets)
    /\ Forall (covers s) os
    /\ ((2 <= Z.of_nat (List.length os)
         /\ Forall (fun o => prefixlen s < prefixlen o) os)
        \/ (exists a b, os = [a; b]
                        /\ prefixlen s < Z.max (prefixlen a) (prefixlen b)
                        /\ prefixlen s <= 28)).


(** The no-fabrication property as the specification states it, for one
    input: every original of the mapping is one of the input strings. *)
Definition no_fabrication (networks : list string) : Prop :=
  forall optimized summaries summary originals,
    get_optimized_networks networks = Ok (optimized, summaries) ->
    In (summary, originals) summaries ->
    forall original, In original originals -> In original networks.

(** The networks of [networks] whose classification key is [k], in order. *)
Definition key_class (networks : list IPNetwork) (k : string) : list IPNetwork :=
  filter (fun n => String.eqb (major_key n) k) networks.

(** The groups dictionary after the networks [l] have been classified:
    one entry per key that occurs, holding the class of the key. *)
Definition groups_inv (d : list (string * list IPNetwork)) (l : list IPNetwork) : Prop :=
  NoDup (map fst d)
  /\ forall k g, In (k, g) d <-> (g = key_class l k /\ g <> []).

(** The candidate of Step B as the specification describes it: the minimum
    network address of the group masked to [L] bits, with prefix [L]. *)
Definition masked_candidate (v : ipver) (min_addr L : Z) : IPNetwork :=
  mkNet v (Z.land min_addr (_ip_int_from_prefix v L)) L.

(** [c] contains the network [n]. *)
Definition contains_net (c n : IPNetwork) : bool :=
  ipver_eqb (version n) (version c)
  && (network_address c <=? network_address n)
  && (broadcast_address n <=? broadcast_address c).

(** A candidate is valid when it contains every member and its length is
    strictly less than the minimum member prefix length. *)
Definition valid_candidate (members : list IPNetwork) (min_prefixlen : Z)
           (c : IPNetwork) : bool :=
  forallb (contains_net c) members && (prefixlen c <? min_prefixlen).

(** What is checked of the text of an octet and of a prefix length. *)
Definition octet_text_ok (b : Z) : bool :=
  match _parse_octet (str_int b) with
  | Some x => x =? b
  | None => false
  end
  && negb (contains "." (str_int b))
  && negb (contains "/" (str_int b))
  && negb (str_empty (str_int b)).

Definition prefix_text_v4_ok (L : Z) : bool :=
  negb (contains "/" (str_int L))
  && match _make_netmask V4 (Some (str_int L)) with
     | Some p => p =? L
     | None => false
     end.

(** Step B of the tight-summary finder as the specification words it, for
    the sorted members of a group of networks of version [v], their minimum
    network address [min_addr] and their minimum prefix length
    [min_prefixlen]: the validity of the candidate of length [L], its
    efficiency, and the result returned when it is accepted. *)
Definition stepB_valid (v : ipver) (sorted : list IPNetwork)
           (min_addr min_prefixlen L : Z) : bool :=
  valid_candidate sorted min_prefixlen (masked_candidate v min_addr L).

Definition stepB_eff (v : ipver) (sorted : list IPNetwork) (min_addr L : Z) : Q :=
  efficiency sorted (masked_candidate v min_addr L).

Definition stepB_entry (v : ipver) (sorted : list IPNetwork) (min_addr L : Z)
  : string * list string :=
  (str_net (masked_candidate v min_addr L), map str_net sorted).

(** The hextet texts an IPv6 address text stands for: the parts before the
    ['::'], a ["0"] for each hextet that the ['::'] skips, and the parts
    after it; with the checks of [_ip_int_from_parts]. *)
Definition expand_parts (parts : list string) : option (list string) :=
  let n := Z.of_nat (List.length parts) in
  if 9 <? n then None
  else
    match find_skip (removelast (tl parts)) 1 None with
    | None => None
    | Some (Some skip_index) =>
        let parts_hi := skip_index in
        let parts_lo := n - skip_index - 1 in
        let hi_empty := str_empty (hd "" parts) in
        let lo_empty := str_empty (last parts "") in
        let parts_hi := if hi_empty then parts_hi - 1 else parts_hi in
        if hi_empty && negb (parts_hi =? 0) then None
        else
          let parts_lo := if lo_empty then parts_lo - 1 else parts_lo in
          if lo_empty && negb (parts_lo =? 0) then None
          else
            let parts_skipped := 8 - (parts_hi + parts_lo) in
            if parts_skipped <? 1 then None
            else Some (firstn (Z.to_nat parts_hi) parts
                         ++ repeat "0" (Z.to_nat parts_skipped)
                         ++ lastn (Z.to_nat parts_lo) parts)
    | Some None =>
        if negb (n =? 8) then None
        else if str_empty (hd "" parts) then None
        else if str_empty (last parts "") then None
        else Some parts
    end.

(** What is checked, by computation, of the text of a hextet. *)
Definition hextet_text_ok (h : Z) : bool :=
  let t := hex h in
  match _parse_hextet t with
  | Some x => x =? h
  | None => false
  end
  && negb (str_empty t)
  && negb (contains ":" t)
  && negb (contains "." t)
  && negb (contains "/" t)
  && Bool.eqb (t =? "0")%string (h =? 0).

(** A list of hextet texts with the zero pattern [zs], position [i]
    holding the text of [i] when it is not zero. *)
Fixpoint pattern_from (i : Z) (zs : list bool) : list string :=
  match zs with
  | [] => []
  | z :: r => (if z then "0" else str_int i) :: pattern_from (i + 1) r
  end.

(** The renaming that sends the text of position [i] of a pattern to the
    text in the table, and leaves ["0"] and the empty text alone. *)
Fixpoint retext_from (i : Z) (table : list (bool * string)) (x : string) : string :=
  match table with
  | [] => x
  | (z, t) :: r =>
      if (x =? str_int i)%string && negb z then t else retext_from (i + 1) r x
  end.

Fixpoint strs_eqb (a b : list string) : bool :=
  match a, b with
  | [], [] => true
  | x :: a', y :: b' => (x =? y)%string && strs_eqb a' b'
  | _, _ => false
  end.

(** Compressing a pattern of eight hextets and expanding the result gives
    the pattern back. *)
Definition pattern_ok (zs : list bool) : bool :=
  (3 <=? Z.of_nat (List.length (_compress_hextets (pattern_from 1 zs))))
  && match expand_parts (_compress_hextets (pattern_from 1 zs)) with
     | Some hs => strs_eqb hs (pattern_from 1 zs)
     | None => false
     end.

(** The entries of a renaming table: a zero entry holds ["0"], the others
    a text that is neither ["0"] nor empty. *)
Definition table_ok (table : list (bool * string)) : Prop :=
  forall z t, In (z, t) table ->
              (z = true -> t = "0")
              /\ (z = false -> (t =? "0")%string = false /\ str_empty t = false).

Definition index_text_ok (i : Z) : bool :=
  negb (str_int i =? "0")%string && negb (str_empty (str_int i)).

Definition prefix_text_v6_ok (L : Z) : bool :=
  negb (contains "/" (str_int L))
  && match _make_netmask V6 (Some (str_int L)) with
     | Some p => p =? L
     | None => false
     end.

(** What is checked, by computation, of the text of a prefix length. *)
Definition prefix_text_ok (L : Z) : bool :=
  negb (contains "/" (str_int L))
  && match _make_netmask V4 (Some (str_int L)) with
     | Some p => p =? L
     | None => true
     end
  && match _make_netmask V6 (Some (str_int L)) with
     | Some p => p =? L
     | None => true
     end.

(** What [_find_tightest_summary] returns for a group: a network, as text,
    with the sorted group, as texts; the network covers each member and
    has a shorter prefix than each. *)
Definition group_summary_ok (sorted : list IPNetwork) (e : string * list string) : Prop :=
  exists s, e = (str_net s, map str_net sorted)
            /\ Forall (covers s) sorted
            /\ Forall (fun o => prefixlen s < prefixlen o) sorted.

(** ** The configuration records *)

(** The texts that the parser and the generator handle are modelled for
    ASCII content: [strip], [lower] and [int] below are those of Python on
    strings whose characters are all ASCII. *)

Record OSPFInterface : Type := mkInterface {
  name : string;
  interface : string;
  cost : Z;
  authentication : string;
  passive : bool;
  priority : Z
}.

Record OSPFConfig : Type := mkConfig {
  router_id : string;
  areas : list string;
  networks : list string;
  interfaces : list OSPFInterface
}.

(** ** More of Python's strings *)

(** [s.isascii()] *)
Definition isascii (s : string) : bool :=
  forallb (fun c => Z.of_nat (nat_of_ascii c) <? 128) (list_ascii_of_string s).

(** [c.isspace()] for an ASCII character. *)
Definition is_space (c : ascii) : bool :=
  let n := Z.of_nat (nat_of_ascii c) in
  ((9 <=? n) && (n <=? 13)) || ((28 <=? n) && (n <=? 32)).

(** [s.lstrip()], [s.rstrip()] and [s.strip()] *)
Fixpoint lstrip (s : string) : string :=
  match s with
  | EmptyString => EmptyString
  | String c r => if is_space c then lstrip r else s
  end.

Fixpoint rstrip (s : string) : string :=
  match s with
  | EmptyString => EmptyString
  | String c r =>
      match rstrip r with
      | EmptyString => if is_space c then EmptyString else String c EmptyString
      | r' => String c r'
      end
  end.

Definition strip (s : string) : string := rstrip (lstrip s).

(** [s.lower()] for an ASCII string. *)
Definition lower_char (c : ascii) : ascii :=
  let n := Z.of_nat (nat_of_ascii c) in
  if (65 <=? n) && (n <=? 90) then ascii_of_nat (Z.to_nat (n + 32)) else c.

Fixpoint lower (s : string) : string :=
  match s with
  | EmptyString => EmptyString
  | String c r => String (lower_char c) (lower r)
  end.

(** [s.startswith(p)] *)
Fixpoint startswith (s p : string) {struct p} : bool :=
  match p with
  | EmptyString => true
  | String a p' =>
      match s with
      | EmptyString => false
      | String b s' => Ascii.eqb b a && startswith s' p'
      end
  end.

(** [s.split(sep, 1)] for a one-character separator. *)
Fixpoint split1 (sep : ascii) (s : string) : list string :=
  match s with
  | EmptyString => [EmptyString]
  | String c r =>
      if Ascii.eqb c sep then [EmptyString; r]
      else match split1 sep r with
           | [] => [String c EmptyString]
           | p :: ps => String c p :: ps
           end
  end.

(** [str(n)] for an integer. *)
Definition str_Z (n : Z) : string :=
  if n <? 0 then ("-" ++ str_int (- n))%string else str_int n.

(** The digits of a decimal literal, where single underscores may separate
    digits; [prev_digit] tells that the previous character was a digit. *)
Fixpoint int_digits (s : string) (acc : Z) (prev_digit : bool) : option Z :=
  match s with
  | EmptyString => if prev_digit then Some acc else None
  | String c r =>
      if is_digit c then int_digits r (acc * 10 + (Z.of_nat (nat_of_ascii c) - 48)) true
      else if Ascii.eqb c "_" then
             if prev_digit then int_digits r acc false else None
           else None
  end.

(** The white space that [int] skips at both ends of an ASCII string. *)
Definition is_c_space (c : ascii) : bool :=
  let n := Z.of_nat (nat_of_ascii c) in ((9 <=? n) && (n <=? 13)) || (n =? 32).

Fixpoint lstrip_c (s : string) : string :=
  match s with
  | EmptyString => EmptyString
  | String c r => if is_c_space c then lstrip_c r else s
  end.

Fixpoint rstrip_c (s : string) : string :=
  match s with
  | EmptyString => EmptyString
  | String c r =>
      match rstrip_c r with
      | EmptyString => if is_c_space c then EmptyString else String c EmptyString
      | r' => String c r'
      end
  end.

(** [int(s)] for an ASCII string; [None] is [ValueError]. *)
Definition py_int (s : string) : option Z :=
  match rstrip_c (lstrip_c s) with
  | String "-" r => option_map Z.opp (int_digits r 0 false)
  | String "+" r => int_digits r 0 false
  | t => int_digits t 0 false
  end.

(** ** The configuration parser *)

(** [line.split(':', 1)[1].strip()]; [None] is [IndexError]. *)
Definition value_of (line : string) : option string :=
  option_map strip (nth_error (split1 ":" line) 1).

(** An assignment to a field of [current_interface], in a branch that is
    taken only when there is one: the value is computed first. *)
Definition set_field (config : OSPFConfig) (current_interface : option OSPFInterface)
           (value : option string) (set : OSPFInterface -> string -> option OSPFInterface)
  : option (OSPFConfig * option OSPFInterface) :=
  match value with
  | None => None
  | Some v =>
      match current_interface with
      | Some i =>
          match set i v with
          | None => None
          | Some i' => Some (config, Some i')
          end
      | None => Some (config, None)
      end
  end.

(** [if current_interface:] *)
Definition is_some {A : Type} (o : option A) : bool :=
  match o with
  | Some _ => true
  | None => false
  end.

(** One iteration of the loop over the lines of [parse_file], on the
    configuration and [current_interface]; [None] is an exception, which
    [parse_file] turns into [sys.exit(1)]. *)
Definition parse_line (st : OSPFConfig * option OSPFInterface) (line : string)
  : option (OSPFConfig * option OSPFInterface) :=
  let (config, current_interface) := st in
  let line := strip line in
  if str_empty line then Some st
  else if startswith line "OSPF Router ID:" then
    match value_of line with
    | None => None
    | Some v =>
        Some (mkConfig v (areas config) (networks config) (interfaces config),
              current_interface)
    end
  else if startswith line "Areas:" then
    match value_of line with
    | None => None
    | Some v =>
        Some (mkConfig (router_id config) (map strip (split "," v))
                       (networks config) (interfaces config),
              current_interface)
    end
  else if startswith line "Name:" then
    let config :=
      match current_interface with
      | Some i =>
          mkConfig (router_id config) (areas config) (networks config)
                   (interfaces config ++ [i])
      | None => config
      end in
    match value_of line with
    | None => None
    | Some v => Some (config, Some (mkInterface v "" 1 "none" false 1))
    end
  else if startswith line "Interface:" && is_some current_interface then
    set_field config current_interface (value_of line)
      (fun i v => Some (mkInterface (name i) v (cost i) (authentication i)
                                    (passive i) (priority i)))
  else if startswith line "Cost:" && is_some current_interface then
    set_field config current_interface (value_of line)
      (fun i v => match py_int v with
                  | None => None
                  | Some c => Some (mkInterface (name i) (interface i) c (authentication i)
                                                (passive i) (priority i))
                  end)
  else if startswith line "Authentication:" && is_some current_interface then
    set_field config current_interface (value_of line)
      (fun i v => Some (mkInterface (name i) (interface i) (cost i) (lower v)
                                    (passive i) (priority i)))
  else if startswith line "Passive:" && is_some current_interface then
    set_field config current_interface (value_of line)
      (fun i v => Some (mkInterface (name i) (interface i) (cost i) (authentication i)
                                    (lower v =? "enabled")%string (priority i)))
  else if contains "/" line && contains "." line then
    match ip_network line with
    | Some _ =>
        Some (mkConfig (router_id config) (areas config)
                       (networks config ++ [line]) (interfaces config),
              current_interface)
    | None => Some st
    end
  else Some st.

(** The loop over the lines. *)
Definition parse_lines (lines : list string) (st : OSPFConfig * option OSPFInterface)
  : option (OSPFConfig * option OSPFInterface) :=
  fold_left (fun st line => match st with
                            | Some s => parse_line s line
                            | None => None
                            end) lines (Some st).

(** The line feed character, as a separator. *)
Definition LF : ascii := "010"%char.

(** [OSPFConfigParser.parse_file], on the [content] that [file.read()]
    returns; [None] is [sys.exit(1)], which is also what a file that
    cannot be opened leads to. *)
Definition parse_file (content : string) : option OSPFConfig :=
  match parse_lines (split LF (strip content)) (mkConfig "" [] [] [], None) with
  | None => None
  | Some (config, Some i) =>
      Some (mkConfig (router_id config) (areas config) (networks config)
                     (interfaces config ++ [i]))
  | Some (config, None) => Some config
  end.

(** ** The configuration generator *)

(** [FortigateConfigGenerator.ip_to_netmask]: the [ValueError] of
    [ip_network] is not caught. *)
Definition ip_to_netmask (network : string) : result (string * string) :=
  match ip_network network with
  | None => Raise ValueError
  | Some net =>
      Ok (str_addr (version net) (network_address net),
          str_addr (version net) (netmask net))
  end.

(** The double quote, as a string. *)
Definition dquote : string := String "034"%char EmptyString.

(** The lines of one area. *)
Definition area_lines (area : string) : list string :=
  [("        edit " ++ dquote ++ area ++ dquote)%string;
   "            set type regular";
   "        next"].

(** The loop [for i, network in enumerate(optimized_networks, 1)]. *)
Fixpoint network_lines (area : string) (i : Z) (optimized_networks : list string)
  : result (list string) :=
  match optimized_networks with
  | [] => Ok []
  | network :: rest =>
      im <- ip_to_netmask network ;;
      lines <- network_lines area (i + 1) rest ;;
      Ok ([("        edit " ++ str_int i)%string;
           ("            set prefix " ++ fst im ++ " " ++ snd im)%string;
           ("            set area " ++ area)%string;
           "        next"] ++ lines)
  end.

(** The lines of one interface. *)
Definition interface_lines (i : OSPFInterface) : list string :=
  [("        edit " ++ dquote ++ interface i ++ dquote)%string;
   ("            set interface " ++ dquote ++ interface i ++ dquote)%string;
   ("            set cost " ++ str_Z (cost i))%string;
   ("            set priority " ++ str_Z (priority i))%string;
   (if negb (authentication i =? "none")%string
    then ("            set authentication " ++ authentication i)%string
    else "            set authentication none");
   ("            set passive-interface "
      ++ (if passive i then "enable" else "disable"))%string;
   "        next"].

(** The loop [for i, summary in enumerate(summaries.keys(), 1)]. *)
Fixpoint summary_lines (i : Z) (keys : list string) : result (list string) :=
  match keys with
  | [] => Ok []
  | summary :: rest =>
      im <- ip_to_netmask summary ;;
      lines <- summary_lines (i + 1) rest ;;
      Ok ([("        edit " ++ str_int i)%string;
           ("            set prefix " ++ fst im ++ " " ++ snd im)%string;
           "            set advertise enable";
           "        next"] ++ lines)
  end.

(** [output_lines] of [generate_config], when the function reaches the
    point where it writes the file. *)
Definition output_lines (config : OSPFConfig) : result (list string) :=
  os <- get_optimized_networks (networks config) ;;
  let (optimized_networks, summaries) := os in
  let area := match areas config with
              | a :: _ => a
              | [] => "0.0.0.0"
              end in
  net_lines <- network_lines area 1 optimized_networks ;;
  sum_lines <- match summaries with
               | [] => Ok []
               | _ :: _ =>
                   lines <- summary_lines 1 (map fst summaries) ;;
                   Ok (["    config summary-address"] ++ lines ++ ["    end"])
               end ;;
  Ok (["config router ospf";
       ("    set router-id " ++ router_id config)%string;
       "    config area"]
        ++ flat_map area_lines (areas config)
        ++ ["    end"; "    config network"]
        ++ net_lines
        ++ ["    end"]
        ++ match interfaces config with
           | [] => []
           | _ :: _ =>
               ["    config ospf-interface"]
                 ++ flat_map interface_lines (interfaces config)
                 ++ ["    end"]
           end
        ++ sum_lines
        ++ ["end"]).

(** [FortigateConfigGenerator.generate_config]: the text written to the
    output file, or the exception raised before anything is written.
    Writing the file and printing the report are outside the model. *)
Definition generate_config (config : OSPFConfig) : result string :=
  lines <- output_lines config ;;
  Ok (join (String LF EmptyString) lines).

(** ** Vocabulary of the further properties *)

(** An entry [(summary, originals)] of the mapping, for the parsed input
    [nets]: the texts of a well-formed network and of at least two
    networks of the input, each covered by the first. *)
Definition entry_wf (nets : list IPNetwork) (e : string * list string) : Prop :=
  exists s os,
    e = (str_net s, map str_net os)
    /\ wf_net s
    /\ 2 <= Z.of_nat (List.length os)
    /\ forall o, In o os -> In o nets /\ covers s o.

(** The input holds an IPv4 and an IPv6 network that [ip_network] both
    accepts; the input holds an entry that [ip_network] rejects. *)
Definition mixed_versions (l : list string) : Prop :=
  exists s t n m,
    In s l /\ In t l
    /\ ip_network s = Some n /\ ip_network t = Some m
    /\ version n <> version m.

Definition has_malformed (l : list string) : Prop :=
  exists s, In s l /\ ip_network s = None.

(** The order of the key [(x.network_address, x.prefixlen)]. *)
Definition key_le (a b : IPNetwork) : Prop :=
  network_address a < network_address b
  \/ (network_address a = network_address b /\ prefixlen a <= prefixlen b).

(** The nesting of the blocks of a generated configuration: [config]
    opens a block that [end] closes, [edit] opens, inside a [config]
    block, an entry that [next] closes, and a [set] line stands inside a
    block or an entry. *)
Inductive block : Type :=
| BConfig
| BEdit.

Definition nest_step (stack : option (list block)) (line : string)
  : option (list block) :=
  match stack with
  | None => None
  | Some st =>
      let s := lstrip line in
      if startswith s "config " then Some (BConfig :: st)
      else if (s =? "end")%string then
             match st with
             | BConfig :: r => Some r
             | _ => None
             end
      else if startswith s "edit " then
             match st with
             | BConfig :: _ => Some (BEdit :: st)
             | _ => None
             end
      else if (s =? "next")%string then
             match st with
             | BEdit :: r => Some r
             | _ => None
             end
      else if startswith s "set " then
             match st with
             | [] => None
             | _ :: _ => Some st
             end
      else None
  end.

Definition well_nested (lines : list string) : bool :=
  match fold_left nest_step lines (Some []) with
  | Some [] => true
  | _ => false
  end.

(** A line that opens an interface section, the name it gives, and a
    [Cost:] line whose value [int] rejects. *)
Definition name_line (line : string) : bool := startswith (strip line) "Name:".

Definition name_of (line : string) : string :=
  match value_of (strip line) with
  | Some v => v
  | None => EmptyString
  end.

Definition bad_cost_line (line : string) : bool :=
  startswith (strip line) "Cost:"
  && match value_of (strip line) with
     | Some v => negb (is_some (py_int v))
     | None => true
     end.

(** The interface section that is open, as a list. *)
Definition pending (current_interface : option OSPFInterface) : list OSPFInterface :=
  match current_interface with
  | Some i => [i]
  | None => []
  end.

(** The lines that set the router id and the areas. *)
Definition router_line (line : string) : bool :=
  startswith (strip line) "OSPF Router ID:".

Definition areas_line (line : string) : bool := startswith (strip line) "Areas:".

Definition areas_of (line : string) : list string :=
  map strip (split "," (name_of line)).

(** The two halves of a network: [list(s.subnets())]. *)
Definition lower_half (s : IPNetwork) : IPNetwork :=
  mkNet (version s) (network_address s) (prefixlen s + 1).

Definition upper_half (s : IPNetwork) : IPNetwork :=
  mkNet (version s)
        (network_address s + 2 ^ (_max_prefixlen (version s) - prefixlen s - 1))
        (prefixlen s + 1).

(** Every address of [n] belongs to a network of [l] of the version of
    [n]: [n] adds no address to [l]. *)
Definition within (l : list IPNetwork) (n : IPNetwork) : Prop :=
  forall a, has_address n a ->
            exists o, In o l /\ version o = version n /\ has_address o a.

(** The string holds no ['%'], the character that introduces an IPv6 zone
    identifier.  On such strings [ip_network] is that of every CPython
    version; strings with a zone identifier are outside this model (see
    the conventions at the head of the file). *)
Definition no_zone_id (s : string) : bool := negb (contains "%" s).

(** The network is one that [ip_network] builds from a string without
    zone identifier. *)
Definition zone_free (n : IPNetwork) : Prop :=
  exists t, no_zone_id t = true /\ ip_network t = Some n.


(** * Properties *)

(** ** Checking a property on a range of integers by computation *)

Lemma In_Z_range lo n x : lo <= x < lo + Z.of_nat n -> In x (Z_range lo n).
Proof.
  intros H. unfold Z_range. apply in_map_iff.
  exists (Z.to_nat (x - lo)). split; [lia|].
  apply in_seq. lia.
Qed.

Lemma Z_range_forallb (f : Z -> bool) lo n :
  forallb f (Z_range lo n) = true ->
  forall x, lo <= x < lo + Z.of_nat n -> f x = true.
Proof.
  intros H x Hx. rewrite forallb_forall in H. apply H, In_Z_range, Hx.
Qed.

(** ** Masks *)

Lemma max_prefixlen_pos v : 0 < _max_prefixlen v.
Proof. destruct v; reflexivity. Qed.

Lemma ip_int_from_prefix_closed v p :
  0 <= p <= _max_prefixlen v ->
  _ip_int_from_prefix v p = 2 ^ _max_prefixlen v - 2 ^ (_max_prefixlen v - p).
Proof.
  intros Hp.
  apply Z.eqb_eq.
  destruct v;
    [ apply (Z_range_forallb
               (fun p => _ip_int_from_prefix V4 p =? 2 ^ 32 - 2 ^ (32 - p)) 0 33)
    | apply (Z_range_forallb
               (fun p => _ip_int_from_prefix V6 p =? 2 ^ 128 - 2 ^ (128 - p)) 0 129) ];
    try (vm_compute; reflexivity); simpl in *; lia.
Qed.

Lemma hostmask_closed_prefix v p :
  0 <= p <= _max_prefixlen v ->
  Z.lxor (_ip_int_from_prefix v p) (_ALL_ONES v) = 2 ^ (_max_prefixlen v - p) - 1.
Proof.
  intros Hp.
  apply Z.eqb_eq.
  destruct v;
    [ apply (Z_range_forallb
               (fun p => Z.lxor (_ip_int_from_prefix V4 p) (_ALL_ONES V4)
                         =? 2 ^ (32 - p) - 1) 0 33)
    | apply (Z_range_forallb
               (fun p => Z.lxor (_ip_int_from_prefix V6 p) (_ALL_ONES V6)
                         =? 2 ^ (128 - p) - 1) 0 129) ];
    try (vm_compute; reflexivity); simpl in *; lia.
Qed.

Lemma pow2_pos n : 0 < 2 ^ n \/ (n < 0 /\ 2 ^ n = 0).
Proof.
  destruct (Z.le_gt_cases 0 n).
  - left. apply Z.pow_pos_nonneg; lia.
  - right. split; [lia|]. apply Z.pow_neg_r; lia.
Qed.

Lemma pow2_split N m : 0 <= m <= N -> 2 ^ N = 2 ^ m * 2 ^ (N - m).
Proof. intros. rewrite <- Z.pow_add_r by lia. f_equal; lia. Qed.

(** Masking with the high bits [m..N-1] clears the low [m] bits. *)
Lemma land_high_mask a N m :
  0 <= m <= N -> 0 <= a < 2 ^ N ->
  Z.land a (2 ^ N - 2 ^ m) = a - a mod 2 ^ m.
Proof.
  intros Hm Ha.
  set (X := 2 ^ N - 2 ^ m).
  assert (Hpm : 0 < 2 ^ m) by (apply Z.pow_pos_nonneg; lia).
  assert (HX0 : Z.land X (Z.ones m) = 0).
  { rewrite Z.land_ones by lia. unfold X.
    rewrite (pow2_split N m) by lia.
    replace (2 ^ m * 2 ^ (N - m) - 2 ^ m) with ((2 ^ (N - m) - 1) * 2 ^ m) by ring.
    apply Z.mod_mul. lia. }
  assert (HXo : Z.lor X (Z.ones m) = Z.ones N).
  { pose proof (Z.add_lor_land X (Z.ones m)) as E. rewrite HX0 in E.
    rewrite Z.add_0_r in E. rewrite E. unfold X. rewrite !Z.ones_equiv. lia. }
  assert (E1 : a = Z.land a (Z.ones N)).
  { rewrite Z.land_ones by lia. symmetry. apply Z.mod_small. lia. }
  rewrite <- HXo in E1. rewrite Z.land_lor_distr_r in E1.
  pose proof (Z.add_lor_land (Z.land a X) (Z.land a (Z.ones m))) as E2.
  assert (E3 : Z.land (Z.land a X) (Z.land a (Z.ones m)) = 0).
  { rewrite Z.land_assoc. rewrite <- (Z.land_assoc a X a).
    rewrite (Z.land_comm X a). rewrite Z.land_assoc. rewrite Z.land_diag.
    rewrite <- Z.land_assoc. rewrite HX0. apply Z.land_0_r. }
  rewrite E3, Z.add_0_r, <- E1 in E2.
  rewrite (Z.land_ones a m) in E2 by lia. lia.
Qed.

(** ** Well-formed networks *)

Lemma hostmask_closed n :
  0 <= prefixlen n <= _max_prefixlen (version n) ->
  hostmask n = 2 ^ (_max_prefixlen (version n) - prefixlen n) - 1.
Proof. intros. unfold hostmask, netmask. now apply hostmask_closed_prefix. Qed.

Lemma broadcast_closed n :
  wf_net n ->
  broadcast_address n
  = network_address n + 2 ^ (_max_prefixlen (version n) - prefixlen n) - 1.
Proof.
  intros (Hp & Ha & Hm). unfold broadcast_address.
  rewrite hostmask_closed by assumption.
  set (h := _max_prefixlen (version n) - prefixlen n) in *.
  pose proof (Z.add_lor_land (network_address n) (2 ^ h - 1)) as E.
  replace (2 ^ h - 1) with (Z.ones h) in * by (rewrite Z.ones_equiv; lia).
  rewrite Z.land_ones in E by lia. rewrite Hm in E.
  pose proof (Z.ones_equiv h). lia.
Qed.

Lemma num_addresses_closed n :
  wf_net n -> num_addresses n = 2 ^ (_max_prefixlen (version n) - prefixlen n).
Proof. intros H. unfold num_addresses. rewrite broadcast_closed by assumption. lia. Qed.

Lemma num_addresses_pos n : wf_net n -> 0 < num_addresses n.
Proof.
  intros H. rewrite num_addresses_closed by assumption.
  destruct H as (Hp & _). apply Z.pow_pos_nonneg; lia.
Qed.

(** ** Networks built by the parser are well formed *)

Lemma bit_length_nonneg n : 0 <= bit_length n.
Proof.
  unfold bit_length. destruct (n <=? 0); [lia|].
  pose proof (Z.log2_nonneg n). lia.
Qed.

Lemma count_righthand_zero_bits_range number bits :
  0 <= bits -> 0 <= _count_righthand_zero_bits number bits <= bits.
Proof.
  intros Hb. unfold _count_righthand_zero_bits.
  destruct (number =? 0); [lia|].
  pose proof (bit_length_nonneg (Z.land (Z.lnot number) (number - 1))). lia.
Qed.

Lemma prefix_from_prefix_string_range v s p :
  _prefix_from_prefix_string v s = Some p -> 0 <= p <= _max_prefixlen v.
Proof.
  unfold _prefix_from_prefix_string.
  destruct (negb (isdigit s)); [discriminate|].
  destruct ((0 <=? int10 s) && (int10 s <=? _max_prefixlen v)) eqn:E; [|discriminate].
  intros [= <-]. apply andb_true_iff in E. lia.
Qed.

Lemma prefix_from_ip_int_range v x p :
  _prefix_from_ip_int v x = Some p -> 0 <= p <= _max_prefixlen v.
Proof.
  unfold _prefix_from_ip_int.
  destruct (negb _); [discriminate|]. intros [= <-].
  pose proof (max_prefixlen_pos v).
  pose proof (count_righthand_zero_bits_range x (_max_prefixlen v)). lia.
Qed.

Lemma make_netmask_range v arg p :
  _make_netmask v arg = Some p -> 0 <= p <= _max_prefixlen v.
Proof.
  pose proof (max_prefixlen_pos v).
  destruct arg as [s|]; simpl; [|intros [= <-]; lia].
  destruct v.
  - destruct (_prefix_from_prefix_string V4 s) eqn:E1.
    + intros [= <-]. eapply prefix_from_prefix_string_range; eauto.
    + unfold _prefix_from_ip_string.
      destruct (_ip_int_from_string V4 s); [|discriminate].
      destruct (_prefix_from_ip_int V4 z) eqn:E2.
      * intros [= <-]. eapply prefix_from_ip_int_range; eauto.
      * apply prefix_from_ip_int_range.
  - apply prefix_from_prefix_string_range.
Qed.

Lemma masked_address_wf v packed p :
  0 <= p <= _max_prefixlen v ->
  wf_net (mkNet v (Z.land packed (_ip_int_from_prefix v p)) p).
Proof.
  intros Hp. unfold wf_net; simpl.
  rewrite ip_int_from_prefix_closed by assumption.
  set (w := _max_prefixlen v) in *. set (h := w - p).
  set (nm := 2 ^ w - 2 ^ h).
  assert (Hh : 0 < 2 ^ h) by (apply Z.pow_pos_nonneg; lia).
  assert (Hw : 0 < 2 ^ w) by (apply Z.pow_pos_nonneg; lia).
  assert (Hnm : 0 <= nm < 2 ^ w).
  { unfold nm. split; [|lia].
    assert (2 ^ h <= 2 ^ w) by (apply Z.pow_le_mono_r; lia). lia. }
  split; [assumption|]. split.
  - assert (E : Z.land (Z.land packed nm) (Z.ones w) = Z.land packed nm).
    { rewrite <- Z.land_assoc. f_equal. rewrite Z.land_ones by lia.
      apply Z.mod_small; assumption. }
    rewrite Z.land_ones in E by lia. rewrite <- E.
    apply Z.mod_pos_bound; assumption.
  - rewrite <- Z.land_ones by lia. rewrite <- Z.land_assoc.
    replace (Z.land nm (Z.ones h)) with 0; [apply Z.land_0_r|].
    rewrite Z.land_ones by lia. unfold nm.
    rewrite (pow2_split w h) by lia.
    replace (2 ^ h * 2 ^ (w - h) - 2 ^ h) with ((2 ^ (w - h) - 1) * 2 ^ h) by ring.
    symmetry. apply Z.mod_mul. lia.
Qed.

Lemma Network_init_wf v s n : Network_init v s = Some n -> wf_net n.
Proof.
  unfold Network_init.
  destruct (_split_addr_prefix s) as [[addr mask]|]; [|discriminate].
  destruct (_ip_int_from_string v addr) as [packed|]; [|discriminate].
  destruct (_make_netmask v mask) as [p|] eqn:Ep; [|discriminate].
  apply make_netmask_range in Ep.
  destruct (negb (Z.land packed (_ip_int_from_prefix v p) =? packed)) eqn:E.
  - intros [= <-]. now apply masked_address_wf.
  - intros [= <-]. apply negb_false_iff, Z.eqb_eq in E.
    rewrite <- E. now apply masked_address_wf.
Qed.

Lemma Network_init_version v s n : Network_init v s = Some n -> version n = v.
Proof.
  unfold Network_init.
  destruct (_split_addr_prefix s) as [[addr mask]|]; [|discriminate].
  destruct (_ip_int_from_string v addr) as [packed|]; [|discriminate].
  destruct (_make_netmask v mask) as [p|]; [|discriminate].
  destruct (negb _); intros [= <-]; reflexivity.
Qed.

Lemma ip_network_wf s n : ip_network s = Some n -> wf_net n.
Proof.
  unfold ip_network. destruct (Network_init V4 s) eqn:E.
  - intros [= <-]. eapply Network_init_wf; eauto.
  - apply Network_init_wf.
Qed.

(** ** Coverage *)

Lemma covers_refl n : covers n n.
Proof. unfold covers. repeat split; lia. Qed.

Lemma covers_trans a b c : covers a b -> covers b c -> covers a c.
Proof. unfold covers. intros (?&?&?) (?&?&?). repeat split; try congruence; lia. Qed.

Lemma covers_has_address s o a : covers s o -> has_address o a -> has_address s a.
Proof. unfold covers, has_address. intros (?&?&?) (?&?). lia. Qed.

Lemma covered_by_incl l l' n :
  (forall x, In x l -> In x l') -> covered_by l n -> covered_by l' n.
Proof. intros H (s & Hs & Hc). exists s. auto. Qed.

(** ** Supernets *)

Lemma supernet_version n : version (supernet n) = version n.
Proof. unfold supernet. destruct (prefixlen n =? 0); reflexivity. Qed.

Lemma supernet_address n :
  wf_net n -> 0 < prefixlen n ->
  network_address (supernet n)
  = network_address n
    - network_address n mod 2 ^ (_max_prefixlen (version n) - prefixlen n + 1).
Proof.
  intros (Hp & Ha & Hm) Hpos. unfold supernet.
  destruct (prefixlen n =? 0) eqn:E; [apply Z.eqb_eq in E; lia|].
  cbn [network_address]. unfold netmask. rewrite ip_int_from_prefix_closed by assumption.
  rewrite Z.shiftl_mul_pow2 by lia.
  set (w := _max_prefixlen (version n)) in *. set (h := w - prefixlen n) in *.
  replace ((2 ^ w - 2 ^ h) * 2 ^ 1) with (2 ^ (w + 1) - 2 ^ (h + 1))
    by (rewrite !Z.pow_add_r by lia; ring).
  apply land_high_mask; [lia|].
  rewrite Z.pow_add_r by lia. lia.
Qed.

Lemma mod_double a h :
  0 <= h -> a mod 2 ^ h = 0 ->
  a mod 2 ^ (h + 1) = 0 \/ a mod 2 ^ (h + 1) = 2 ^ h.
Proof.
  intros Hh Hm.
  assert (Hp : 0 < 2 ^ h) by (apply Z.pow_pos_nonneg; lia).
  apply Z.mod_divide in Hm; [|lia]. destruct Hm as [q ->].
  rewrite Z.pow_add_r by lia. rewrite (Z.mul_comm q), Z.mul_mod_distr_l by lia.
  change (2 ^ 1) with 2.
  pose proof (Z.mod_pos_bound q 2). assert (q mod 2 = 0 \/ q mod 2 = 1) as [-> | ->] by lia; lia.
Qed.

Lemma supernet_wf n : wf_net n -> wf_net (supernet n).
Proof.
  intros H. destruct (Z.eq_dec (prefixlen n) 0) as [E|E].
  - unfold supernet. rewrite (proj2 (Z.eqb_eq _ _) E). assumption.
  - pose proof H as (Hp & Ha & Hm).
    assert (Hpos : 0 < prefixlen n) by lia.
    pose proof (supernet_address n H Hpos) as EA.
    unfold wf_net. rewrite supernet_version.
    assert (EP : prefixlen (supernet n) = prefixlen n - 1).
    { unfold supernet. destruct (prefixlen n =? 0) eqn:E'; [apply Z.eqb_eq in E'; lia|reflexivity]. }
    rewrite EP, EA.
    set (w := _max_prefixlen (version n)) in *. set (a := network_address n) in *.
    replace (w - (prefixlen n - 1)) with (w - prefixlen n + 1) by lia.
    set (h := w - prefixlen n) in *.
    assert (Hp2 : 0 < 2 ^ (h + 1)) by (apply Z.pow_pos_nonneg; lia).
    pose proof (Z.mod_pos_bound a (2 ^ (h + 1)) Hp2).
    split; [lia|]. split.
    + pose proof (Z.mod_le a (2 ^ (h + 1))). lia.
    + rewrite Zminus_mod_idemp_r. rewrite Z.sub_diag. apply Z.mod_0_l. lia.
Qed.

Lemma supernet_prefixlen n :
  prefixlen (supernet n) = if prefixlen n =? 0 then prefixlen n else prefixlen n - 1.
Proof. unfold supernet. destruct (prefixlen n =? 0); reflexivity. Qed.

Lemma supernet_covers n : wf_net n -> covers (supernet n) n.
Proof.
  intros H. destruct (Z.eq_dec (prefixlen n) 0) as [E|E].
  - unfold supernet. rewrite (proj2 (Z.eqb_eq _ _) E). apply covers_refl.
  - pose proof H as (Hp & Ha & Hm).
    assert (Hpos : 0 < prefixlen n) by lia.
    pose proof (supernet_wf n H) as Hs.
    unfold covers. rewrite supernet_version. split; [reflexivity|].
    rewrite (broadcast_closed n H), (broadcast_closed _ Hs).
    rewrite supernet_version, supernet_prefixlen.
    destruct (prefixlen n =? 0) eqn:E'; [apply Z.eqb_eq in E'; lia|].
    rewrite (supernet_address n H Hpos).
    set (w := _max_prefixlen (version n)) in *. set (a := network_address n) in *.
    replace (w - (prefixlen n - 1)) with (w - prefixlen n + 1) by lia.
    set (h := w - prefixlen n) in *.
    assert (Hh : 0 < 2 ^ h) by (apply Z.pow_pos_nonneg; lia).
    assert (E2 : 2 ^ (h + 1) = 2 * 2 ^ h) by (rewrite Z.pow_add_r by lia; change (2 ^ 1) with 2; ring).
    destruct (mod_double a h ltac:(lia) Hm) as [Em | Em]; rewrite Em; lia.
Qed.

(** ** Equality of networks *)

Lemma ipver_eqb_eq a b : ipver_eqb a b = true <-> a = b.
Proof. destruct a, b; simpl; split; congruence. Qed.

Lemma net_eqb_eq a b : net_eqb a b = true <-> a = b.
Proof.
  unfold net_eqb. rewrite !andb_true_iff, ipver_eqb_eq, !Z.eqb_eq.
  destruct a, b; simpl. split.
  - intros [[-> ->] ->]. reflexivity.
  - intros [= -> -> ->]. auto.
Qed.

Lemma net_eqb_refl a : net_eqb a a = true.
Proof. now apply net_eqb_eq. Qed.

(** ** Dictionaries *)

Section DictFacts.
Context {K V : Type} (eqb : K -> K -> bool).
Hypothesis eqb_eq : forall a b, eqb a b = true <-> a = b.

Lemma dict_get_In k v (d : list (K * V)) : dict_get eqb k d = Some v -> In (k, v) d.
Proof.
  induction d as [|[k' v'] r IH]; simpl; [discriminate|].
  destruct (eqb k' k) eqn:E.
  - intros [= ->]. apply eqb_eq in E. subst. now left.
  - intros H. right. auto.
Qed.

Lemma dict_set_new k v (d : list (K * V)) :
  dict_get eqb k d = None -> dict_set eqb k v d = d ++ [(k, v)].
Proof.
  induction d as [|[k' v'] r IH]; simpl; [reflexivity|].
  destruct (eqb k' k); [discriminate|]. intros H. now rewrite IH.
Qed.

Lemma dict_set_In k v (d : list (K * V)) e :
  In e (dict_set eqb k v d) -> e = (k, v) \/ In e d.
Proof.
  induction d as [|[k' v'] r IH]; simpl.
  - intros [<-|[]]. now left.
  - destruct (eqb k' k) eqn:E; simpl.
    + apply eqb_eq in E. subst. intros [<-|H]; auto.
    + intros [<-|H]; auto. destruct (IH H); auto.
Qed.

Lemma dict_del_In k (d : list (K * V)) e : In e (dict_del eqb k d) -> In e d.
Proof.
  induction d as [|[k' v'] r IH]; simpl; [tauto|].
  destruct (eqb k' k); simpl; [auto|]. intros [<-|H]; auto.
Qed.

Lemma dict_del_keeps k (d : list (K * V)) k' v' :
  In (k', v') d -> In (k', v') (dict_del eqb k d) \/ k' = k.
Proof.
  induction d as [|[k1 v1] r IH]; simpl; [tauto|].
  destruct (eqb k1 k) eqn:E.
  - apply eqb_eq in E. subst. intros [[= <- <-]|H]; auto.
  - simpl. intros [[= <- <-]|H]; auto. destruct (IH H); auto.
Qed.

Lemma dict_del_length k v (d : list (K * V)) :
  dict_get eqb k d = Some v -> S (List.length (dict_del eqb k d)) = List.length d.
Proof.
  induction d as [|[k1 v1] r IH]; simpl; [discriminate|].
  destruct (eqb k1 k); simpl; [reflexivity|]. intros H. now rewrite IH.
Qed.
End DictFacts.

(** ** The merging loop covers its input *)

Lemma merge_weight_nonneg l : Forall wf_net l -> 0 <= merge_weight l.
Proof.
  induction 1 as [|n l Hn _ IH]; simpl; [lia|].
  destruct Hn as ((? & ?) & _). lia.
Qed.

Lemma merge_loop_covers fuel : forall to_merge subnets x,
  Forall wf_net to_merge -> subnets_ok subnets ->
  2 * merge_weight to_merge + Z.of_nat (List.length subnets) < Z.of_nat fuel ->
  covered_by (to_merge ++ map snd subnets) x ->
  covered_by (map snd (merge_loop fuel to_merge subnets)) x
  /\ subnets_ok (merge_loop fuel to_merge subnets).
Proof.
  induction fuel as [|f IH]; intros tm sn x Htm Hsn Hfuel Hc.
  - pose proof (merge_weight_nonneg tm Htm). lia.
  - destruct tm as [|net rest]; simpl.
    + split; assumption.
    + inversion Htm as [|? ? Hnet Hrest]; subst.
      pose proof (merge_weight_nonneg rest Hrest) as Hw.
      pose proof Hnet as ((Hp0 & Hp1) & _).
      change (merge_weight (net :: rest))
        with (prefixlen net + 1 + merge_weight rest) in Hfuel.
      destruct (dict_get net_eqb (supernet net) sn) as [existing|] eqn:G.
      * pose proof (dict_get_In net_eqb net_eqb_eq _ _ _ G) as Hin.
        destruct (net_eqb existing net) eqn:E; simpl.
        -- apply net_eqb_eq in E. subst existing.
           apply IH; auto; [lia|].
           destruct Hc as (s & [<-|Hs] & Hcov).
           ++ exists net. split; [|assumption]. apply in_or_app. right.
              apply in_map_iff. exists (supernet net, net). auto.
           ++ exists s. auto.
        -- apply IH.
           ++ constructor; [now apply supernet_wf|assumption].
           ++ unfold subnets_ok in *. rewrite Forall_forall in *.
              intros e He. apply Hsn. eapply dict_del_In; eauto.
           ++ pose proof (dict_del_length net_eqb (supernet net) existing sn G).
              change (merge_weight (supernet net :: rest))
                with (prefixlen (supernet net) + 1 + merge_weight rest).
              rewrite supernet_prefixlen.
              destruct (prefixlen net =? 0); lia.
           ++ destruct Hc as (s & Hs & Hcov). simpl in Hs.
              destruct Hs as [<-|Hs].
              { exists (supernet net). split; [now left|].
                eapply covers_trans; [apply supernet_covers; assumption|assumption]. }
              apply in_app_or in Hs. destruct Hs as [Hs|Hs].
              { exists s. split; [right; apply in_or_app; now left|assumption]. }
              apply in_map_iff in Hs. destruct Hs as ([k v] & <- & Hkv).
              destruct (dict_del_keeps net_eqb net_eqb_eq (supernet net) sn k v Hkv)
                as [Hk|Hk].
              { exists v. split; [|assumption]. right. apply in_or_app. right.
                apply in_map_iff. exists (k, v). auto. }
              { unfold subnets_ok in Hsn. rewrite Forall_forall in Hsn.
                destruct (Hsn _ Hkv) as (Hwv & Hkey). simpl in *.
                exists (supernet net). split; [now left|].
                rewrite <- Hk, Hkey.
                eapply covers_trans; [apply supernet_covers; assumption|assumption]. }
      * rewrite (dict_set_new net_eqb _ _ _ G).
        apply IH; auto.
        -- unfold subnets_ok. apply Forall_app. split; [assumption|].
           constructor; [|constructor]. simpl. auto.
        -- rewrite length_app, Nat2Z.inj_add. cbn [List.length]. lia.
        -- destruct Hc as (s & Hs & Hcov). exists s. split; [|assumption].
           rewrite map_app. simpl. simpl in Hs.
           destruct Hs as [<-|Hs].
           ++ apply in_or_app. right. apply in_or_app. right. now left.
           ++ apply in_app_or in Hs. apply in_or_app.
              destruct Hs; [now left|]. right. apply in_or_app. now left.
Qed.

(** ** Sorting *)

Section SortFacts.
Context {A : Type} (lt : A -> A -> bool).

Lemma insert_sorted_perm x l : Permutation (insert_sorted lt x l) (x :: l).
Proof.
  induction l as [|y r IH]; simpl; [reflexivity|].
  destruct (lt y x); [|reflexivity].
  rewrite IH. apply perm_swap.
Qed.

Lemma stable_sort_perm l : Permutation (stable_sort lt l) l.
Proof.
  induction l as [|x r IH]; simpl; [reflexivity|].
  rewrite insert_sorted_perm. now constructor.
Qed.

Lemma stable_sort_In l x : In x (stable_sort lt l) <-> In x l.
Proof.
  split; apply Permutation_in; [|symmetry]; apply stable_sort_perm.
Qed.

Lemma stable_sort_length l : List.length (stable_sort lt l) = List.length l.
Proof. apply Permutation_length, stable_sort_perm. Qed.

Variable R : A -> A -> Prop.
Hypothesis R_trans : forall a b c, R a b -> R b c -> R a c.
Hypothesis lt_R : forall x y, lt y x = true -> R y x.
Hypothesis not_lt_R : forall x y, lt y x = false -> R x y.

Lemma insert_sorted_sorted x l :
  StronglySorted R l -> StronglySorted R (insert_sorted lt x l).
Proof.
  induction 1 as [|y r Hr IH Hy]; simpl.
  - repeat constructor.
  - destruct (lt y x) eqn:E.
    + constructor; [assumption|].
      rewrite Forall_forall. intros z Hz.
      apply (Permutation_in _ (insert_sorted_perm x r)) in Hz.
      destruct Hz as [<-|Hz]; [now apply lt_R|].
      rewrite Forall_forall in Hy. auto.
    + constructor; [now constructor|].
      constructor; [now apply not_lt_R|].
      rewrite Forall_forall in *. intros z Hz.
      eapply R_trans; [apply not_lt_R; eassumption|auto].
Qed.

Lemma stable_sort_sorted l : StronglySorted R (stable_sort lt l).
Proof.
  induction l as [|x r IH]; simpl; [constructor|].
  now apply insert_sorted_sorted.
Qed.
End SortFacts.

Lemma net_lt_sorted l : StronglySorted addr_le (stable_sort net_lt l).
Proof.
  apply stable_sort_sorted; unfold addr_le, net_lt.
  - intros; lia.
  - intros x y. destruct (negb (network_address y =? network_address x)) eqn:E.
    + intros H. apply Z.ltb_lt in H. lia.
    + apply negb_false_iff, Z.eqb_eq in E. lia.
  - intros x y. destruct (negb (network_address y =? network_address x)) eqn:E.
    + intros H. apply Z.ltb_ge in H. lia.
    + apply negb_false_iff, Z.eqb_eq in E. lia.
Qed.

Lemma same_version_spec l :
  same_version l = true -> forall a b, In a l -> In b l -> version a = version b.
Proof.
  destruct l as [|x r]; simpl; [tauto|].
  rewrite forallb_forall. intros H a b Ha Hb.
  assert (Hx : forall y, In y (x :: r) -> version y = version x).
  { intros y [<-|Hy]; [reflexivity|]. now apply ipver_eqb_eq, H. }
  rewrite (Hx a Ha), (Hx b Hb). reflexivity.
Qed.

Lemma sorted_nets_Ok lt l s :
  sorted_nets lt l = Ok s -> same_version l = true /\ s = stable_sort lt l.
Proof.
  unfold sorted_nets. destruct (same_version l); [|discriminate].
  intros [= <-]. auto.
Qed.

(** ** Skipping subsumed networks keeps coverage *)

Lemma skip_subsumed_covers l : forall last,
  StronglySorted addr_le l ->
  (forall la, last = Some la ->
     Forall (addr_le la) l /\ Forall (fun y => version la = version y) l) ->
  (forall a b, In a l -> In b l -> version a = version b) ->
  forall x, In x l ->
  exists s, (In s (skip_subsumed last l) \/ last = Some s) /\ covers s x.
Proof.
  induction l as [|net r IH]; intros last Hs Hl Hv x Hx; [destruct Hx|].
  inversion Hs as [|? ? Hsr Hnr]; subst.
  assert (Hstep : forall x, In x r ->
            exists s, (In s (skip_subsumed (Some net) r) \/ Some net = Some s)
                      /\ covers s x).
  { apply IH; auto.
    - intros la [= <-]. split; [assumption|].
      rewrite Forall_forall. intros y Hy. apply Hv; simpl; auto.
    - intros a b Ha Hb. apply Hv; simpl; auto. }
  simpl. destruct last as [la|].
  - destruct (Hl la eq_refl) as (Hla & Hlv).
    inversion Hla as [|? ? Hla1 Hla2]; subst.
    inversion Hlv as [|? ? Hlv1 Hlv2]; subst.
    destruct (broadcast_address net <=? broadcast_address la) eqn:E.
    + apply Z.leb_le in E. destruct Hx as [<-|Hx].
      * exists la. split; [now right|]. unfold covers, addr_le in *. auto.
      * apply IH; auto.
        -- intros la' [= <-]. auto.
        -- intros a b Ha Hb. apply Hv; simpl; auto.
    + destruct Hx as [<-|Hx].
      * exists net. split; [left; now left|apply covers_refl].
      * destruct (Hstep x Hx) as (s & [Hin|[= <-]] & Hc).
        -- exists s. split; [left; now right|assumption].
        -- exists net. split; [left; now left|assumption].
  - destruct Hx as [<-|Hx].
    + exists net. split; [left; now left|apply covers_refl].
    + destruct (Hstep x Hx) as (s & [Hin|[= <-]] & Hc).
      * exists s. split; [left; now right|assumption].
      * exists net. split; [left; now left|assumption].
Qed.

Lemma collapse_internal_covers addresses out x :
  Forall wf_net addresses ->
  _collapse_addresses_internal addresses = Ok out ->
  covered_by addresses x -> covered_by out x.
Proof.
  intros Hwf H Hc. unfold _collapse_addresses_internal in H.
  set (sn := merge_loop (merge_fuel addresses) (rev addresses) []) in *.
  destruct (sorted_nets net_lt (map snd sn)) as [sorted|] eqn:ES; [|discriminate].
  simpl in H. injection H as <-.
  apply sorted_nets_Ok in ES. destruct ES as (Hsv & ->).
  assert (Hrev : Forall wf_net (rev addresses)).
  { rewrite Forall_forall in *. intros y Hy. apply Hwf. now apply in_rev. }
  assert (Hw : merge_weight (rev addresses) = merge_weight addresses).
  { clear. unfold merge_weight. induction addresses as [|a l IH]; simpl; [reflexivity|].
    rewrite fold_right_app. simpl. rewrite <- IH.
    generalize (rev l). intros l'. induction l' as [|b l' IH']; simpl; lia. }
  destruct (merge_loop_covers (merge_fuel addresses) (rev addresses) [] x) as (Hm & _).
  - assumption.
  - constructor.
  - rewrite Hw. unfold merge_fuel. fold (merge_weight addresses).
    pose proof (merge_weight_nonneg addresses Hwf). simpl List.length. lia.
  - rewrite app_nil_r. eapply covered_by_incl; [|eassumption].
    intros y Hy. now apply -> in_rev.
  - fold sn in Hm. destruct Hm as (s & Hs & Hcs).
    destruct (skip_subsumed_covers (stable_sort net_lt (map snd sn)) None) with (x := s)
      as (s' & [Hin|Hno] & Hc').
    + apply net_lt_sorted.
    + discriminate.
    + intros a b Ha Hb. apply (same_version_spec _ Hsv); now apply (stable_sort_In net_lt).
    + now apply stable_sort_In.
    + exists s'. split; [assumption|]. eapply covers_trans; eassumption.
    + discriminate.
Qed.

(** ** Trailing zero bits *)

Lemma land_odd_odd a b : Z.land (2 * a + 1) (2 * b + 1) = 2 * Z.land a b + 1.
Proof.
  apply Z.bits_inj'. intros i Hi. rewrite Z.land_spec.
  destruct (Z.eq_dec i 0) as [->|Hne].
  - now rewrite !Z.testbit_odd_0.
  - replace i with (Z.succ (i - 1)) by lia.
    rewrite !Z.testbit_odd_succ by lia. now rewrite Z.land_spec.
Qed.

Lemma land_even_even a b : Z.land (2 * a) (2 * b) = 2 * Z.land a b.
Proof.
  apply Z.bits_inj'. intros i Hi. rewrite Z.land_spec.
  destruct (Z.eq_dec i 0) as [->|Hne].
  - now rewrite !Z.testbit_even_0.
  - replace i with (Z.succ (i - 1)) by lia.
    rewrite !Z.testbit_even_succ by lia. now rewrite Z.land_spec.
Qed.

Lemma trailing_ones_mask (p : positive) :
  exists k, 0 <= k
            /\ Z.land (Z.lnot (Z.pos p)) (Z.pos p - 1) = 2 ^ k - 1
            /\ Z.pos p mod 2 ^ k = 0.
Proof.
  induction p as [p IH|p IH|].
  - exists 0. split; [lia|]. split; [|apply Z.mod_1_r].
    rewrite Pos2Z.inj_xI.
    replace (Z.lnot (2 * Z.pos p + 1)) with (2 * Z.lnot (Z.pos p)) by (unfold Z.lnot; lia).
    replace (2 * Z.pos p + 1 - 1) with (2 * Z.pos p) by lia.
    rewrite land_even_even, Z.land_comm, Z.land_lnot_diag. reflexivity.
  - destruct IH as (k & Hk & El & Em). exists (k + 1). split; [lia|].
    rewrite Pos2Z.inj_xO.
    replace (Z.lnot (2 * Z.pos p)) with (2 * Z.lnot (Z.pos p) + 1) by (unfold Z.lnot; lia).
    replace (2 * Z.pos p - 1) with (2 * (Z.pos p - 1) + 1) by lia.
    rewrite land_odd_odd, El, Z.pow_add_r by lia. change (2 ^ 1) with 2.
    split; [lia|].
    rewrite (Z.mul_comm (2 ^ k) 2), Z.mul_mod_distr_l; [lia|lia|].
    assert (0 < 2 ^ k) by (apply Z.pow_pos_nonneg; lia). lia.
  - exists 0. split; [lia|]. split; reflexivity.
Qed.

Lemma bit_length_pred_pow2 k : 0 <= k -> bit_length (2 ^ k - 1) = k.
Proof.
  intros Hk. unfold bit_length.
  destruct (Z.eq_dec k 0) as [->|Hne]; [reflexivity|].
  assert (1 < 2 ^ k) by (apply Z.pow_gt_1; lia).
  destruct (2 ^ k - 1 <=? 0) eqn:E; [apply Z.leb_le in E; lia|].
  assert (E2 : 2 ^ k = 2 * 2 ^ (k - 1)).
  { replace k with (k - 1 + 1) at 1 by lia. rewrite Z.pow_add_r by lia.
    change (2 ^ 1) with 2. ring. }
  assert (0 < 2 ^ (k - 1)) by (apply Z.pow_pos_nonneg; lia).
  assert (EL : Z.log2 (2 ^ k - 1) = k - 1).
  { apply Z.log2_unique; [lia|]. unfold Z.succ.
    replace (k - 1 + 1) with k by lia. lia. }
  lia.
Qed.

Lemma mod_pow2_le a j k : 0 <= j <= k -> a mod 2 ^ k = 0 -> a mod 2 ^ j = 0.
Proof.
  intros Hj Hm.
  assert (0 < 2 ^ k) by (apply Z.pow_pos_nonneg; lia).
  assert (0 < 2 ^ j) by (apply Z.pow_pos_nonneg; lia).
  apply Z.mod_divide in Hm; [|lia]. apply Z.mod_divide; [lia|].
  eapply Z.divide_trans; [|exact Hm].
  exists (2 ^ (k - j)). rewrite <- Z.pow_add_r by lia. f_equal. lia.
Qed.

Lemma count_righthand_zero_bits_divides number bits :
  0 <= number -> 0 <= bits ->
  number mod 2 ^ _count_righthand_zero_bits number bits = 0.
Proof.
  intros Hn Hb. unfold _count_righthand_zero_bits.
  destruct (number =? 0) eqn:E.
  - apply Z.eqb_eq in E. subst. apply Z.mod_0_l.
    assert (0 < 2 ^ bits) by (apply Z.pow_pos_nonneg; lia). lia.
  - apply Z.eqb_neq in E. destruct number as [|p|p]; try lia.
    destruct (trailing_ones_mask p) as (k & Hk & El & Em).
    rewrite El, bit_length_pred_pow2 by assumption.
    apply (mod_pow2_le _ _ k); [lia|assumption].
Qed.

Lemma bit_length_pow2_le x : 1 <= x -> 2 ^ (bit_length x - 1) <= x /\ 0 <= bit_length x - 1.
Proof.
  intros Hx. unfold bit_length.
  destruct (x <=? 0) eqn:E; [apply Z.leb_le in E; lia|].
  replace (Z.log2 x + 1 - 1) with (Z.log2 x) by lia.
  pose proof (Z.log2_spec x ltac:(lia)). pose proof (Z.log2_nonneg x). lia.
Qed.

(** ** Summarizing an address range *)

Lemma summarize_step v first_int last_int :
  0 <= first_int -> first_int <= last_int -> last_int <= _ALL_ONES v ->
  let nbits := Z.min (_count_righthand_zero_bits first_int (_max_prefixlen v))
                     (bit_length (last_int - first_int + 1) - 1) in
  let net := mkNet v first_int (_max_prefixlen v - nbits) in
  0 <= nbits
  /\ wf_net net
  /\ broadcast_address net = first_int + 2 ^ nbits - 1
  /\ Z.shiftl 1 nbits = 2 ^ nbits
  /\ first_int + 2 ^ nbits - 1 <= last_int
  /\ 0 < 2 ^ nbits.
Proof.
  intros H0 Hle Hmax nbits net.
  pose proof (max_prefixlen_pos v) as Hw.
  pose proof (count_righthand_zero_bits_range first_int (_max_prefixlen v) ltac:(lia)) as Hc.
  pose proof (bit_length_pow2_le (last_int - first_int + 1) ltac:(lia)) as (Hb1 & Hb2).
  assert (Hn : 0 <= nbits <= _max_prefixlen v) by (unfold nbits; lia).
  assert (Hpn : 0 < 2 ^ nbits) by (apply Z.pow_pos_nonneg; lia).
  assert (Hwf : wf_net net).
  { unfold wf_net, net; simpl. split; [lia|]. split.
    - unfold _ALL_ONES in Hmax. lia.
    - replace (_max_prefixlen v - (_max_prefixlen v - nbits)) with nbits by lia.
      apply (mod_pow2_le _ _ (_count_righthand_zero_bits first_int (_max_prefixlen v)));
        [unfold nbits; lia|].
      apply count_righthand_zero_bits_divides; lia. }
  split; [lia|]. split; [assumption|]. split.
  { rewrite broadcast_closed by assumption. unfold net; simpl. do 2 f_equal. f_equal. lia. }
  split; [rewrite Z.shiftl_mul_pow2 by lia; lia|]. split; [|assumption].
  assert (2 ^ nbits <= 2 ^ (bit_length (last_int - first_int + 1) - 1))
    by (apply Z.pow_le_mono_r; unfold nbits; lia).
  lia.
Qed.

Lemma summarize_loop_wf fuel v : forall first_int last_int,
  0 <= first_int -> last_int <= _ALL_ONES v ->
  Forall (fun n => wf_net n /\ version n = v) (summarize_loop fuel v first_int last_int).
Proof.
  induction fuel as [|f IH]; intros a b Ha Hb; simpl; [constructor|].
  destruct (a <=? b) eqn:E; [|constructor]. apply Z.leb_le in E.
  destruct (summarize_step v a b Ha E Hb) as (Hn & Hwf & Hbc & Hsh & Hle & Hp).
  rewrite Hsh.
  destruct (a + 2 ^ _ - 1 =? _ALL_ONES v).
  - constructor; [auto|constructor].
  - constructor; [auto|]. apply IH; lia.
Qed.

Lemma summarize_loop_covers fuel v : forall first_int last_int a,
  0 <= first_int -> last_int <= _ALL_ONES v ->
  last_int - first_int + 1 <= Z.of_nat fuel ->
  first_int <= a <= last_int ->
  exists net, In net (summarize_loop fuel v first_int last_int)
              /\ network_address net <= a <= broadcast_address net.
Proof.
  induction fuel as [|f IH]; intros x y a Hx Hy Hf Ha; [lia|]. simpl.
  destruct (x <=? y) eqn:E; [|apply Z.leb_gt in E; lia]. apply Z.leb_le in E.
  destruct (summarize_step v x y Hx E Hy) as (Hn & Hwf & Hbc & Hsh & Hle & Hp).
  rewrite Hsh.
  set (nbits := Z.min _ _) in *.
  destruct (Z_le_gt_dec a (x + 2 ^ nbits - 1)) as [Hin|Hout].
  - exists (mkNet v x (_max_prefixlen v - nbits)). split.
    + destruct (x + 2 ^ nbits - 1 =? _ALL_ONES v); now left.
    + rewrite Hbc. simpl. lia.
  - destruct (x + 2 ^ nbits - 1 =? _ALL_ONES v) eqn:Et.
    + apply Z.eqb_eq in Et. lia.
    + destruct (IH (x + 2 ^ nbits) y a) as (net & Hnet & Hr); try lia.
      exists net. split; [now right|assumption].
Qed.

(** ** Runs of consecutive addresses *)

Lemma find_address_range_from_spec (P : Z -> Prop) addresses : forall first last,
  first <= last -> P first -> P last -> Forall P addresses ->
  Forall (fun fl => fst fl <= snd fl /\ P (fst fl) /\ P (snd fl))
         (find_address_range_from first last addresses)
  /\ forall a, first <= a <= last \/ In a addresses ->
               exists fl, In fl (find_address_range_from first last addresses)
                          /\ fst fl <= a <= snd fl.
Proof.
  induction addresses as [|ip r IH]; intros first last Hle Pf Pl HP; simpl.
  - split; [repeat constructor; auto|].
    intros a [Ha|[]]. exists (first, last). auto.
  - inversion HP as [|? ? Pip Pr]; subst.
    destruct (negb (ip =? last + 1)) eqn:E.
    + destruct (IH ip ip ltac:(lia) Pip Pip Pr) as (IH1 & IH2).
      split; [constructor; auto|].
      intros a [Ha|[<-|Ha]].
      * exists (first, last). split; [now left|simpl; lia].
      * destruct (IH2 ip ltac:(left; lia)) as (fl & ? & ?).
        exists fl. split; [now right|assumption].
      * destruct (IH2 a ltac:(now right)) as (fl & ? & ?).
        exists fl. split; [now right|assumption].
    + apply negb_false_iff, Z.eqb_eq in E.
      destruct (IH first ip ltac:(lia) Pf Pip Pr) as (IH1 & IH2).
      split; [assumption|].
      intros a [Ha|[<-|Ha]]; apply IH2; auto; left; lia.
Qed.

Lemma find_address_range_spec (P : Z -> Prop) addresses :
  Forall P addresses ->
  Forall (fun fl => fst fl <= snd fl /\ P (fst fl) /\ P (snd fl))
         (_find_address_range addresses)
  /\ forall a, In a addresses ->
               exists fl, In fl (_find_address_range addresses) /\ fst fl <= a <= snd fl.
Proof.
  destruct addresses as [|ip r]; simpl.
  - intros _. split; [constructor|]. intros a [].
  - intros HP. inversion HP as [|? ? Pip Pr]; subst.
    destruct (find_address_range_from_spec P r ip ip ltac:(lia) Pip Pip Pr) as (H1 & H2).
    split; [assumption|]. intros a [<-|Ha]; apply H2; auto. left; lia.
Qed.

(** ** Splitting addresses from networks *)

Lemma split_ips_nets_spec addresses : forall ips nets ips' nets',
  split_ips_nets addresses ips nets = Ok (ips', nets') ->
  (forall a b, In a ips -> In b ips -> fst a = fst b) ->
  (forall a b, In a ips' -> In b ips' -> fst a = fst b)
  /\ (forall e, In e ips' ->
        In e ips \/ exists n, In n addresses
                              /\ prefixlen n = _max_prefixlen (version n)
                              /\ e = (version n, network_address n))
  /\ (forall n, In n nets' -> In n nets \/ In n addresses)
  /\ (forall e, In e ips -> In e ips')
  /\ (forall n, In n nets -> In n nets')
  /\ (forall n, In n addresses ->
        if prefixlen n =? _max_prefixlen (version n)
        then In (version n, network_address n) ips'
        else In n nets').
Proof.
  induction addresses as [|ip r IH]; intros ips nets ips' nets' H Hu; simpl in H.
  - injection H as <- <-. repeat split; auto. intros n [].
  - destruct (prefixlen ip =? _max_prefixlen (version ip)) eqn:Efull.
    + assert (Hnext : split_ips_nets r (ips ++ [(version ip, network_address ip)]) nets
                      = Ok (ips', nets')
                      /\ forall a b, In a (ips ++ [(version ip, network_address ip)]) ->
                                     In b (ips ++ [(version ip, network_address ip)]) ->
                                     fst a = fst b).
      { destruct (rev ips) as [|[v a0] t] eqn:Er.
        - split; [assumption|].
          assert (ips = []) by (apply (f_equal (@rev _)) in Er; rewrite rev_involutive in Er; exact Er).
          subst ips. simpl. intros a b [<-|[]] [<-|[]]. reflexivity.
        - destruct (negb (ipver_eqb v (version ip))) eqn:Ev; [discriminate|].
          split; [assumption|].
          apply negb_false_iff, ipver_eqb_eq in Ev.
          assert (Hl : In (v, a0) ips).
          { apply in_rev. rewrite Er. now left. }
          assert (Hall : forall a, In a (ips ++ [(version ip, network_address ip)]) ->
                                   fst a = v).
          { intros a Ha. apply in_app_or in Ha. destruct Ha as [Ha|[<-|[]]].
            - apply (Hu a (v, a0)); assumption.
            - simpl. congruence. }
          intros a b Ha Hb. rewrite (Hall a Ha), (Hall b Hb). reflexivity. }
      destruct Hnext as (Hn1 & Hn2).
      destruct (IH _ _ _ _ Hn1 Hn2) as (I1 & I2 & I3 & I4 & I5 & I6).
      split; [assumption|]. split.
      { intros e He. destruct (I2 e He) as [Hin|(n & Hn & Hp & ->)].
        - apply in_app_or in Hin. destruct Hin as [Hin|[<-|[]]]; [now left|].
          right. exists ip. split; [now left|]. split; [now apply Z.eqb_eq|reflexivity].
        - right. exists n. split; [now right|]. auto. }
      split. { intros n Hn. destruct (I3 n Hn); [now left|right; now right]. }
      split. { intros e He. apply I4. apply in_or_app. now left. }
      split. { assumption. }
      intros n [<-|Hn].
      * rewrite Efull. apply I4. apply in_or_app. right. now left.
      * now apply I6.
    + assert (Hnext : split_ips_nets r ips (nets ++ [ip]) = Ok (ips', nets')).
      { destruct (rev nets) as [|n0 t]; [assumption|].
        destruct (negb (ipver_eqb (version n0) (version ip))); [discriminate|assumption]. }
      destruct (IH _ _ _ _ Hnext Hu) as (I1 & I2 & I3 & I4 & I5 & I6).
      split; [assumption|]. split.
      { intros e He. destruct (I2 e He) as [Hin|(n & Hn & Hp & ->)]; [now left|].
        right. exists n. split; [now right|]. auto. }
      split.
      { intros n Hn. destruct (I3 n Hn) as [Hin|Hin].
        - apply in_app_or in Hin. destruct Hin as [Hin|[<-|[]]]; [now left|right; now left].
        - right; now right. }
      split. { assumption. }
      split. { intros n Hn. apply I5. apply in_or_app. now left. }
      intros n [<-|Hn].
      * rewrite Efull. apply I5. apply in_or_app. right. now left.
      * now apply I6.
Qed.

(** ** [collapse_addresses] covers every network it is given *)

Theorem collapse_addresses_covers addresses out :
  Forall wf_net addresses ->
  collapse_addresses addresses = Ok out ->
  forall n, In n addresses -> covered_by out n.
Proof.
  intros Hwf H n Hn. unfold collapse_addresses in H.
  destruct (split_ips_nets addresses [] []) as [[ips nets]|] eqn:Es; [|discriminate].
  simpl in H.
  destruct (split_ips_nets_spec addresses [] [] ips nets Es ltac:(intros a b []))
    as (I1 & I2 & I3 & _ & _ & I6).
  rewrite Forall_forall in Hwf.
  set (addrs := match ips with
                | [] => []
                | (v, _) :: _ =>
                    flat_map (fun fl => summarize_address_range v (fst fl) (snd fl))
                      (_find_address_range
                         (stable_sort Z.ltb (nodup Z.eq_dec (map snd ips))))
                end) in *.
  assert (Hips : forall e, In e ips ->
                           0 <= snd e <= _ALL_ONES (fst e)).
  { intros e He. destruct (I2 e He) as [[]|(m & Hm & Hp & ->)].
    destruct (Hwf m Hm) as (_ & Ha & _). unfold _ALL_ONES. simpl. lia. }
  assert (Haddrs : Forall wf_net addrs
                   /\ forall m, In m addresses ->
                                prefixlen m = _max_prefixlen (version m) ->
                                covered_by addrs m).
  { unfold addrs. destruct ips as [|[v a0] t] eqn:Eips.
    - split; [constructor|]. intros m Hm Hp.
      specialize (I6 m Hm). rewrite (proj2 (Z.eqb_eq _ _) Hp) in I6. destruct I6.
    - rewrite <- Eips in *.
      assert (Hv : forall e, In e ips -> fst e = v).
      { intros e He. apply (I1 e (v, a0)); [assumption|]. rewrite Eips. now left. }
      set (sorted_ips := stable_sort Z.ltb (nodup Z.eq_dec (map snd ips))).
      assert (HP : Forall (fun a => 0 <= a <= _ALL_ONES v) sorted_ips).
      { rewrite Forall_forall. intros a Ha.
        apply (stable_sort_In Z.ltb), nodup_In, in_map_iff in Ha.
        destruct Ha as (e & <- & He). rewrite <- (Hv e He). now apply Hips. }
      destruct (find_address_range_spec _ _ HP) as (R1 & R2).
      rewrite Forall_forall in R1. split.
      + rewrite Forall_forall. intros m Hm. apply in_flat_map in Hm.
        destruct Hm as (fl & Hfl & Hm). destruct (R1 fl Hfl) as (? & (? & ?) & (? & ?)).
        pose proof (summarize_loop_wf (Z.to_nat (snd fl - fst fl + 1)) v (fst fl) (snd fl)
                      ltac:(lia) ltac:(lia)) as W.
        rewrite Forall_forall in W. now apply W.
      + intros m Hm Hp.
        pose proof (I6 m Hm) as Hin. rewrite (proj2 (Z.eqb_eq _ _) Hp) in Hin.
        pose proof (Hv _ Hin) as Hvm. simpl in Hvm.
        assert (Ha : In (network_address m) sorted_ips).
        { apply (stable_sort_In Z.ltb), nodup_In, in_map_iff.
          exists (version m, network_address m). auto. }
        destruct (R2 _ Ha) as (fl & Hfl & Hr).
        destruct (R1 fl Hfl) as (? & (? & ?) & (? & ?)).
        destruct (summarize_loop_covers (Z.to_nat (snd fl - fst fl + 1)) v
                    (fst fl) (snd fl) (network_address m)) as (net & Hnet & Hc);
          try lia.
        pose proof (summarize_loop_wf (Z.to_nat (snd fl - fst fl + 1)) v (fst fl) (snd fl)
                      ltac:(lia) ltac:(lia)) as W.
        rewrite Forall_forall in W. destruct (W net Hnet) as (Wn & Vn).
        exists net. split.
        * apply in_flat_map. exists fl. auto.
        * unfold covers. split; [congruence|].
          rewrite (broadcast_closed m (Hwf m Hm)), Hp, Z.sub_diag. simpl. lia. }
  destruct Haddrs as (Hwa & Hca).
  eapply collapse_internal_covers; [|exact H|].
  - apply Forall_app. split; [assumption|].
    rewrite Forall_forall. intros m Hm.
    destruct (I3 m Hm) as [[]|Hin]. now apply Hwf.
  - pose proof (I6 n Hn) as Hin.
    destruct (prefixlen n =? _max_prefixlen (version n)) eqn:E.
    + apply Z.eqb_eq in E. eapply covered_by_incl; [|apply Hca; assumption].
      intros y Hy. apply in_or_app. now left.
    + exists n. split; [apply in_or_app; now right|apply covers_refl].
Qed.

(** ** Splitting strings *)

Lemma split_nonempty c s : split c s <> [].
Proof.
  destruct s as [|d r]; simpl; [discriminate|].
  destruct (Ascii.eqb d c); [discriminate|].
  destruct (split c r); discriminate.
Qed.

Lemma split_app_sep c x y :
  split c (x ++ String c y)%string = split c x ++ split c y.
Proof.
  induction x as [|d x IH]; simpl.
  - now rewrite Ascii.eqb_refl.
  - destruct (Ascii.eqb d c); [now rewrite IH|].
    rewrite IH. destruct (split c x) as [|p ps] eqn:E; [|reflexivity].
    now apply split_nonempty in E.
Qed.

Lemma split_no_sep c s : contains c s = false -> split c s = [s].
Proof.
  induction s as [|d r IH]; simpl; [reflexivity|].
  intros H. apply orb_false_iff in H. destruct H as (H1 & H2).
  rewrite H1, (IH H2). reflexivity.
Qed.

(** ** The prefix length of a candidate *)

Lemma Network_init_prefixlen v s n :
  Network_init v s = Some n ->
  exists addr mask, _split_addr_prefix s = Some (addr, mask)
                    /\ _make_netmask v mask = Some (prefixlen n).
Proof.
  unfold Network_init.
  destruct (_split_addr_prefix s) as [[addr mask]|]; [|discriminate].
  destruct (_ip_int_from_string v addr) as [packed|]; [|discriminate].
  destruct (_make_netmask v mask) as [p|] eqn:Em; [|discriminate].
  destruct (negb _); intros [= <-]; exists addr, mask; split; auto.
Qed.

Lemma split_addr_prefix_mask x m addr mask :
  contains "/" m = false ->
  _split_addr_prefix (x ++ "/" ++ m)%string = Some (addr, mask) -> mask = Some m.
Proof.
  intros Hm. unfold _split_addr_prefix.
  change (x ++ "/" ++ m)%string with (x ++ String "/" m)%string.
  rewrite split_app_sep, (split_no_sep _ _ Hm).
  destruct (split "/" x) as [|p [|q ps]] eqn:E.
  - now apply split_nonempty in E.
  - simpl. intros [= _ <-]. reflexivity.
  - destruct ps; simpl; discriminate.
Qed.

Lemma range_8_29_spec L : In L range_8_29 <-> 8 <= L <= 28.
Proof.
  unfold range_8_29. rewrite in_map_iff. split.
  - intros (i & <- & Hi). apply in_seq in Hi. lia.
  - intros H. exists (Z.to_nat L). split; [lia|]. apply in_seq. lia.
Qed.

Lemma prefix_text_ok_range L : 8 <= L <= 28 -> prefix_text_ok L = true.
Proof.
  intros H. apply (Z_range_forallb prefix_text_ok 8 21); [vm_compute; reflexivity|]. lia.
Qed.

Lemma summary_candidate_prefixlen v min_addr L c :
  In L range_8_29 -> summary_candidate v min_addr L = Some c -> prefixlen c = L.
Proof.
  intros HL H. apply range_8_29_spec, prefix_text_ok_range in HL.
  unfold prefix_text_ok in HL. apply andb_true_iff in HL. destruct HL as (HL & H6).
  apply andb_true_iff in HL. destruct HL as (Hc & H4).
  apply negb_true_iff in Hc.
  unfold summary_candidate, ip_network in H.
  destruct (Network_init V4 _) as [n4|] eqn:E4.
  - injection H as <-. apply Network_init_prefixlen in E4.
    destruct E4 as (addr & mask & Es & Em).
    apply (split_addr_prefix_mask _ _ _ _ Hc) in Es. subst mask.
    rewrite Em in H4. now apply Z.eqb_eq in H4.
  - apply Network_init_prefixlen in H.
    destruct H as (addr & mask & Es & Em).
    apply (split_addr_prefix_mask _ _ _ _ Hc) in Es. subst mask.
    rewrite Em in H6. now apply Z.eqb_eq in H6.
Qed.

(** ** Minimum of a list *)

Lemma fold_min_le r : forall x, fold_left Z.min r x <= x
                                /\ forall y, In y r -> fold_left Z.min r x <= y.
Proof.
  induction r as [|a r IH]; intros x; simpl.
  - split; [lia|intros y []].
  - destruct (IH (Z.min x a)) as (H1 & H2). split; [lia|].
    intros y [<-|Hy]; [lia|auto].
Qed.

Lemma fold_min_In r : forall x, fold_left Z.min r x = x \/ In (fold_left Z.min r x) r.
Proof.
  induction r as [|a r IH]; intros x; simpl; [now left|].
  destruct (IH (Z.min x a)) as [H|H].
  - rewrite H. destruct (Z.min_spec x a) as [(_ & ->)|(_ & ->)]; auto.
  - auto.
Qed.

Lemma py_min_spec l m :
  py_min l = Ok m -> In m l /\ forall y, In y l -> m <= y.
Proof.
  destruct l as [|x r]; simpl; [discriminate|]. intros [= <-].
  destruct (fold_min_le r x) as (H1 & H2). split.
  - destruct (fold_min_In r x) as [->|H]; auto.
  - intros y [<-|Hy]; auto.
Qed.

(** ** Containment test *)

Lemma all_subnet_of_true nets c :
  all_subnet_of nets c = Ok true -> Forall (covers c) nets.
Proof.
  induction nets as [|n r IH]; simpl; [constructor|].
  unfold subnet_of.
  destruct (negb (ipver_eqb (version n) (version c))) eqn:Ev; [discriminate|].
  apply negb_false_iff, ipver_eqb_eq in Ev. simpl.
  destruct ((network_address c <=? network_address n)
            && (broadcast_address n <=? broadcast_address c)) eqn:E; [|discriminate].
  intros H. apply andb_true_iff in E. destruct E as (E1 & E2).
  apply Z.leb_le in E1, E2. constructor; [|auto].
  unfold covers. auto.
Qed.

(** ** Entries produced by the group stage *)

Lemma scan_prefix_lengths_ok sorted v min_addr minp : forall pls best be e,
  (forall L, In L pls -> In L range_8_29) ->
  (forall y, In y (map prefixlen sorted) -> minp <= y) ->
  (forall b, best = Some b -> group_summary_ok sorted b) ->
  scan_prefix_lengths sorted v min_addr minp pls best be = Ok (Some e) ->
  group_summary_ok sorted e.
Proof.
  induction pls as [|L rest IH]; intros best be e Hpls Hmin Hbest H; simpl in H.
  - destruct best as [b|]; [|discriminate].
    destruct (Qltb 0 be); [|discriminate]. injection H as <-. auto.
  - assert (Hrest : forall L', In L' rest -> In L' range_8_29)
      by (intros; apply Hpls; now right).
    destruct (summary_candidate v min_addr L) as [c|] eqn:Ec; [|eauto].
    destruct (all_subnet_of sorted c) as [[|]|] eqn:Ea; simpl in H;
      [|eauto|discriminate].
    destruct (L <? minp) eqn:EL; [|eauto].
    assert (Hthis : group_summary_ok sorted (str_net c, map str_net sorted)).
    { exists c. split; [reflexivity|]. split; [now apply all_subnet_of_true|].
      rewrite Forall_forall. intros o Ho.
      rewrite (summary_candidate_prefixlen v min_addr L c (Hpls L ltac:(now left)) Ec).
      apply Z.ltb_lt in EL. specialize (Hmin (prefixlen o) (in_map _ _ _ Ho)). lia. }
    destruct (Qle_bool float_0_05 (efficiency sorted c)).
    + injection H as <-. assumption.
    + eapply IH; [assumption|assumption| |exact H].
      intros b. destruct (Qltb be (efficiency sorted c)); [intros [= <-]; assumption|auto].
Qed.

Lemma bind_Ok {A B : Type} (m : result A) (k : A -> result B) r :
  bind m k = Ok r -> exists a, m = Ok a /\ k a = Ok r.
Proof. destruct m as [a|]; simpl; [eauto|discriminate]. Qed.

Lemma find_tightest_summary_ok g e :
  Forall wf_net g ->
  _find_tightest_summary g = Some e ->
  2 <= Z.of_nat (List.length g)
  /\ group_summary_ok (stable_sort lt_addr g) e.
Proof.
  intros Hwf H. unfold _find_tightest_summary in H.
  destruct (Z.of_nat (List.length g) <? 2) eqn:El; [discriminate|].
  apply Z.ltb_ge in El. split; [assumption|].
  destruct (tightest_summary_body g) as [r|] eqn:Eb; [|discriminate]. subst r.
  unfold tightest_summary_body in Eb.
  apply bind_Ok in Eb. destruct Eb as (sorted & Es & Eb).
  apply sorted_nets_Ok in Es. destruct Es as (_ & ->).
  set (sorted := stable_sort lt_addr g) in *.
  assert (Hws : Forall wf_net sorted).
  { rewrite Forall_forall in *. intros n Hn. apply Hwf. now apply (stable_sort_In lt_addr). }
  apply bind_Ok in Eb. destruct Eb as (collapsed & Ec & Eb).
  apply bind_Ok in Eb. destruct Eb as (a & Ea & Eb).
  destruct a as [a|].
  - injection Eb as <-.
    unfold exact_collapse in Ea.
    destruct collapsed as [|s [|? ?]]; try discriminate.
    apply bind_Ok in Ea. destruct Ea as (m & Em & Ea).
    destruct (prefixlen s <? m) eqn:Elt; [|discriminate].
    injection Ea as <-. apply Z.ltb_lt in Elt.
    exists s. split; [reflexivity|]. split.
    + rewrite Forall_forall. intros o Ho.
      destruct (collapse_addresses_covers sorted [s] Hws Ec o Ho) as (s' & [<-|[]] & Hc).
      assumption.
    + rewrite Forall_forall. intros o Ho.
      destruct (py_min_spec _ _ Em) as (_ & Hmin).
      specialize (Hmin (prefixlen o) (in_map _ _ _ Ho)). lia.
  - apply bind_Ok in Eb. destruct Eb as (min_addr & _ & Eb).
    apply bind_Ok in Eb. destruct Eb as (minp & Em & Eb).
    eapply scan_prefix_lengths_ok; [| | |exact Eb].
    + auto.
    + apply (py_min_spec _ _ Em).
    + discriminate.
Qed.

(** ** Dictionaries of entries *)

Lemma dict_set_Forall {V : Type} (P : string * V -> Prop) k v d :
  P (k, v) -> Forall P d -> Forall P (dict_set String.eqb k v d).
Proof.
  intros Hkv Hd. rewrite Forall_forall in *. intros e He.
  apply (dict_set_In String.eqb String.eqb_eq) in He. destruct He as [->|He]; auto.
Qed.

Lemma dict_update_Forall {V : Type} (P : string * V -> Prop) d2 : forall d,
  Forall P d -> Forall P d2 -> Forall P (dict_update String.eqb d d2).
Proof.
  unfold dict_update.
  induction d2 as [|[k v] r IH]; intros d Hd H2; simpl; [assumption|].
  inversion H2; subst. apply IH; [|assumption]. now apply dict_set_Forall.
Qed.

(** ** Groups *)

Lemma group_add_members groups net :
  forall g, In g (map snd (group_add groups net)) ->
            forall n, In n g -> n = net \/ exists g', In g' (map snd groups) /\ In n g'.
Proof.
  intros g Hg n Hn. unfold group_add in Hg.
  apply in_map_iff in Hg. destruct Hg as ([k g0] & <- & Hin). simpl in Hn.
  destruct (dict_get String.eqb (major_key net) groups) as [old|] eqn:E;
    apply (dict_set_In String.eqb String.eqb_eq) in Hin; destruct Hin as [[= _ ->]|Hin].
  - apply in_app_or in Hn. destruct Hn as [Hn|[<-|[]]]; [|now left].
    right. exists old. split; [|assumption].
    apply in_map_iff. exists (major_key net, old). split; [reflexivity|].
    now apply (dict_get_In String.eqb String.eqb_eq).
  - right. exists g0. split; [|assumption]. apply in_map_iff. now exists (k, g0).
  - destruct Hn as [<-|[]]. now left.
  - right. exists g0. split; [|assumption]. apply in_map_iff. now exists (k, g0).
Qed.

Lemma fold_group_add_members networks : forall groups g n,
  In g (map snd (fold_left group_add networks groups)) -> In n g ->
  In n networks \/ exists g', In g' (map snd groups) /\ In n g'.
Proof.
  induction networks as [|net r IH]; intros groups g n Hg Hn; simpl in *.
  - right. eauto.
  - destruct (IH _ _ _ Hg Hn) as [H|(g' & Hg' & Hn')]; [auto|].
    destruct (group_add_members groups net g' Hg' n Hn') as [->|H]; auto.
Qed.

Lemma group_by_major_network_class_members networks g :
  In g (_group_by_major_network_class networks) ->
  2 <= Z.of_nat (List.length g) /\ forall n, In n g -> In n networks.
Proof.
  unfold _group_by_major_network_class. intros H.
  apply filter_In in H. destruct H as (Hg & Hl). apply Z.ltb_lt in Hl.
  split; [lia|]. intros n Hn.
  destruct (fold_group_add_members networks [] g n Hg Hn) as [H|(g' & [] & _)].
  assumption.
Qed.

Lemma find_major_network_summaries_ok networks :
  Forall wf_net networks ->
  Forall (entry_ok networks) (_find_major_network_summaries networks).
Proof.
  intros Hwf. unfold _find_major_network_summaries.
  assert (Hg : forall g, In g (_group_by_major_network_class networks) ->
                         forall n, In n g -> In n networks)
    by (intros g Hg; apply (group_by_major_network_class_members networks g Hg)).
  revert Hg. generalize (_group_by_major_network_class networks) as groups.
  assert (Hacc : Forall (entry_ok networks) (@nil (string * list string))) by constructor.
  revert Hacc. generalize (@nil (string * list string)) as acc.
  intros acc Hacc groups. revert acc Hacc.
  induction groups as [|g r IH]; intros acc Hacc Hg; simpl; [assumption|].
  apply IH; [|intros; eapply Hg; [right|]; eassumption].
  destruct (Z.of_nat (List.length g) <? 2); [assumption|].
  destruct (_find_tightest_summary g) as [[k origs]|] eqn:E; [|assumption].
  apply dict_set_Forall; [|assumption].
  assert (Hwg : Forall wf_net g).
  { rewrite Forall_forall in *. intros n Hn. apply Hwf. apply (Hg g); [now left|assumption]. }
  destruct (find_tightest_summary_ok g _ Hwg E) as (Hlen & s & [= -> ->] & Hc & Hp).
  exists s, (stable_sort lt_addr g). cbn [fst snd].
  split; [reflexivity|]. split; [reflexivity|]. split.
  - intros o Ho. apply (Hg g); [now left|].
    apply (proj1 (stable_sort_In lt_addr g o)). exact Ho.
  - split; [assumption|]. left. rewrite stable_sort_length. auto.
Qed.

(** ** Entries produced by the pair stage *)

Lemma try_pair_ok nets ri rj summaries :
  wf_net ri -> wf_net rj -> In ri nets -> In rj nets ->
  Forall (entry_ok nets) summaries ->
  Forall (entry_ok nets) (try_pair ri rj summaries).
Proof.
  intros Wi Wj Ii Ij Hs. unfold try_pair.
  destruct (collapse_addresses [ri; rj]) as [[|s [|? ?]]|] eqn:Ec; try assumption.
  destruct (prefixlen s <? Z.max (prefixlen ri) (prefixlen rj)) eqn:E1; [|assumption].
  destruct (prefixlen s <=? 28) eqn:E2; [|assumption].
  apply Z.ltb_lt in E1. apply Z.leb_le in E2.
  apply dict_set_Forall; [|assumption].
  assert (Hcov : forall o, In o [ri; rj] -> covers s o).
  { intros o Ho.
    destruct (collapse_addresses_covers [ri; rj] [s]
                (Forall_cons _ Wi (Forall_cons _ Wj (Forall_nil _)))
                Ec o Ho) as (s' & [<-|[]] & Hc). assumption. }
  exists s, [ri; rj]. simpl. split; [reflexivity|]. split; [reflexivity|]. split.
  - intros o [<-|[<-|[]]]; assumption.
  - split.
    + repeat constructor; apply Hcov; simpl; auto.
    + right. exists ri, rj. auto.
Qed.

Lemma pair_loop_ok nets remaining : forall summaries,
  (forall n, In n remaining -> wf_net n /\ In n nets) ->
  Forall (entry_ok nets) summaries ->
  Forall (entry_ok nets) (pair_loop remaining summaries).
Proof.
  induction remaining as [|ri rest IH]; intros summaries Hr Hs; simpl; [assumption|].
  apply IH; [intros; apply Hr; now right|].
  destruct (Hr ri ltac:(now left)) as (Wi & Ii).
  assert (Hrest : forall n, In n rest -> wf_net n /\ In n nets)
    by (intros; apply Hr; now right).
  clear IH Hr. revert summaries Hs.
  induction rest as [|rj rest' IH']; intros summaries Hs; simpl; [assumption|].
  apply IH'; [intros; apply Hrest; now right|].
  destruct (Hrest rj ltac:(now left)) as (Wj & Ij).
  now apply try_pair_ok.
Qed.

Lemma find_contiguous_summaries_ok networks existing :
  Forall wf_net networks ->
  Forall (entry_ok networks) (_find_contiguous_summaries networks existing).
Proof.
  intros Hwf. unfold _find_contiguous_summaries.
  destruct (Z.of_nat _ <? 2); [constructor|].
  apply pair_loop_ok; [|constructor].
  intros n Hn. apply filter_In in Hn. destruct Hn as (Hn & _).
  rewrite Forall_forall in Hwf. auto.
Qed.

(** ** The summaries dictionary *)

Lemma parse_networks_In networks n :
  In n (parse_networks networks) <->
  exists s, In s networks /\ ip_network s = Some n.
Proof.
  unfold parse_networks. rewrite in_flat_map. split.
  - intros (s & Hs & Hn). exists s. split; [assumption|].
    destruct (ip_network s); [|destruct Hn]. destruct Hn as [<-|[]]. reflexivity.
  - intros (s & Hs & E). exists s. split; [assumption|]. rewrite E. now left.
Qed.

Lemma parse_networks_wf networks : Forall wf_net (parse_networks networks).
Proof.
  rewrite Forall_forall. intros n Hn. apply parse_networks_In in Hn.
  destruct Hn as (s & _ & E). eapply ip_network_wf; eauto.
Qed.

Lemma entry_ok_incl nets nets' e :
  (forall n, In n nets -> In n nets') -> entry_ok nets e -> entry_ok nets' e.
Proof.
  intros Hi (s & os & H1 & H2 & H3 & H4). exists s, os. repeat split; auto; tauto.
Qed.

Theorem find_summary_routes_entries networks summaries :
  find_summary_routes networks = Ok summaries ->
  Forall (entry_ok (parse_networks networks)) summaries.
Proof.
  unfold find_summary_routes.
  destruct (parse_networks networks) as [|n0 r] eqn:Ep.
  - intros [= <-]. constructor.
  - rewrite <- Ep.
    destruct (sorted_nets lt_addr_prefixlen (parse_networks networks)) as [sorted|] eqn:Es;
      [|discriminate].
    simpl. intros [= <-].
    apply sorted_nets_Ok in Es. destruct Es as (_ & ->).
    set (sorted := stable_sort lt_addr_prefixlen (parse_networks networks)).
    assert (Hws : Forall wf_net sorted).
    { rewrite Forall_forall. intros n Hn.
      apply (proj1 (stable_sort_In lt_addr_prefixlen _ n)) in Hn.
      pose proof (parse_networks_wf networks) as W. rewrite Forall_forall in W. auto. }
    assert (Hincl : forall n, In n sorted -> In n (parse_networks networks))
      by (intros n Hn; exact (proj1 (stable_sort_In lt_addr_prefixlen _ n) Hn)).
    assert (Hmap : forall d, Forall (entry_ok sorted) d ->
                             Forall (entry_ok (parse_networks networks)) d).
    { intros d Hd. rewrite Forall_forall in *. intros e He.
      eapply entry_ok_incl; [exact Hincl|auto]. }
    apply Hmap. apply dict_update_Forall.
    + apply dict_update_Forall; [constructor|].
      now apply find_major_network_summaries_ok.
    + now apply find_contiguous_summaries_ok.
Qed.

Lemma get_optimized_networks_summaries networks optimized summaries :
  get_optimized_networks networks = Ok (optimized, summaries) ->
  find_summary_routes networks = Ok summaries.
Proof.
  unfold get_optimized_networks.
  destruct (find_summary_routes networks) as [d|]; [|discriminate].
  simpl. intros [= _ <-]. reflexivity.
Qed.

Lemma get_optimized_networks_entries networks optimized summaries :
  get_optimized_networks networks = Ok (optimized, summaries) ->
  Forall (entry_ok (parse_networks networks)) summaries.
Proof.
  intros H. apply find_summary_routes_entries.
  eapply get_optimized_networks_summaries; eauto.
Qed.

(** ** The claims *)


(** C2 (the code differs).  For the input of Scenario C the malformed
    entry is skipped by the parsing loop and the two networks are
    summarized as in Scenario A, but the final loop of
    [get_optimized_networks] runs over the raw input and appends the
    malformed entry to the optimized list. *)
Theorem scenario_C_keeps_malformed_entry :
  get_optimized_networks ["10.0.0.0/24"; "not-a-network"; "10.0.1.0/24"]
  = Ok (["10.0.0.0/23"; "not-a-network"],
        [("10.0.0.0/23", ["10.0.0.0/24"; "10.0.1.0/24"])]).
Proof. vm_compute. reflexivity. Qed.

(** C3 (as stated, fails).  On ["10.0.0.5/24"; "10.0.1.7/24"] the mapping
    lists the originals "10.0.0.0/24" and "10.0.1.0/24", the canonical
    texts of the parsed networks, neither of which is an input string. *)
Lemma no_fabrication_counterexample :
  ~ no_fabrication ["10.0.0.5/24"; "10.0.1.7/24"].
Proof.
  intros H.
  specialize (H ["10.0.0.0/23"; "10.0.0.5/24"; "10.0.1.7/24"]
                [("10.0.0.0/23", ["10.0.0.0/24"; "10.0.1.0/24"])]
                "10.0.0.0/23" ["10.0.0.0/24"; "10.0.1.0/24"]
                ltac:(vm_compute; reflexivity) ltac:(left; reflexivity)
                "10.0.0.0/24" ltac:(left; reflexivity)).
  simpl in H. destruct H as [H|[H|[]]]; discriminate.
Qed.

(** C3 (amended).  Every original of the returned mapping is the
    canonical text [str(ip_network(t, strict=False))] of the network parsed
    from some string [t] of the input list. *)
Theorem no_fabrication_amended networks optimized summaries :
  get_optimized_networks networks = Ok (optimized, summaries) ->
  forall summary originals,
    In (summary, originals) summaries ->
    forall original,
      In original originals ->
      exists t n, In t networks /\ ip_network t = Some n /\ original = str_net n.
Proof.
  intros H summary originals Hin original Ho.
  pose proof (get_optimized_networks_entries _ _ _ H) as He.
  rewrite Forall_forall in He.
  destruct (He _ Hin) as (s & os & _ & H2 & H3 & _). simpl in H2, H3.
  subst originals. apply in_map_iff in Ho. destruct Ho as (n & <- & Hn).
  apply H3, parse_networks_In in Hn. destruct Hn as (t & Ht & E).
  exists t, n. auto.
Qed.

Lemma no_fabrication_amended_witness :
  exists t n, In t ["10.0.0.5/24"; "10.0.1.7/24"]
              /\ ip_network t = Some n /\ "10.0.0.0/24" = str_net n.
Proof.
  apply (no_fabrication_amended
           ["10.0.0.5/24"; "10.0.1.7/24"]
           ["10.0.0.0/23"; "10.0.0.5/24"; "10.0.1.7/24"]
           [("10.0.0.0/23", ["10.0.0.0/24"; "10.0.1.0/24"])]
           ltac:(vm_compute; reflexivity)
           "10.0.0.0/23" ["10.0.0.0/24"; "10.0.1.0/24"]).
  - left. reflexivity.
  - left. reflexivity.
Defined.

(** C4 (the code differs).  On ["10.0.0.5/24"; "10.0.1.7/24"] both
    networks are summarized into "10.0.0.0/23", but the final loop
    compares the raw input strings with the canonical texts recorded in
    the mapping, finds neither, and keeps both: three entries for an input
    of two. *)
Theorem non_expansion_fails_with_host_bits :
  get_optimized_networks ["10.0.0.5/24"; "10.0.1.7/24"]
  = Ok (["10.0.0.0/23"; "10.0.0.5/24"; "10.0.1.7/24"],
        [("10.0.0.0/23", ["10.0.0.0/24"; "10.0.1.0/24"])]).
Proof. vm_compute. reflexivity. Qed.

(** C6.  The empty list and every one-element list, whether its element
    parses or not, come back unchanged with an empty mapping, and no
    exception is raised. *)
Theorem empty_and_single_input_unchanged :
  get_optimized_networks [] = Ok ([], [])
  /\ (forall net, get_optimized_networks [net] = Ok ([net], []))
  /\ get_optimized_networks ["172.16.5.0/24"] = Ok (["172.16.5.0/24"], []).
Proof.
  assert (H1 : forall net, get_optimized_networks [net] = Ok ([net], [])).
  { intros net. unfold get_optimized_networks, find_summary_routes, parse_networks.
    cbn [flat_map]. destruct (ip_network net) as [n|]; [|reflexivity].
    cbn [app]. unfold sorted_nets. cbn [same_version forallb stable_sort fold_right insert_sorted bind].
    unfold _find_major_network_summaries, _group_by_major_network_class.
    cbn [fold_left]. unfold group_add. cbn [dict_get dict_set map snd filter List.length].
    change (1 <? Z.of_nat 1) with false. cbn [fold_left dict_update].
    unfold _find_contiguous_summaries. cbn [flat_map filter str_in existsb negb List.length].
    change (Z.of_nat 1 <? 2) with true. cbn [dict_update fold_left bind map flat_map app filter str_in existsb negb].
    reflexivity. }
  split; [reflexivity|]. split; [exact H1|apply H1].
Qed.

(** C10 (the code differs).  An IPv4 and an IPv6 network are both accepted
    by [ip_network]; sorting the list that holds them compares their
    addresses, which raises [TypeError], outside every [try] block of the
    summarizer. *)
Theorem mixed_versions_raise_TypeError :
  get_optimized_networks ["10.0.0.0/24"; "::10.0.1.0/120"] = Raise TypeError.
Proof. vm_compute. reflexivity. Qed.

(** C8.  Step A: when the members of a group of at least two networks,
    sorted by address, collapse to exactly one network whose prefix is
    strictly shorter than the prefix of every member, that network is
    returned as the summary of the group, with all the (sorted) members as
    its originals; and Scenario A. *)
Theorem exact_collapse_accepted :
  (forall g sorted s,
      2 <= Z.of_nat (List.length g) ->
      sorted_nets lt_addr g = Ok sorted ->
      collapse_addresses sorted = Ok [s] ->
      (forall n, In n g -> prefixlen s < prefixlen n) ->
      _find_tightest_summary g = Some (str_net s, map str_net sorted))
  /\ get_optimized_networks ["10.0.0.0/24"; "10.0.1.0/24"]
     = Ok (["10.0.0.0/23"], [("10.0.0.0/23", ["10.0.0.0/24"; "10.0.1.0/24"])]).
Proof.
  split; [|vm_compute; reflexivity].
  intros g sorted s Hlen Hs Hc Hp.
  unfold _find_tightest_summary.
  destruct (Z.of_nat (List.length g) <? 2) eqn:El; [apply Z.ltb_lt in El; lia|].
  unfold tightest_summary_body. rewrite Hs. cbn [bind]. rewrite Hc. cbn [bind].
  unfold exact_collapse.
  destruct (py_min (map prefixlen sorted)) as [m|] eqn:Em.
  - cbn [bind]. destruct (py_min_spec _ _ Em) as (Hin & _).
    apply in_map_iff in Hin. destruct Hin as (n & <- & Hn).
    apply sorted_nets_Ok in Hs. destruct Hs as (_ & ->).
    apply (proj1 (stable_sort_In lt_addr g n)) in Hn. specialize (Hp n Hn).
    apply Z.ltb_lt in Hp. rewrite Hp. reflexivity.
  - exfalso. apply sorted_nets_Ok in Hs. destruct Hs as (_ & ->).
    destruct g as [|x r]; [simpl in Hlen; lia|].
    pose proof (stable_sort_length lt_addr (x :: r)) as HL.
    destruct (stable_sort lt_addr (x :: r)); [discriminate|discriminate].
Qed.

Lemma exact_collapse_accepted_witness :
  _find_tightest_summary [mkNet V4 167772160 24; mkNet V4 167772416 24]
  = Some (str_net (mkNet V4 167772160 23),
          map str_net [mkNet V4 167772160 24; mkNet V4 167772416 24]).
Proof.
  apply (proj1 exact_collapse_accepted
               [mkNet V4 167772160 24; mkNet V4 167772416 24]
               [mkNet V4 167772160 24; mkNet V4 167772416 24]
               (mkNet V4 167772160 23)).
  - simpl. lia.
  - vm_compute. reflexivity.
  - vm_compute. reflexivity.
  - intros n [<-|[<-|[]]]; simpl; lia.
Defined.

(** ** The classifier *)

Section StringDict.
Context {V : Type}.
Implicit Types d : list (string * V).

Lemma dict_get_None_notin k d :
  dict_get String.eqb k d = None <-> ~ In k (map fst d).
Proof.
  induction d as [|[k' v'] r IH]; simpl; [tauto|].
  destruct (String.eqb k' k) eqn:E.
  - apply String.eqb_eq in E. subst. split; [discriminate|]. intros H. exfalso. auto.
  - apply String.eqb_neq in E. rewrite IH. tauto.
Qed.

Lemma dict_set_keys_present k v v0 d :
  dict_get String.eqb k d = Some v0 ->
  map fst (dict_set String.eqb k v d) = map fst d.
Proof.
  induction d as [|[k' v'] r IH]; simpl; [discriminate|].
  destruct (String.eqb k' k); simpl; [reflexivity|]. intros H. now rewrite IH.
Qed.

Lemma dict_set_In_present k v d :
  NoDup (map fst d) -> In k (map fst d) ->
  forall k' v', In (k', v') (dict_set String.eqb k v d) <->
                (k' = k /\ v' = v) \/ (k' <> k /\ In (k', v') d).
Proof.
  induction d as [|[k1 v1] r IH]; simpl; [tauto|].
  intros Hnd Hin k' v'. inversion Hnd as [|? ? Hn1 Hnr]; subst.
  destruct (String.eqb k1 k) eqn:E.
  - apply String.eqb_eq in E. subst k1. simpl. split.
    + intros [[= <- <-]|H]; [now left|]. right. split; [|now right].
      intros ->. apply Hn1. apply in_map_iff. now exists (k, v').
    + intros [[-> ->]|[Hne [[= <- <-]|H]]]; [now left|congruence|now right].
  - apply String.eqb_neq in E. simpl.
    destruct Hin as [Hin|Hin]; [congruence|].
    rewrite (IH Hnr Hin k' v'). split.
    + intros [[= <- <-]|[H|H]]; [right; split; [assumption|now left]|now left|].
      right. split; [apply H|right; apply H].
    + intros [H|[Hne [[= <- <-]|H]]]; [right; now left|now left|].
      right. right. auto.
Qed.
End StringDict.

Lemma key_class_app l net k :
  key_class (l ++ [net]) k
  = key_class l k ++ (if String.eqb (major_key net) k then [net] else []).
Proof. unfold key_class. rewrite filter_app. reflexivity. Qed.

Lemma group_add_inv d l net :
  groups_inv d l -> groups_inv (group_add d net) (l ++ [net]).
Proof.
  intros (Hnd & Hd). unfold group_add.
  destruct (dict_get String.eqb (major_key net) d) as [old|] eqn:G.
  - pose proof (dict_get_In String.eqb String.eqb_eq _ _ _ G) as Hold.
    assert (Hk : In (major_key net) (map fst d))
      by (apply in_map_iff; now exists (major_key net, old)).
    split; [now rewrite (dict_set_keys_present _ _ _ _ G)|].
    intros k g. rewrite (dict_set_In_present _ _ _ Hnd Hk), key_class_app.
    apply Hd in Hold. destruct Hold as (-> & _).
    destruct (String.eqb (major_key net) k) eqn:E.
    + apply String.eqb_eq in E. subst k. split.
      * intros [[_ ->]|[Hne _]]; [|congruence]. split; [reflexivity|].
        intros H. apply app_eq_nil in H. destruct H; discriminate.
      * intros (-> & _). now left.
    + apply String.eqb_neq in E. rewrite app_nil_r. rewrite Hd. split.
      * intros [[-> _]|[_ H]]; [congruence|assumption].
      * intros H. right. split; [congruence|assumption].
  - rewrite (dict_set_new String.eqb _ _ _ G).
    pose proof (proj1 (dict_get_None_notin _ _) G) as Hnk.
    split.
    + rewrite map_app. simpl. apply NoDup_app; try assumption.
      * repeat constructor. intros [].
      * intros x Hx [<-|[]]. auto.
    + intros k g. rewrite in_app_iff, key_class_app, Hd. simpl.
      destruct (String.eqb (major_key net) k) eqn:E.
      * apply String.eqb_eq in E. subst k.
        assert (Hc : key_class l (major_key net) = []).
        { destruct (key_class l (major_key net)) as [|x r] eqn:Ek; [reflexivity|].
          exfalso. apply Hnk. apply in_map_iff.
          exists (major_key net, x :: r). split; [reflexivity|].
          apply Hd. split; [now rewrite Ek|discriminate]. }
        rewrite Hc. simpl. split.
        -- intros [(-> & H)|[[= <-]|[]]]; [congruence|]. split; [reflexivity|discriminate].
        -- intros (-> & _). right. now left.
      * apply String.eqb_neq in E. rewrite app_nil_r. split.
        -- intros [H|[[= ? ?]|[]]]; [assumption|congruence].
        -- intros H. now left.
Qed.

Lemma fold_group_add_inv networks : forall d l,
  groups_inv d l -> groups_inv (fold_left group_add networks d) (l ++ networks).
Proof.
  induction networks as [|net r IH]; intros d l H; simpl.
  - now rewrite app_nil_r.
  - replace (l ++ net :: r) with ((l ++ [net]) ++ r) by (rewrite <- app_assoc; reflexivity).
    apply IH. now apply group_add_inv.
Qed.

Lemma group_by_major_network_class_spec networks g :
  In g (_group_by_major_network_class networks) <->
  exists k, g = key_class networks k /\ 2 <= Z.of_nat (List.length g).
Proof.
  pose proof (fold_group_add_inv networks [] []) as H.
  destruct H as (_ & Hd).
  { split; [constructor|]. intros k g'. simpl. split; [tauto|].
    intros (-> & Hne). now apply Hne. }
  simpl in Hd. unfold _group_by_major_network_class.
  rewrite filter_In, in_map_iff. split.
  - intros (([k g'] & <- & Hin) & Hl). apply Z.ltb_lt in Hl.
    apply Hd in Hin. destruct Hin as (E & _). exists k. simpl in *. split; [assumption|lia].
  - intros (k & E & Hl). split.
    + exists (k, g). split; [reflexivity|]. apply Hd. split; [assumption|].
      intros ->. simpl in Hl. lia.
    + apply Z.ltb_lt. lia.
Qed.

Lemma find_major_network_summaries_from_groups networks summary originals :
  In (summary, originals) (_find_major_network_summaries networks) ->
  exists g, In g (_group_by_major_network_class networks)
            /\ _find_tightest_summary g = Some (summary, originals).
Proof.
  unfold _find_major_network_summaries.
  set (P := fun e : string * list string =>
              exists g, In g (_group_by_major_network_class networks)
                        /\ _find_tightest_summary g = Some e).
  intros Hin.
  assert (HF : Forall P (fold_left
            (fun summaries group_networks =>
               if Z.of_nat (List.length group_networks) <? 2 then summaries
               else match _find_tightest_summary group_networks with
                    | Some (summary_net, original_nets) =>
                        dict_set String.eqb summary_net original_nets summaries
                    | None => summaries
                    end)
            (_group_by_major_network_class networks) [])).
  { assert (Hg : forall g, In g (_group_by_major_network_class networks) ->
                           In g (_group_by_major_network_class networks)) by auto.
    revert Hg.
    generalize (_group_by_major_network_class networks) at 1 3 as groups.
    assert (Hacc : Forall P (@nil (string * list string))) by constructor.
    revert Hacc. generalize (@nil (string * list string)) as acc.
    intros acc Hacc groups. revert acc Hacc.
    induction groups as [|g r IH]; intros acc Hacc Hg; simpl; [assumption|].
    apply IH; [|intros; apply Hg; now right].
    destruct (Z.of_nat (List.length g) <? 2); [assumption|].
    destruct (_find_tightest_summary g) as [[k origs]|] eqn:E; [|assumption].
    apply dict_set_Forall; [|assumption].
    exists g. split; [apply Hg; now left|assumption]. }
  rewrite Forall_forall in HF. exact (HF _ Hin).
Qed.

(** C9.  The classification key is "10" for a first octet of 10,
    "172.<second octet>" for a first octet of 172 and a second octet in
    [16, 31], "192.168" for the octets 192 and 168, and
    "<first octet>.<second octet>" otherwise.  The groups handed to the
    tight-summary finder are exactly the key classes with at least two
    members, every summary of the group stage comes from such a group, and
    a network alone in its class is in none of them. *)
Theorem classifier_groups :
  (forall n,
      let b0 := packed_byte n 0 in
      let b1 := packed_byte n 1 in
      (b0 = 10 -> major_key n = "10")
      /\ (b0 = 172 -> 16 <= b1 <= 31 -> major_key n = ("172." ++ str_int b1)%string)
      /\ (b0 = 192 -> b1 = 168 -> major_key n = "192.168")
      /\ (b0 <> 10 -> ~ (b0 = 172 /\ 16 <= b1 <= 31) -> ~ (b0 = 192 /\ b1 = 168) ->
          major_key n = (str_int b0 ++ "." ++ str_int b1)%string))
  /\ map (option_map major_key)
         (map ip_network ["10.200.3.0/24"; "172.16.9.0/24"; "172.31.0.0/16";
                          "172.32.0.0/16"; "192.168.44.0/24"; "192.169.0.0/16";
                          "8.8.4.0/24"])
     = map Some ["10"; "172.16"; "172.31"; "172.32"; "192.168"; "192.169"; "8.8"]
  /\ (forall networks g,
         In g (_group_by_major_network_class networks) <->
         exists k, g = key_class networks k /\ 2 <= Z.of_nat (List.length g))
  /\ (forall networks summary originals,
         In (summary, originals) (_find_major_network_summaries networks) ->
         exists g, In g (_group_by_major_network_class networks)
                   /\ _find_tightest_summary g = Some (summary, originals))
  /\ (forall networks n,
         key_class networks (major_key n) = [n] ->
         forall g, In g (_group_by_major_network_class networks) -> ~ In n g).
Proof.
  split.
  { intros n b0 b1. unfold major_key. fold b0 b1. repeat split.
    - intros ->. reflexivity.
    - intros -> H. simpl.
      destruct (16 <=? b1) eqn:E1; [|apply Z.leb_gt in E1; lia].
      destruct (b1 <=? 31) eqn:E2; [|apply Z.leb_gt in E2; lia]. reflexivity.
    - intros -> ->. reflexivity.
    - intros H1 H2 H3.
      destruct (b0 =? 10) eqn:E0; [apply Z.eqb_eq in E0; congruence|].
      destruct ((b0 =? 172) && (16 <=? b1) && (b1 <=? 31)) eqn:E1.
      { exfalso. apply H2. rewrite !andb_true_iff in E1. lia. }
      destruct ((b0 =? 192) && (b1 =? 168)) eqn:E2.
      { exfalso. apply H3. rewrite andb_true_iff in E2. lia. }
      reflexivity. }
  split; [vm_compute; reflexivity|].
  split; [apply group_by_major_network_class_spec|].
  split; [apply find_major_network_summaries_from_groups|].
  intros networks n Hn g Hg Hin.
  apply group_by_major_network_class_spec in Hg. destruct Hg as (k & -> & Hl).
  assert (k = major_key n).
  { unfold key_class in Hin. apply filter_In in Hin. destruct Hin as (_ & E).
    apply String.eqb_eq in E. congruence. }
  subst k. rewrite Hn in Hl. simpl in Hl. lia.
Qed.

Lemma classifier_groups_witness :
  major_key (mkNet V4 2886729728 16) = ("172." ++ str_int 16)%string
  /\ ~ In (mkNet V4 134744064 24)
          (fold_right (fun g acc => g ++ acc) []
             (_group_by_major_network_class
                [mkNet V4 134744064 24; mkNet V4 167772160 24; mkNet V4 167772416 24])).
Proof.
  destruct classifier_groups as (K & _ & _ & _ & S). split.
  - destruct (K (mkNet V4 2886729728 16)) as (_ & K2 & _).
    apply K2; [reflexivity|vm_compute; split; discriminate].
  - intros Hin.
    assert (H : exists g,
               In g (_group_by_major_network_class
                       [mkNet V4 134744064 24; mkNet V4 167772160 24;
                        mkNet V4 167772416 24])
               /\ In (mkNet V4 134744064 24) g).
    { revert Hin.
      generalize (_group_by_major_network_class
                    [mkNet V4 134744064 24; mkNet V4 167772160 24; mkNet V4 167772416 24]).
      intros l. induction l as [|g r IH]; simpl; [tauto|].
      intros H. apply in_app_or in H. destruct H as [H|H].
      - exists g. auto.
      - destruct (IH H) as (g' & ? & ?). exists g'. auto. }
    destruct H as (g & Hg & Hn).
    apply (S [mkNet V4 134744064 24; mkNet V4 167772160 24; mkNet V4 167772416 24]
             (mkNet V4 134744064 24) ltac:(vm_compute; reflexivity) g Hg Hn).
Defined.

(** ** Printing an IPv4 address and parsing it back *)

Lemma contains_app c x y :
  contains c (x ++ y)%string = contains c x || contains c y.
Proof.
  induction x as [|d x IH]; simpl; [reflexivity|].
  rewrite IH. now rewrite orb_assoc.
Qed.

Lemma octet_text_ok_range b : 0 <= b <= 255 -> octet_text_ok b = true.
Proof.
  intros H. apply (Z_range_forallb octet_text_ok 0 256); [vm_compute; reflexivity|]. lia.
Qed.

Lemma octet_text_facts b :
  0 <= b <= 255 ->
  _parse_octet (str_int b) = Some b
  /\ contains "." (str_int b) = false
  /\ contains "/" (str_int b) = false
  /\ str_empty (str_int b) = false.
Proof.
  intros H. apply octet_text_ok_range in H. unfold octet_text_ok in H.
  rewrite !andb_true_iff, !negb_true_iff in H.
  destruct H as (((H1 & H2) & H3) & H4).
  destruct (_parse_octet (str_int b)) as [x|]; [|discriminate].
  apply Z.eqb_eq in H1. subst. auto.
Qed.

Lemma prefix_text_v4_ok_range L : 8 <= L <= 28 -> prefix_text_v4_ok L = true.
Proof.
  intros H. apply (Z_range_forallb prefix_text_v4_ok 8 21); [vm_compute; reflexivity|]. lia.
Qed.

Lemma land_255 x : 0 <= Z.land x 255 <= 255.
Proof.
  assert (E : Z.land x 255 = x mod 256).
  { change 255 with (Z.ones 8). rewrite Z.land_ones by lia. reflexivity. }
  rewrite E. pose proof (Z.mod_pos_bound x 256 ltac:(lia)). lia.
Qed.

Lemma from_bytes_octets a :
  0 <= a < 2 ^ 32 ->
  from_bytes (map (fun i => Z.land (Z.shiftr a (8 * (3 - i))) 255) [0; 1; 2; 3]) = a.
Proof.
  intros Ha. unfold from_bytes. cbn [map fold_left].
  change (8 * (3 - 0)) with 24. change (8 * (3 - 1)) with 16.
  change (8 * (3 - 2)) with 8. change (8 * (3 - 3)) with 0.
  change 255 with (Z.ones 8). rewrite !Z.land_ones by lia.
  rewrite !Z.shiftr_div_pow2 by lia.
  change (2 ^ 32) with 4294967296 in Ha.
  change (2 ^ 24) with 16777216. change (2 ^ 16) with 65536.
  change (2 ^ 8) with 256. change (2 ^ 0) with 1.
  Z.div_mod_to_equations. lia.
Qed.

Lemma split_dotted o0 o1 o2 o3 :
  contains "." o0 = false -> contains "." o1 = false ->
  contains "." o2 = false -> contains "." o3 = false ->
  split "." (join "." [o0; o1; o2; o3]) = [o0; o1; o2; o3].
Proof.
  intros H0 H1 H2 H3. unfold join. cbn [String.concat].
  change (o0 ++ "." ++ o1 ++ "." ++ o2 ++ "." ++ o3)%string
    with (o0 ++ String "." (o1 ++ String "." (o2 ++ String "." o3)))%string.
  rewrite !split_app_sep, !split_no_sep by assumption. reflexivity.
Qed.

Lemma str_addr_v4_parse a :
  0 <= a < 2 ^ 32 ->
  _ip_int_from_string_v4 (_string_from_ip_int_v4 a) = Some a
  /\ contains "/" (_string_from_ip_int_v4 a) = false.
Proof.
  intros Ha.
  pose proof (from_bytes_octets a Ha) as Hfb.
  unfold _string_from_ip_int_v4. cbn [map] in *.
  set (b0 := Z.land (Z.shiftr a (8 * (3 - 0))) 255) in *.
  set (b1 := Z.land (Z.shiftr a (8 * (3 - 1))) 255) in *.
  set (b2 := Z.land (Z.shiftr a (8 * (3 - 2))) 255) in *.
  set (b3 := Z.land (Z.shiftr a (8 * (3 - 3))) 255) in *.
  destruct (octet_text_facts b0 (land_255 _)) as (P0 & D0 & S0 & E0).
  destruct (octet_text_facts b1 (land_255 _)) as (P1 & D1 & S1 & E1).
  destruct (octet_text_facts b2 (land_255 _)) as (P2 & D2 & S2 & E2).
  destruct (octet_text_facts b3 (land_255 _)) as (P3 & D3 & S3 & E3).
  split.
  - unfold _ip_int_from_string_v4.
    rewrite (split_dotted _ _ _ _ D0 D1 D2 D3).
    assert (Hne : str_empty (join "." [str_int b0; str_int b1; str_int b2; str_int b3])
                  = false).
    { unfold join. cbn [String.concat].
      destruct (str_int b0); [discriminate|reflexivity]. }
    rewrite Hne. cbn [List.length Z.of_nat negb map_opt].
    change (Z.of_nat 4 =? 4) with true. cbn [negb].
    rewrite P0, P1, P2, P3. cbn [option_map]. now rewrite Hfb.
  - unfold join. cbn [String.concat].
    rewrite !contains_app, S0, S1, S2, S3. reflexivity.
Qed.

(** The candidate that [_find_tightest_summary] parses from the text of the
    minimum address and of the prefix length is the minimum address masked
    to that length. *)
Lemma summary_candidate_v4 min_addr L :
  0 <= min_addr < 2 ^ 32 -> 8 <= L <= 28 ->
  summary_candidate V4 min_addr L = Some (masked_candidate V4 min_addr L).
Proof.
  intros Ha HL.
  destruct (str_addr_v4_parse min_addr Ha) as (Hp & Hs).
  pose proof (prefix_text_v4_ok_range L HL) as Hk. unfold prefix_text_v4_ok in Hk.
  apply andb_true_iff in Hk. destruct Hk as (Hc & Hm). apply negb_true_iff in Hc.
  destruct (_make_netmask V4 (Some (str_int L))) as [p|] eqn:Em; [|discriminate].
  apply Z.eqb_eq in Hm. subst p.
  unfold summary_candidate, ip_network, Network_init, str_addr.
  assert (Es : _split_addr_prefix (_string_from_ip_int_v4 min_addr ++ "/" ++ str_int L)%string
               = Some (_string_from_ip_int_v4 min_addr, Some (str_int L))).
  { unfold _split_addr_prefix.
    change (_string_from_ip_int_v4 min_addr ++ "/" ++ str_int L)%string
      with (_string_from_ip_int_v4 min_addr ++ String "/" (str_int L))%string.
    rewrite split_app_sep, (split_no_sep _ _ Hs), (split_no_sep _ _ Hc). reflexivity. }
  rewrite Es. cbn [_ip_int_from_string]. rewrite Hp, Em.
  unfold masked_candidate.
  destruct (negb (Z.land min_addr (_ip_int_from_prefix V4 L) =? min_addr)) eqn:E;
    [reflexivity|].
  apply negb_false_iff, Z.eqb_eq in E. now rewrite E.
Qed.

(** ** The quotient of two positive integers is a positive float *)

Lemma py_truediv_pos a b : 0 < a -> 0 < b -> (0 < py_truediv a b)%Q.
Proof.
  intros Ha Hb. unfold py_truediv.
  destruct ((a <=? 0) || (b <=? 0)) eqn:E0.
  { apply orb_true_iff in E0. destruct E0 as [E0|E0]; apply Z.leb_le in E0; lia. }
  set (e0 := Z.log2 a - Z.log2 b).
  set (e := if b * 2 ^ Z.max e0 0 <=? a * 2 ^ Z.max (- e0) 0 then e0 else e0 - 1).
  pose proof (Z.log2_spec a Ha) as (La1 & La2).
  pose proof (Z.log2_spec b Hb) as (Lb1 & Lb2).
  pose proof (Z.log2_nonneg a) as Na. pose proof (Z.log2_nonneg b) as Nb.
  assert (He : b * 2 ^ Z.max e 0 <= a * 2 ^ Z.max (- e) 0).
  { unfold e. destruct (b * 2 ^ Z.max e0 0 <=? a * 2 ^ Z.max (- e0) 0) eqn:Et.
    - now apply Z.leb_le in Et.
    - assert (Hb' : b < 2 * 2 ^ Z.log2 b).
      { unfold Z.succ in Lb2. rewrite Z.pow_add_r in Lb2 by lia.
        change (2 ^ 1) with 2 in Lb2. lia. }
      destruct (Z_le_gt_dec 0 (e0 - 1)) as [Hs|Hs].
      + rewrite (Z.max_l (e0 - 1) 0), (Z.max_r (- (e0 - 1)) 0) by lia.
        rewrite Z.mul_1_r.
        assert (E2 : 2 ^ Z.log2 a = 2 ^ Z.log2 b * 2 * 2 ^ (e0 - 1)).
        { replace (Z.log2 a) with (Z.log2 b + 1 + (e0 - 1)) at 1 by (unfold e0; lia).
          rewrite !Z.pow_add_r by lia. reflexivity. }
        assert (0 < 2 ^ (e0 - 1)) by (apply Z.pow_pos_nonneg; lia).
        nia.
      + rewrite (Z.max_r (e0 - 1) 0), (Z.max_l (- (e0 - 1)) 0) by lia.
        rewrite Z.mul_1_r.
        assert (E2 : 2 ^ Z.log2 a * 2 ^ (- (e0 - 1)) = 2 * 2 ^ Z.log2 b).
        { rewrite <- Z.pow_add_r by lia.
          replace (Z.log2 a + - (e0 - 1)) with (1 + Z.log2 b) by (unfold e0; lia).
          rewrite Z.pow_add_r by lia. reflexivity. }
        assert (0 < 2 ^ (- (e0 - 1))) by (apply Z.pow_pos_nonneg; lia).
        nia. }
  clearbody e. clear e0 La1 La2 Lb1 Lb2 Na Nb.
  set (k := 52 - e).
  set (n := a * 2 ^ Z.max k 0). set (d := b * 2 ^ Z.max (- k) 0).
  assert (Hd : 0 < d).
  { unfold d. apply Z.mul_pos_pos; [assumption|]. apply Z.pow_pos_nonneg; lia. }
  assert (Hnd : d <= n).
  { unfold n, d, k.
    destruct (Z_le_gt_dec e 0) as [H1|H1].
    - rewrite (Z.max_l (52 - e) 0), (Z.max_r (- (52 - e)) 0) by lia.
      rewrite (Z.max_r e 0), (Z.max_l (- e) 0) in He by lia.
      replace (52 - e) with (- e + 52) by lia. rewrite Z.pow_add_r by lia.
      assert (0 < 2 ^ (- e)) by (apply Z.pow_pos_nonneg; lia).
      change (2 ^ 52) with 4503599627370496. change (2 ^ 0) with 1 in *. nia.
    - rewrite (Z.max_l e 0), (Z.max_r (- e) 0) in He by lia.
      change (2 ^ 0) with 1 in He.
      destruct (Z_le_gt_dec e 52) as [H2|H2].
      + rewrite (Z.max_l (52 - e) 0), (Z.max_r (- (52 - e)) 0) by lia.
        assert (0 < 2 ^ e) by (apply Z.pow_pos_nonneg; lia).
        assert (0 < 2 ^ (52 - e)) by (apply Z.pow_pos_nonneg; lia).
        change (2 ^ 0) with 1. nia.
      + rewrite (Z.max_r (52 - e) 0), (Z.max_l (- (52 - e)) 0) by lia.
        change (2 ^ 0) with 1.
        assert (2 ^ (- (52 - e)) <= 2 ^ e) by (apply Z.pow_le_mono_r; lia).
        assert (0 < 2 ^ (- (52 - e))) by (apply Z.pow_pos_nonneg; lia).
        nia. }
  assert (Hm : 0 < round_half_even n d).
  { unfold round_half_even.
    assert (1 <= n / d) by (apply Z.div_le_lower_bound; lia).
    destruct (2 * (n mod d) <? d); [lia|].
    destruct (d <? 2 * (n mod d)); [lia|].
    destruct (Z.even (n / d)); lia. }
  destruct (k <=? 0) eqn:Ek.
  - apply Z.leb_le in Ek.
    assert (0 < 2 ^ (- k)) by (apply Z.pow_pos_nonneg; lia).
    unfold Qlt, inject_Z. simpl. nia.
  - unfold Qlt. simpl. lia.
Qed.

(** ** Printing an IPv6 address and parsing it back *)

Lemma contains_join c sep l :
  contains c sep = false ->
  (forall x, In x l -> contains c x = false) ->
  contains c (join sep l) = false.
Proof.
  intros Hsep. unfold join. induction l as [|x r IH]; intros H; [reflexivity|].
  cbn [String.concat]. destruct r as [|y r'].
  - apply H. now left.
  - rewrite !contains_app, Hsep, (H x (or_introl eq_refl)). cbn [orb].
    apply IH. intros; apply H; now right.
Qed.

Lemma split_join c l :
  l <> [] ->
  (forall x, In x l -> contains c x = false) ->
  split c (join (String c "") l) = l.
Proof.
  unfold join. induction l as [|x r IH]; intros Hne H; [congruence|].
  cbn [String.concat]. destruct r as [|y r'].
  - apply split_no_sep, H. now left.
  - change (x ++ String c "" ++ String.concat (String c "") (y :: r'))%string
      with (x ++ String c (String.concat (String c "") (y :: r')))%string.
    rewrite split_app_sep, (split_no_sep c x (H x (or_introl eq_refl))).
    rewrite IH; [reflexivity|discriminate|intros; apply H; now right].
Qed.

Lemma join_nonempty c l :
  (2 <= List.length l)%nat -> str_empty (join (String c "") l) = false.
Proof.
  unfold join. destruct l as [|x [|y r]]; simpl; try lia. intros _.
  destruct x; reflexivity.
Qed.

Lemma firstn_In_list {A : Type} n (l : list A) x : In x (firstn n l) -> In x l.
Proof.
  intros H. rewrite <- (firstn_skipn n l). apply in_or_app. now left.
Qed.

Lemma skipn_In_list {A : Type} n (l : list A) x : In x (skipn n l) -> In x l.
Proof.
  intros H. rewrite <- (firstn_skipn n l). apply in_or_app. now right.
Qed.

Lemma compress_hextets_In hs x :
  In x (_compress_hextets hs) -> x = "" \/ In x hs.
Proof.
  unfold _compress_hextets.
  set (st := fold_left dc_step (enumerate_from 0 hs) _).
  destruct (1 <? best_doublecolon_len st); [|auto].
  set (h1 := if _ =? Z.of_nat (List.length hs) then hs ++ [""] else hs).
  assert (H1 : forall y, In y h1 -> y = "" \/ In y hs).
  { unfold h1. destruct (_ =? _); [|auto].
    intros y Hy. apply in_app_or in Hy. destruct Hy as [Hy|[<-|[]]]; auto. }
  assert (H2 : forall y, In y (firstn (Z.to_nat (best_doublecolon_start st)) h1
                               ++ [""] ++ skipn (Z.to_nat (best_doublecolon_start st
                                                           + best_doublecolon_len st)) h1) ->
                         y = "" \/ In y hs).
  { intros y Hy. apply in_app_or in Hy. destruct Hy as [Hy|Hy].
    - apply H1. eapply firstn_In_list; eauto.
    - apply in_app_or in Hy. destruct Hy as [[<-|[]]|Hy]; [now left|].
      apply H1. eapply skipn_In_list; eauto. }
  destruct (best_doublecolon_start st =? 0).
  - intros [<-|Hx]; [now left|]. now apply H2.
  - apply H2.
Qed.

(** *** The parser through the expansion of ['::'] *)

Lemma parse_hextets_None l : parse_hextets None l = None.
Proof. unfold parse_hextets. induction l; simpl; auto. Qed.

Lemma parse_hextets_app acc l1 l2 :
  parse_hextets acc (l1 ++ l2) = parse_hextets (parse_hextets acc l1) l2.
Proof. unfold parse_hextets. apply fold_left_app. Qed.

Lemma parse_hextets_zeros k x :
  parse_hextets (Some x) (repeat "0" k) = Some (Z.shiftl x (16 * Z.of_nat k)).
Proof.
  revert x. induction k as [|k IH]; intros x.
  - change (16 * Z.of_nat 0) with 0. rewrite Z.shiftl_0_r. reflexivity.
  - cbn [repeat]. change (parse_hextets (Some x) ("0" :: repeat "0" k))
      with (parse_hextets (Some (Z.lor (Z.shiftl x 16) 0)) (repeat "0" k)).
    rewrite IH, Z.lor_0_r, Z.shiftl_shiftl by lia. do 2 f_equal. lia.
Qed.

Lemma ip_int_from_parts_expand parts :
  _ip_int_from_parts parts
  = match expand_parts parts with
    | Some hs => parse_hextets (Some 0) hs
    | None => None
    end.
Proof.
  unfold _ip_int_from_parts, expand_parts.
  destruct (9 <? Z.of_nat (List.length parts)); [reflexivity|].
  destruct (find_skip (removelast (tl parts)) 1 None) as [[skip_index|]|]; [| |reflexivity].
  - cbv zeta.
    destruct (str_empty (hd "" parts) && negb (_ =? 0)); [reflexivity|].
    destruct (str_empty (last parts "") && negb (_ =? 0)); [reflexivity|].
    match goal with |- context [?s <? 1] => destruct (s <? 1) eqn:Es end; [reflexivity|].
    apply Z.ltb_ge in Es.
    rewrite !parse_hextets_app.
    destruct (parse_hextets (Some 0) (firstn _ parts)) as [x|]; cbn [option_map].
    + rewrite parse_hextets_zeros, Z2Nat.id by lia. reflexivity.
    + now rewrite !parse_hextets_None.
  - destruct (negb _); [reflexivity|].
    destruct (str_empty (hd "" parts)); [reflexivity|].
    destruct (str_empty (last parts "")); reflexivity.
Qed.

(** *** Renaming the hextet texts *)

Section Renaming.
Variable f : string -> string.
Hypothesis f_zero : forall x, (f x =? "0")%string = (x =? "0")%string.
Hypothesis f_empty : forall x, str_empty (f x) = str_empty x.

Lemma f_empty_text : f "" = "".
Proof. pose proof (f_empty "") as H. destruct (f ""); [reflexivity|discriminate]. Qed.

Lemma f_zero_text : f "0" = "0".
Proof. apply String.eqb_eq. rewrite f_zero. reflexivity. Qed.

Lemma dc_fold_map l : forall i st,
fold_left dc_step (enumerate_from i (map f l)) st
= fold_left dc_step (enumerate_from i l) st.
Proof.
induction l as [|x r IH]; intros i st; [reflexivity|].
cbn [map enumerate_from fold_left]. rewrite IH. f_equal.
unfold dc_step. now rewrite f_zero.
Qed.

Lemma compress_hextets_map l :
_compress_hextets (map f l) = map f (_compress_hextets l).
Proof.
unfold _compress_hextets. rewrite dc_fold_map, length_map.
set (st := fold_left dc_step (enumerate_from 0 l) _).
destruct (1 <? best_doublecolon_len st); [|reflexivity].
assert (E : (if best_doublecolon_start st + best_doublecolon_len st
                 =? Z.of_nat (List.length l)
             then map f l ++ [""] else map f l)
            = map f (if best_doublecolon_start st + best_doublecolon_len st
                        =? Z.of_nat (List.length l)
                     then l ++ [""] else l)).
{ destruct (_ =? _); [|reflexivity]. rewrite map_app. simpl. now rewrite f_empty_text. }
rewrite E.
destruct (best_doublecolon_start st =? 0); cbn [map];
  rewrite ?f_empty_text, !map_app, <- firstn_map, <- skipn_map; cbn [map];
  rewrite f_empty_text; reflexivity.
Qed.

Lemma find_skip_map l : forall i acc,
find_skip (map f l) i acc = find_skip l i acc.
Proof.
induction l as [|x r IH]; intros i acc; [reflexivity|].
cbn [map find_skip]. rewrite f_empty.
destruct (str_empty x); [destruct acc; [reflexivity|]|]; apply IH.
Qed.

Lemma removelast_map (l : list string) :
removelast (map f l) = map f (removelast l).
Proof.
induction l as [|x r IH]; [reflexivity|].
destruct r as [|y r']; [reflexivity|].
change (removelast (map f (x :: y :: r'))) with (f x :: removelast (map f (y :: r'))).
rewrite IH. reflexivity.
Qed.

Lemma last_map (l : list string) : last (map f l) "" = f (last l "").
Proof.
induction l as [|x r IH]; [symmetry; apply f_empty_text|].
destruct r as [|y r']; [reflexivity|].
change (last (map f (x :: y :: r')) "") with (last (map f (y :: r')) "").
rewrite IH. reflexivity.
Qed.

Lemma hd_map (l : list string) : hd "" (map f l) = f (hd "" l).
Proof. destruct l; [symmetry; apply f_empty_text|reflexivity]. Qed.

Lemma expand_parts_map parts :
expand_parts (map f parts) = option_map (map f) (expand_parts parts).
Proof.
unfold expand_parts.
rewrite length_map.
destruct (9 <? Z.of_nat (List.length parts)); [reflexivity|].
replace (tl (map f parts)) with (map f (tl parts)) by (destruct parts; reflexivity).
rewrite removelast_map, find_skip_map, hd_map, last_map, !f_empty.
destruct (find_skip (removelast (tl parts)) 1 None) as [[skip_index|]|]; [| |reflexivity].
- cbv zeta.
  destruct (str_empty (hd "" parts) && negb (_ =? 0)); [reflexivity|].
  destruct (str_empty (last parts "") && negb (_ =? 0)); [reflexivity|].
  match goal with |- context [?s <? 1] => destruct (s <? 1) end; [reflexivity|].
  cbn [option_map]. f_equal.
  unfold lastn. rewrite length_map, !map_app, <- firstn_map, <- skipn_map.
  do 2 f_equal. rewrite map_repeat, f_zero_text. reflexivity.
- destruct (negb _); [reflexivity|].
  destruct (str_empty (hd "" parts)); [reflexivity|].
  destruct (str_empty (last parts "")); reflexivity.
Qed.
End Renaming.

Lemma hextet_text_ok_range h : 0 <= h < 65536 -> hextet_text_ok h = true.
Proof.
  intros H.
  assert (E : h = 256 * (h / 256) + h mod 256) by (apply Z.div_mod; lia).
  rewrite E.
  apply (Z_range_forallb (fun lo => hextet_text_ok (256 * (h / 256) + lo)) 0 256);
    [|simpl; Z.div_mod_to_equations; lia].
  apply (Z_range_forallb
           (fun hi => forallb (fun lo => hextet_text_ok (256 * hi + lo)) (Z_range 0 256))
           0 256);
    [vm_compute; reflexivity|simpl; Z.div_mod_to_equations; lia].
Qed.

Lemma hextet_text_facts h :
  0 <= h < 65536 ->
  _parse_hextet (hex h) = Some h
  /\ str_empty (hex h) = false
  /\ contains ":" (hex h) = false
  /\ contains "." (hex h) = false
  /\ contains "/" (hex h) = false
  /\ (hex h =? "0")%string = (h =? 0).
Proof.
  intros H. apply hextet_text_ok_range in H. unfold hextet_text_ok in H. cbv zeta in H.
  rewrite !andb_true_iff, !negb_true_iff in H.
  destruct H as (((((H1 & H2) & H3) & H4) & H5) & H6).
  destruct (_parse_hextet (hex h)) as [x|]; [|discriminate].
  apply Z.eqb_eq in H1. subst x. apply Bool.eqb_prop in H6. auto 10.
Qed.

Lemma pattern_ok_all b0 b1 b2 b3 b4 b5 b6 b7 :
  pattern_ok [b0; b1; b2; b3; b4; b5; b6; b7] = true.
Proof.
  destruct b0, b1, b2, b3, b4, b5, b6, b7; vm_compute; reflexivity.
Qed.

Lemma strs_eqb_eq a : forall b, strs_eqb a b = true -> a = b.
Proof.
  induction a as [|x a IH]; intros [|y b]; simpl; try discriminate; [reflexivity|].
  intros H. apply andb_true_iff in H. destruct H as (H1 & H2).
  apply String.eqb_eq in H1. subst. f_equal. auto.
Qed.

Lemma index_text_ok_range i : 1 <= i <= 8 -> index_text_ok i = true.
Proof.
  intros H. apply (Z_range_forallb index_text_ok 1 8); [vm_compute; reflexivity|]. lia.
Qed.

Lemma retext_from_zero table : forall i x,
  1 <= i -> i + Z.of_nat (List.length table) <= 9 -> table_ok table ->
  (retext_from i table x =? "0")%string = (x =? "0")%string
  /\ str_empty (retext_from i table x) = str_empty x.
Proof.
  induction table as [|[z t] r IH]; intros i x Hi Hn Hok; [auto|].
  cbn [retext_from]. cbn [List.length] in Hn.
  destruct ((x =? str_int i)%string && negb z) eqn:G.
  - apply andb_true_iff in G. destruct G as (G1 & G2).
    apply String.eqb_eq in G1. apply negb_true_iff in G2. subst.
    destruct (Hok false t (or_introl eq_refl)) as (_ & Hf).
    destruct (Hf eq_refl) as (T1 & T2).
    pose proof (index_text_ok_range i ltac:(lia)) as Hidx. unfold index_text_ok in Hidx.
    rewrite andb_true_iff, !negb_true_iff in Hidx. destruct Hidx as (I1 & I2).
    rewrite T1, T2, I1, I2. auto.
  - apply IH; [lia|lia|]. intros z' t' Hin. apply Hok. now right.
Qed.

Lemma retext_pattern z0 t0 z1 t1 z2 t2 z3 t3 z4 t4 z5 t5 z6 t6 z7 t7 :
  table_ok [(z0, t0); (z1, t1); (z2, t2); (z3, t3);
            (z4, t4); (z5, t5); (z6, t6); (z7, t7)] ->
  map (retext_from 1 [(z0, t0); (z1, t1); (z2, t2); (z3, t3);
                      (z4, t4); (z5, t5); (z6, t6); (z7, t7)])
      (pattern_from 1 [z0; z1; z2; z3; z4; z5; z6; z7])
  = [t0; t1; t2; t3; t4; t5; t6; t7].
Proof.
  intros Hok.
  assert (H0 : z0 = true -> t0 = "0") by (apply (Hok z0 t0); simpl; auto).
  assert (H1 : z1 = true -> t1 = "0") by (apply (Hok z1 t1); simpl; auto).
  assert (H2 : z2 = true -> t2 = "0") by (apply (Hok z2 t2); simpl; auto).
  assert (H3 : z3 = true -> t3 = "0") by (apply (Hok z3 t3); simpl; auto).
  assert (H4 : z4 = true -> t4 = "0") by (apply (Hok z4 t4); simpl; auto 10).
  assert (H5 : z5 = true -> t5 = "0") by (apply (Hok z5 t5); simpl; auto 10).
  assert (H6 : z6 = true -> t6 = "0") by (apply (Hok z6 t6); simpl; auto 10).
  assert (H7 : z7 = true -> t7 = "0") by (apply (Hok z7 t7); simpl; auto 10).
  clear Hok.
  destruct z0, z1, z2, z3, z4, z5, z6, z7;
    try rewrite (H0 eq_refl); try rewrite (H1 eq_refl); try rewrite (H2 eq_refl);
    try rewrite (H3 eq_refl); try rewrite (H4 eq_refl); try rewrite (H5 eq_refl);
    try rewrite (H6 eq_refl); try rewrite (H7 eq_refl);
    reflexivity.
Qed.

Lemma land_65535 x : 0 <= Z.land x 65535 < 65536.
Proof.
  assert (E : Z.land x 65535 = x mod 65536).
  { change 65535 with (Z.ones 16). rewrite Z.land_ones by lia. reflexivity. }
  rewrite E. apply Z.mod_pos_bound. lia.
Qed.

Lemma lor_shiftl_16 x h : 0 <= h < 65536 -> Z.lor (Z.shiftl x 16) h = x * 65536 + h.
Proof.
  intros Hh.
  pose proof (Z.add_lor_land (Z.shiftl x 16) h) as E.
  assert (E0 : Z.land (Z.shiftl x 16) h = 0).
  { assert (Eh : h = Z.land h (Z.ones 16)).
    { rewrite Z.land_ones by lia. symmetry. apply Z.mod_small. exact Hh. }
    rewrite Eh, (Z.land_comm h), Z.land_assoc, Z.land_ones by lia.
    rewrite Z.shiftl_mul_pow2 by lia. rewrite Z.mod_mul by lia. apply Z.land_0_l. }
  rewrite E0, Z.add_0_r in E. rewrite E, Z.shiftl_mul_pow2 by lia. reflexivity.
Qed.

Lemma hextets_value a :
  0 <= a < 2 ^ 128 ->
  let h i := Z.land (Z.shiftr a (16 * (7 - i))) 65535 in
  Z.lor (Z.shiftl (Z.lor (Z.shiftl (Z.lor (Z.shiftl (Z.lor (Z.shiftl
    (Z.lor (Z.shiftl (Z.lor (Z.shiftl (Z.lor (Z.shiftl (Z.lor (Z.shiftl 0 16)
    (h 0)) 16) (h 1)) 16) (h 2)) 16) (h 3)) 16) (h 4)) 16) (h 5)) 16) (h 6)) 16) (h 7)
  = a.
Proof.
  intros Ha h.
  rewrite !lor_shiftl_16 by apply land_65535.
  unfold h. change 65535 with (Z.ones 16). rewrite !Z.land_ones by lia.
  rewrite !Z.shiftr_div_pow2 by lia.
  change (16 * (7 - 0)) with 112. change (16 * (7 - 1)) with 96.
  change (16 * (7 - 2)) with 80. change (16 * (7 - 3)) with 64.
  change (16 * (7 - 4)) with 48. change (16 * (7 - 5)) with 32.
  change (16 * (7 - 6)) with 16. change (16 * (7 - 7)) with 0.
  change (2 ^ 128) with 340282366920938463463374607431768211456 in Ha.
  change (2 ^ 112) with 5192296858534827628530496329220096.
  change (2 ^ 96) with 79228162514264337593543950336.
  change (2 ^ 80) with 1208925819614629174706176.
  change (2 ^ 64) with 18446744073709551616.
  change (2 ^ 48) with 281474976710656.
  change (2 ^ 32) with 4294967296.
  change (2 ^ 16) with 65536. change (2 ^ 0) with 1.
  Z.div_mod_to_equations. lia.
Qed.

Lemma last_In_or_default (l : list string) :
  last l "" = "" \/ In (last l "") l.
Proof.
  induction l as [|x r IH]; [now left|].
  destruct r as [|y r']; [right; now left|].
  change (last (x :: y :: r') "") with (last (y :: r') "").
  destruct IH as [IH|IH]; [now left|right; now right].
Qed.

(** The texts of eight hextets, compressed, expand back to themselves. *)
Lemma expand_compress_hextets h0 h1 h2 h3 h4 h5 h6 h7 :
  0 <= h0 < 65536 -> 0 <= h1 < 65536 -> 0 <= h2 < 65536 -> 0 <= h3 < 65536 ->
  0 <= h4 < 65536 -> 0 <= h5 < 65536 -> 0 <= h6 < 65536 -> 0 <= h7 < 65536 ->
  let texts := [hex h0; hex h1; hex h2; hex h3; hex h4; hex h5; hex h6; hex h7] in
  expand_parts (_compress_hextets texts) = Some texts
  /\ (3 <= List.length (_compress_hextets texts))%nat.
Proof.
  intros R0 R1 R2 R3 R4 R5 R6 R7 texts.
  set (table := [(h0 =? 0, hex h0); (h1 =? 0, hex h1); (h2 =? 0, hex h2);
                 (h3 =? 0, hex h3); (h4 =? 0, hex h4); (h5 =? 0, hex h5);
                 (h6 =? 0, hex h6); (h7 =? 0, hex h7)]).
  assert (Hok : table_ok table).
  { assert (K : forall h, 0 <= h < 65536 ->
                (((h =? 0) = true -> hex h = "0")
                 /\ ((h =? 0) = false -> (hex h =? "0")%string = false
                                         /\ str_empty (hex h) = false))).
    { intros h Hh. destruct (hextet_text_facts h Hh) as (_ & E & _ & _ & _ & Z0).
      split.
      - intros Hz. apply String.eqb_eq. now rewrite Z0.
      - intros Hz. now rewrite Z0. }
    intros z t Hin. unfold table in Hin. cbn [In] in Hin.
    repeat (destruct Hin as [Hin|Hin];
            [injection Hin as <- <-; apply K; assumption|]).
    contradiction. }
  pose proof (retext_pattern _ _ _ _ _ _ _ _ _ _ _ _ _ _ _ _ Hok) as Hre.
  fold table in Hre. fold texts in Hre.
  set (pat := pattern_from 1 [h0 =? 0; h1 =? 0; h2 =? 0; h3 =? 0;
                              h4 =? 0; h5 =? 0; h6 =? 0; h7 =? 0]) in *.
  assert (Hz : forall x, (retext_from 1 table x =? "0")%string = (x =? "0")%string).
  { intros x. apply (retext_from_zero table 1 x); [lia|simpl; lia|exact Hok]. }
  assert (He : forall x, str_empty (retext_from 1 table x) = str_empty x).
  { intros x. apply (retext_from_zero table 1 x); [lia|simpl; lia|exact Hok]. }
  pose proof (pattern_ok_all (h0 =? 0) (h1 =? 0) (h2 =? 0) (h3 =? 0)
                             (h4 =? 0) (h5 =? 0) (h6 =? 0) (h7 =? 0)) as Hp.
  unfold pattern_ok in Hp. fold pat in Hp.
  apply andb_true_iff in Hp. destruct Hp as (Hlen & Hp).
  destruct (expand_parts (_compress_hextets pat)) as [hs|] eqn:Ex; [|discriminate].
  apply strs_eqb_eq in Hp. subst hs.
  rewrite <- Hre.
  rewrite (compress_hextets_map _ Hz He), (expand_parts_map _ Hz He), Ex.
  split; [reflexivity|].
  rewrite length_map. apply Z.leb_le in Hlen. lia.
Qed.

(** The text of an IPv6 address parses back to the address, and holds
    neither ['/'] nor ['.']. *)
Lemma str_addr_v6_parse a :
  0 <= a < 2 ^ 128 ->
  _ip_int_from_string_v6 (_string_from_ip_int_v6 a) = Some a
  /\ contains "/" (_string_from_ip_int_v6 a) = false
  /\ contains "." (_string_from_ip_int_v6 a) = false.
Proof.
  intros Ha.
  pose proof (hextets_value a Ha) as Hv. cbv zeta in Hv.
  unfold _string_from_ip_int_v6. cbn [map] in *.
  set (h0 := Z.land (Z.shiftr a (16 * (7 - 0))) 65535) in *.
  set (h1 := Z.land (Z.shiftr a (16 * (7 - 1))) 65535) in *.
  set (h2 := Z.land (Z.shiftr a (16 * (7 - 2))) 65535) in *.
  set (h3 := Z.land (Z.shiftr a (16 * (7 - 3))) 65535) in *.
  set (h4 := Z.land (Z.shiftr a (16 * (7 - 4))) 65535) in *.
  set (h5 := Z.land (Z.shiftr a (16 * (7 - 5))) 65535) in *.
  set (h6 := Z.land (Z.shiftr a (16 * (7 - 6))) 65535) in *.
  set (h7 := Z.land (Z.shiftr a (16 * (7 - 7))) 65535) in *.
  destruct (hextet_text_facts h0 (land_65535 _)) as (P0 & E0 & N0 & D0 & S0 & _).
  destruct (hextet_text_facts h1 (land_65535 _)) as (P1 & E1 & N1 & D1 & S1 & _).
  destruct (hextet_text_facts h2 (land_65535 _)) as (P2 & E2 & N2 & D2 & S2 & _).
  destruct (hextet_text_facts h3 (land_65535 _)) as (P3 & E3 & N3 & D3 & S3 & _).
  destruct (hextet_text_facts h4 (land_65535 _)) as (P4 & E4 & N4 & D4 & S4 & _).
  destruct (hextet_text_facts h5 (land_65535 _)) as (P5 & E5 & N5 & D5 & S5 & _).
  destruct (hextet_text_facts h6 (land_65535 _)) as (P6 & E6 & N6 & D6 & S6 & _).
  destruct (hextet_text_facts h7 (land_65535 _)) as (P7 & E7 & N7 & D7 & S7 & _).
  destruct (expand_compress_hextets h0 h1 h2 h3 h4 h5 h6 h7
              (land_65535 _) (land_65535 _) (land_65535 _) (land_65535 _)
              (land_65535 _) (land_65535 _) (land_65535 _) (land_65535 _))
    as (Hex & Hlen).
  cbv zeta in Hex, Hlen.
  set (texts := [hex h0; hex h1; hex h2; hex h3; hex h4; hex h5; hex h6; hex h7]) in *.
  set (parts := _compress_hextets texts) in *.
  assert (Hparts : forall x, In x parts ->
                     contains ":" x = false /\ contains "." x = false
                     /\ contains "/" x = false).
  { intros x Hx. apply compress_hextets_In in Hx. destruct Hx as [->|Hx]; [auto|].
    unfold texts in Hx. cbn [In] in Hx.
    repeat (destruct Hx as [<-|Hx]; [auto|]). contradiction. }
  assert (Hne : parts <> []) by (intros E; rewrite E in Hlen; simpl in Hlen; lia).
  split; [|split].
  - unfold _ip_int_from_string_v6.
    rewrite (join_nonempty ":"%char parts) by lia.
    rewrite (split_join ":"%char parts Hne) by (intros x Hx; apply Hparts, Hx).
    assert (El : (Z.of_nat (List.length parts) <? 3) = false) by (apply Z.ltb_ge; lia).
    rewrite El.
    assert (Ed : contains "." (last parts "") = false).
    { destruct (last_In_or_default parts) as [->|Hin]; [reflexivity|].
      apply Hparts, Hin. }
    rewrite Ed, ip_int_from_parts_expand, Hex.
    unfold texts, parse_hextets. cbn [fold_left].
    rewrite P0, P1, P2, P3, P4, P5, P6, P7. f_equal. exact Hv.
  - apply contains_join; [reflexivity|]. intros x Hx. apply Hparts, Hx.
  - apply contains_join; [reflexivity|]. intros x Hx. apply Hparts, Hx.
Qed.

Lemma prefix_text_v6_ok_range L : 8 <= L <= 28 -> prefix_text_v6_ok L = true.
Proof.
  intros H. apply (Z_range_forallb prefix_text_v6_ok 8 21); [vm_compute; reflexivity|]. lia.
Qed.

Lemma ip_int_from_string_v4_no_dot s :
  contains "." s = false -> _ip_int_from_string_v4 s = None.
Proof.
  intros H. unfold _ip_int_from_string_v4.
  destruct (str_empty s); [reflexivity|].
  rewrite (split_no_sep _ _ H). reflexivity.
Qed.

(** The candidate parsed from the text of an IPv6 minimum address: the
    IPv4 attempt of [ip_network] fails, the IPv6 one gives the address
    masked to the length. *)
Lemma summary_candidate_v6 min_addr L :
  0 <= min_addr < 2 ^ 128 -> 8 <= L <= 28 ->
  summary_candidate V6 min_addr L = Some (masked_candidate V6 min_addr L).
Proof.
  intros Ha HL.
  destruct (str_addr_v6_parse min_addr Ha) as (Hp & Hs & Hd).
  pose proof (prefix_text_v6_ok_range L HL) as Hk. unfold prefix_text_v6_ok in Hk.
  apply andb_true_iff in Hk. destruct Hk as (Hc & Hm). apply negb_true_iff in Hc.
  destruct (_make_netmask V6 (Some (str_int L))) as [p|] eqn:Em; [|discriminate].
  apply Z.eqb_eq in Hm. subst p.
  unfold summary_candidate, ip_network, Network_init, str_addr.
  assert (Es : _split_addr_prefix (_string_from_ip_int_v6 min_addr ++ "/" ++ str_int L)%string
               = Some (_string_from_ip_int_v6 min_addr, Some (str_int L))).
  { unfold _split_addr_prefix.
    change (_string_from_ip_int_v6 min_addr ++ "/" ++ str_int L)%string
      with (_string_from_ip_int_v6 min_addr ++ String "/" (str_int L))%string.
    rewrite split_app_sep, (split_no_sep _ _ Hs), (split_no_sep _ _ Hc). reflexivity. }
  rewrite Es. cbn [_ip_int_from_string].
  rewrite (ip_int_from_string_v4_no_dot _ Hd), Hp, Em.
  unfold masked_candidate.
  destruct (negb (Z.land min_addr (_ip_int_from_prefix V6 L) =? min_addr)) eqn:E;
    [reflexivity|].
  apply negb_false_iff, Z.eqb_eq in E. now rewrite E.
Qed.

(** The candidate of Step B, for either version. *)
Lemma summary_candidate_masked v min_addr L :
  0 <= min_addr < 2 ^ _max_prefixlen v -> 8 <= L <= 28 ->
  summary_candidate v min_addr L = Some (masked_candidate v min_addr L).
Proof.
  destruct v; [apply summary_candidate_v4|apply summary_candidate_v6].
Qed.

(** ** The search over prefix lengths *)

Lemma all_subnet_of_forallb nets c :
  (forall n, In n nets -> version n = version c) ->
  all_subnet_of nets c = Ok (forallb (contains_net c) nets).
Proof.
  induction nets as [|n r IH]; intros Hv; [reflexivity|].
  cbn [all_subnet_of forallb]. unfold subnet_of, contains_net.
  rewrite (Hv n (or_introl eq_refl)).
  assert (E : ipver_eqb (version c) (version c) = true) by now apply ipver_eqb_eq.
  rewrite E. cbn [negb bind andb].
  destruct ((network_address c <=? network_address n)
            && (broadcast_address n <=? broadcast_address c)).
  - cbn [andb]. apply IH. intros; apply Hv; now right.
  - reflexivity.
Qed.

Lemma py_sum_pos l : l <> [] -> Forall (fun x => 0 < x) l -> 0 < py_sum l.
Proof.
  unfold py_sum. intros Hne Hl.
  assert (G : forall acc, 0 <= acc -> Forall (fun x => 0 < x) l ->
                          acc <= fold_left Z.add l acc
                          /\ (l <> [] -> acc < fold_left Z.add l acc)).
  { clear. induction l as [|x r IH]; intros acc Ha Hl; simpl.
    - split; [lia|congruence].
    - inversion Hl; subst. destruct (IH (acc + x) ltac:(lia) ltac:(assumption)).
      split; [lia|]. intros _. lia. }
  destruct (G 0 ltac:(lia) Hl) as (_ & G2). auto.
Qed.

Lemma Qle_bool_false a b : Qle_bool a b = false <-> (b < a)%Q.
Proof.
  split.
  - intros H. apply Qnot_le_lt. intros Hle. apply Qle_bool_iff in Hle. congruence.
  - intros H. destruct (Qle_bool a b) eqn:E; [|reflexivity].
    apply Qle_bool_iff in E. exfalso. now apply (Qlt_not_le _ _ H).
Qed.

Lemma Qltb_true a b : Qltb a b = true <-> (a < b)%Q.
Proof. unfold Qltb. rewrite negb_true_iff. apply Qle_bool_false. Qed.

Lemma Qltb_false a b : Qltb a b = false <-> (b <= a)%Q.
Proof. unfold Qltb. rewrite negb_false_iff. apply Qle_bool_iff. Qed.

Lemma sorted_app_lt pre x post :
  StronglySorted Z.lt (pre ++ x :: post) -> Forall (fun y => y < x) pre.
Proof.
  induction pre as [|y pre IH]; simpl; intros H; [constructor|].
  inversion H as [|? ? Hs Hy]; subst. constructor; [|auto].
  rewrite Forall_forall in Hy. apply Hy. apply in_or_app. right. now left.
Qed.

Lemma range_8_29_sorted : StronglySorted Z.lt range_8_29.
Proof.
  unfold range_8_29. cbn [seq map].
  repeat (constructor; [|repeat (constructor; [reflexivity|]); constructor]).
  constructor.
Qed.

Section StepB.
Variable v : ipver.
Variable sorted : list IPNetwork.
Variables min_addr minp : Z.
Hypothesis sorted_nonempty : sorted <> [].
Hypothesis sorted_wf : Forall wf_net sorted.
Hypothesis sorted_version : forall n, In n sorted -> version n = v.
Hypothesis min_addr_range : 0 <= min_addr < 2 ^ _max_prefixlen v.

Local Abbreviation valid := (stepB_valid v sorted min_addr minp).
Local Abbreviation eff := (stepB_eff v sorted min_addr).
Local Abbreviation entry := (stepB_entry v sorted min_addr).
Local Abbreviation scan := (scan_prefix_lengths sorted v min_addr minp).

Lemma stepB_eff_pos L : 0 <= L <= 32 -> (0 < eff L)%Q.
Proof.
  intros HL.
  assert (HL' : 0 <= L <= _max_prefixlen v) by (destruct v; simpl; lia).
  unfold stepB_eff, efficiency. apply py_truediv_pos.
  - apply py_sum_pos.
    + destruct sorted; [congruence|discriminate].
    + rewrite Forall_forall. intros x Hx. apply in_map_iff in Hx.
      destruct Hx as (n & <- & Hn). apply num_addresses_pos.
      rewrite Forall_forall in sorted_wf. auto.
  - apply num_addresses_pos. unfold masked_candidate.
    apply masked_address_wf. exact HL'.
Qed.

Lemma scan_step L rest best be :
  8 <= L <= 28 ->
  scan (L :: rest) best be
  = if valid L then
      if Qle_bool float_0_05 (eff L) then Ok (Some (entry L))
      else scan rest
                (if Qltb be (eff L) then Some (entry L) else best)
                (if Qltb be (eff L) then eff L else be)
    else scan rest best be.
Proof.
  intros HL. cbn [scan_prefix_lengths].
  rewrite (summary_candidate_masked v min_addr L min_addr_range HL).
  rewrite all_subnet_of_forallb by (intros n Hn; rewrite (sorted_version n Hn); reflexivity).
  cbn [bind]. unfold stepB_valid, valid_candidate.
  change (prefixlen (masked_candidate v min_addr L)) with L.
  destruct (forallb (contains_net (masked_candidate v min_addr L)) sorted);
    cbn [andb]; [|reflexivity].
  destruct (L <? minp); [|reflexivity].
  unfold stepB_eff, stepB_entry.
  destruct (Qle_bool float_0_05 (efficiency sorted (masked_candidate v min_addr L)));
    reflexivity.
Qed.

Lemma scan_first_hit pre : forall best be L post,
  (forall L', In L' pre ->
              8 <= L' <= 28 /\ (valid L' = true -> (eff L' < float_0_05)%Q)) ->
  8 <= L <= 28 -> valid L = true -> (float_0_05 <= eff L)%Q ->
  scan (pre ++ L :: post) best be = Ok (Some (entry L)).
Proof.
  induction pre as [|L0 pre IH]; intros best be L post Hpre HL Hv He; cbn [app].
  - rewrite scan_step by assumption. rewrite Hv.
    apply Qle_bool_iff in He. now rewrite He.
  - destruct (Hpre L0 (or_introl eq_refl)) as (HL0 & H0).
    rewrite scan_step by assumption.
    assert (Hrest : forall L', In L' pre ->
              8 <= L' <= 28 /\ (valid L' = true -> (eff L' < float_0_05)%Q))
      by (intros; apply Hpre; now right).
    destruct (valid L0) eqn:Ev0; [|now apply IH].
    rewrite (proj2 (Qle_bool_false _ _) (H0 eq_refl)). now apply IH.
Qed.

(** Without an early exit the scan returns the first of the valid
    candidates of highest efficiency; [bestL] is the length whose
    candidate is the best so far. *)
Lemma scan_no_hit pls : forall bestL,
  (forall L, In L pls ->
             8 <= L <= 28 /\ (valid L = true -> (eff L < float_0_05)%Q)) ->
  (forall Lb, bestL = Some Lb -> 8 <= Lb <= 28 /\ valid Lb = true) ->
  exists rL,
    scan pls (option_map entry bestL)
         (match bestL with Some Lb => eff Lb | None => 0%Q end)
    = Ok (option_map entry rL)
    /\ match rL with
       | None => bestL = None /\ forall L, In L pls -> valid L = false
       | Some Lr =>
           8 <= Lr <= 28 /\ valid Lr = true
           /\ (bestL = Some Lr \/ In Lr pls)
           /\ (forall L, In L pls -> valid L = true -> (eff L <= eff Lr)%Q)
           /\ (forall Lb, bestL = Some Lb -> (eff Lb <= eff Lr)%Q)
       end.
Proof.
  induction pls as [|L rest IH]; intros bestL Hpls Hbest.
  - exists bestL. cbn [scan_prefix_lengths].
    destruct bestL as [Lb|]; cbn [option_map].
    + destruct (Hbest Lb eq_refl) as (HLb & Hvb).
      rewrite (proj2 (Qltb_true _ _) (stepB_eff_pos Lb ltac:(lia))).
      split; [reflexivity|]. repeat split; auto; try lia.
      * intros L [].
      * intros Lb' [= <-]. apply Qle_refl.
    + split; [reflexivity|]. split; [reflexivity|]. intros L [].
  - destruct (Hpls L (or_introl eq_refl)) as (HL & Hlow).
    assert (Hrest : forall L', In L' rest ->
              8 <= L' <= 28 /\ (valid L' = true -> (eff L' < float_0_05)%Q))
      by (intros; apply Hpls; now right).
    rewrite scan_step by assumption.
    destruct (valid L) eqn:Ev.
    + rewrite (proj2 (Qle_bool_false _ _) (Hlow eq_refl)).
      set (be := match bestL with Some Lb => eff Lb | None => 0%Q end).
      destruct (Qltb be (eff L)) eqn:Eb.
      * apply Qltb_true in Eb.
        destruct (IH (Some L) Hrest) as (rL & Hscan & Hr).
        { intros Lb [= <-]. auto. }
        cbn [option_map] in Hscan. exists rL. split; [exact Hscan|].
        destruct rL as [Lr|]; [|destruct Hr as (Hr & _); discriminate].
        destruct Hr as (R1 & R2 & R3 & R4 & R5).
        specialize (R5 L eq_refl).
        split; [assumption|]. split; [assumption|]. split.
        { right. destruct R3 as [[= <-]|R3]; [now left|now right]. }
        split.
        { intros L' [<-|HL'] Hv'; [assumption|auto]. }
        { intros Lb ->. unfold be in Eb.
          eapply Qle_trans; [apply Qlt_le_weak; exact Eb|exact R5]. }
      * apply Qltb_false in Eb.
        destruct (IH bestL Hrest Hbest) as (rL & Hscan & Hr).
        fold be in Hscan. exists rL. split; [exact Hscan|].
        destruct rL as [Lr|].
        -- destruct Hr as (R1 & R2 & R3 & R4 & R5).
           split; [assumption|]. split; [assumption|]. split.
           { destruct R3 as [R3|R3]; [now left|right; now right]. }
           split; [|assumption].
           intros L' [<-|HL'] Hv'; [|auto].
           destruct bestL as [Lb|].
           ++ eapply Qle_trans; [exact Eb|]. now apply R5.
           ++ exfalso. unfold be in Eb.
              pose proof (stepB_eff_pos L ltac:(lia)) as Hpos.
              now apply (Qlt_not_le _ _ Hpos).
        -- destruct Hr as (-> & Hr). exfalso. unfold be in Eb.
           pose proof (stepB_eff_pos L ltac:(lia)) as Hpos.
           now apply (Qlt_not_le _ _ Hpos).
    + destruct (IH bestL Hrest Hbest) as (rL & Hscan & Hr).
      exists rL. split; [exact Hscan|].
      destruct rL as [Lr|].
      * destruct Hr as (R1 & R2 & R3 & R4 & R5).
        split; [assumption|]. split; [assumption|]. split.
        { destruct R3 as [R3|R3]; [now left|right; now right]. }
        split; [|assumption].
        intros L' [<-|HL'] Hv'; [congruence|auto].
      * destruct Hr as (-> & Hr). split; [reflexivity|].
        intros L' [<-|HL']; auto.
Qed.
End StepB.

(** When Step A fails on a group of networks of one version,
    [_find_tightest_summary] returns what the scan over [range(8, 29)]
    returns, started without a best candidate. *)
Lemma find_tightest_summary_scan v g sorted min_addr minp :
  (forall n, In n g -> version n = v) ->
  2 <= Z.of_nat (List.length g) ->
  sorted_nets lt_addr g = Ok sorted ->
  (collapsed <- collapse_addresses sorted ;; exact_collapse sorted collapsed) = Ok None ->
  py_min (map network_address sorted) = Ok min_addr ->
  py_min (map prefixlen sorted) = Ok minp ->
  _find_tightest_summary g
  = match scan_prefix_lengths sorted v min_addr minp range_8_29 None 0%Q with
    | Ok r => r
    | Raise _ => None
    end.
Proof.
  intros Hv Hlen Hs Ha Hma Hmp. unfold _find_tightest_summary.
  destruct (Z.of_nat (List.length g) <? 2) eqn:El; [apply Z.ltb_lt in El; lia|].
  unfold tightest_summary_body. rewrite Hs. cbn [bind].
  apply bind_Ok in Ha. destruct Ha as (collapsed & Ec & Ea).
  rewrite Ec. cbn [bind]. rewrite Ea. cbn [bind]. rewrite Hma, Hmp. cbn [bind].
  apply sorted_nets_Ok in Hs. destruct Hs as (_ & ->).
  destruct (stable_sort lt_addr g) as [|n r] eqn:E; [discriminate Hma|].
  rewrite (Hv n); [reflexivity|].
  apply (proj1 (stable_sort_In lt_addr g n)). rewrite E. now left.
Qed.

(** C7.  Step B, for a group of networks of one IP version on which Step A
    fails (the groups that the engine builds hold one version).  The
    candidates are the minimum network address of the group masked to the
    lengths 8 to 28, in ascending order; a candidate is valid when it
    contains every member and its length is strictly less than the minimum
    member prefix length.  The first valid candidate whose efficiency is at
    least 0.05 is returned at once; when no valid candidate reaches 0.05
    but some candidate is valid, a valid candidate of highest efficiency is
    returned; when no candidate is valid, no summary is returned. *)
Theorem step_B_search v g sorted min_addr minp :
  Forall wf_net g ->
  (forall n, In n g -> version n = v) ->
  2 <= Z.of_nat (List.length g) ->
  sorted_nets lt_addr g = Ok sorted ->
  (collapsed <- collapse_addresses sorted ;; exact_collapse sorted collapsed) = Ok None ->
  py_min (map network_address sorted) = Ok min_addr ->
  py_min (map prefixlen sorted) = Ok minp ->
  (forall L,
      8 <= L <= 28 ->
      stepB_valid v sorted min_addr minp L = true ->
      (float_0_05 <= stepB_eff v sorted min_addr L)%Q ->
      (forall L', 8 <= L' < L ->
                  stepB_valid v sorted min_addr minp L' = true ->
                  (stepB_eff v sorted min_addr L' < float_0_05)%Q) ->
      _find_tightest_summary g = Some (stepB_entry v sorted min_addr L))
  /\ ((forall L, 8 <= L <= 28 ->
                 stepB_valid v sorted min_addr minp L = true ->
                 (stepB_eff v sorted min_addr L < float_0_05)%Q) ->
      (exists L, 8 <= L <= 28 /\ stepB_valid v sorted min_addr minp L = true) ->
      exists L,
        8 <= L <= 28
        /\ stepB_valid v sorted min_addr minp L = true
        /\ _find_tightest_summary g = Some (stepB_entry v sorted min_addr L)
        /\ forall L', 8 <= L' <= 28 ->
                      stepB_valid v sorted min_addr minp L' = true ->
                      (stepB_eff v sorted min_addr L' <= stepB_eff v sorted min_addr L)%Q)
  /\ ((forall L, 8 <= L <= 28 -> stepB_valid v sorted min_addr minp L = false) ->
      _find_tightest_summary g = None).
Proof.
  intros Hwf Hv Hlen Hs Ha Hma Hmp.
  rewrite (find_tightest_summary_scan v g sorted min_addr minp Hv Hlen Hs Ha Hma Hmp).
  pose proof (sorted_nets_Ok _ _ _ Hs) as (_ & Es).
  assert (Hne : sorted <> []).
  { intros E. pose proof (stable_sort_length lt_addr g) as HL.
    rewrite <- Es, E in HL. simpl in HL. rewrite <- HL in Hlen. simpl in Hlen. lia. }
  assert (Hin : forall n, In n sorted -> In n g).
  { intros n Hn. subst sorted. exact (proj1 (stable_sort_In lt_addr g n) Hn). }
  assert (Hws : Forall wf_net sorted).
  { rewrite Forall_forall in *. auto. }
  assert (Hvs : forall n, In n sorted -> version n = v) by auto.
  assert (Hrange : 0 <= min_addr < 2 ^ _max_prefixlen v).
  { destruct (py_min_spec _ _ Hma) as (Hm & _). apply in_map_iff in Hm.
    destruct Hm as (n & <- & Hn). rewrite Forall_forall in Hws.
    destruct (Hws n Hn) as (_ & Hr & _). rewrite (Hvs n Hn) in Hr. exact Hr. }
  split; [|split].
  - intros L HL Hvalid Heff Hbefore.
    destruct (in_split L range_8_29 (proj2 (range_8_29_spec L) HL)) as (pre & post & E).
    pose proof range_8_29_sorted as Hsorted. rewrite E in Hsorted.
    pose proof (sorted_app_lt _ _ _ Hsorted) as Hpre. rewrite Forall_forall in Hpre.
    rewrite E.
    rewrite (scan_first_hit v sorted min_addr minp Hvs Hrange pre None 0%Q L post);
      auto.
    intros L' HL'.
    assert (HL'r : 8 <= L' <= 28).
    { apply range_8_29_spec. rewrite E. apply in_or_app. now left. }
    split; [assumption|]. intros Hv'. apply Hbefore; [|assumption].
    specialize (Hpre L' HL'). lia.
  - intros Hlow (L0 & HL0 & Hv0).
    destruct (scan_no_hit v sorted min_addr minp Hne Hws Hvs Hrange range_8_29 None)
      as (rL & Hscan & Hr).
    + intros L HL. apply range_8_29_spec in HL. auto.
    + discriminate.
    + cbn [option_map] in Hscan. rewrite Hscan.
      destruct rL as [Lr|].
      * destruct Hr as (R1 & R2 & R3 & R4 & _).
        exists Lr. split; [assumption|]. split; [assumption|]. split; [reflexivity|].
        intros L' HL' Hv'. apply R4; [|assumption]. now apply range_8_29_spec.
      * destruct Hr as (_ & Hr).
        rewrite (Hr L0 (proj2 (range_8_29_spec L0) HL0)) in Hv0. discriminate.
  - intros Hnone.
    destruct (scan_no_hit v sorted min_addr minp Hne Hws Hvs Hrange range_8_29 None)
      as (rL & Hscan & Hr).
    + intros L HL. apply range_8_29_spec in HL. split; [assumption|].
      intros Hv'. rewrite (Hnone L HL) in Hv'. discriminate.
    + discriminate.
    + cbn [option_map] in Hscan. rewrite Hscan.
      destruct rL as [Lr|]; [|reflexivity].
      destruct Hr as (R1 & R2 & _). rewrite (Hnone Lr R1) in R2. discriminate.
Qed.

Lemma step_B_search_witness :
  _find_tightest_summary [mkNet V4 3232235776 24; mkNet V4 3232236288 24]
  = Some (stepB_entry V4 [mkNet V4 3232235776 24; mkNet V4 3232236288 24] 3232235776 19).
Proof.
  refine (proj1 (step_B_search V4
                   [mkNet V4 3232235776 24; mkNet V4 3232236288 24]
                   [mkNet V4 3232235776 24; mkNet V4 3232236288 24]
                   3232235776 24 _ _ _ _ _ _ _) 19 _ _ _ _).
  - repeat constructor; vm_compute; try reflexivity; intros H; discriminate H.
  - intros n [<-|[<-|[]]]; reflexivity.
  - simpl. lia.
  - vm_compute. reflexivity.
  - vm_compute. reflexivity.
  - vm_compute. reflexivity.
  - vm_compute. reflexivity.
  - lia.
  - vm_compute. reflexivity.
  - vm_compute. intros H. discriminate H.
  - intros L' HL' _.
    assert (HL : L' = 8 \/ L' = 9 \/ L' = 10 \/ L' = 11 \/ L' = 12 \/ L' = 13
                 \/ L' = 14 \/ L' = 15 \/ L' = 16 \/ L' = 17 \/ L' = 18) by lia.
    repeat (destruct HL as [->|HL]; [vm_compute; reflexivity|]).
    subst L'. vm_compute. reflexivity.
Defined.

(** * Further properties: the generator, the parser and the engine as a whole *)

(** ** Printing a network and parsing it back *)

Lemma prefix_text_v4_ok_all L : 0 <= L <= 32 -> prefix_text_v4_ok L = true.
Proof.
  intros H. apply (Z_range_forallb prefix_text_v4_ok 0 33); [vm_compute; reflexivity|]. lia.
Qed.

Lemma prefix_text_v6_ok_all L : 0 <= L <= 128 -> prefix_text_v6_ok L = true.
Proof.
  intros H. apply (Z_range_forallb prefix_text_v6_ok 0 129); [vm_compute; reflexivity|]. lia.
Qed.

Lemma prefix_text_facts v L :
  0 <= L <= _max_prefixlen v ->
  contains "/" (str_int L) = false /\ _make_netmask v (Some (str_int L)) = Some L.
Proof.
  intros HL. destruct v; cbn [_max_prefixlen] in HL.
  - pose proof (prefix_text_v4_ok_all L HL) as Hk. unfold prefix_text_v4_ok in Hk.
    apply andb_true_iff in Hk. destruct Hk as (Hc & Hm). apply negb_true_iff in Hc.
    destruct (_make_netmask V4 (Some (str_int L))) as [p|]; [|discriminate].
    apply Z.eqb_eq in Hm. subst p. auto.
  - pose proof (prefix_text_v6_ok_all L HL) as Hk. unfold prefix_text_v6_ok in Hk.
    apply andb_true_iff in Hk. destruct Hk as (Hc & Hm). apply negb_true_iff in Hc.
    destruct (_make_netmask V6 (Some (str_int L))) as [p|]; [|discriminate].
    apply Z.eqb_eq in Hm. subst p. auto.
Qed.

Lemma wf_net_land_netmask n :
  wf_net n -> Z.land (network_address n) (netmask n) = network_address n.
Proof.
  intros (Hp & Ha & Hm). unfold netmask.
  rewrite ip_int_from_prefix_closed by assumption.
  rewrite land_high_mask by lia. lia.
Qed.

Lemma str_addr_parse v a :
  0 <= a < 2 ^ _max_prefixlen v ->
  _ip_int_from_string v (str_addr v a) = Some a
  /\ contains "/" (str_addr v a) = false.
Proof.
  intros Ha. destruct v; cbn [_ip_int_from_string str_addr].
  - apply str_addr_v4_parse. exact Ha.
  - destruct (str_addr_v6_parse a Ha) as (H1 & H2 & _). auto.
Qed.

Lemma split_addr_prefix_text x m :
  contains "/" x = false -> contains "/" m = false ->
  _split_addr_prefix (x ++ "/" ++ m)%string = Some (x, Some m).
Proof.
  intros Hx Hm. unfold _split_addr_prefix.
  change (x ++ "/" ++ m)%string with (x ++ String "/" m)%string.
  rewrite split_app_sep, (split_no_sep _ _ Hx), (split_no_sep _ _ Hm). reflexivity.
Qed.

Lemma Network_init_str_net n :
  wf_net n -> Network_init (version n) (str_net n) = Some n.
Proof.
  intros Hwf. pose proof Hwf as (Hp & Ha & Hm).
  destruct (str_addr_parse (version n) (network_address n) Ha) as (Hparse & Hs).
  destruct (prefix_text_facts (version n) (prefixlen n) Hp) as (Hc & Hmask).
  unfold Network_init, str_net.
  rewrite (split_addr_prefix_text _ _ Hs Hc), Hparse, Hmask.
  pose proof (wf_net_land_netmask n Hwf) as Hl. unfold netmask in Hl.
  rewrite Hl, Z.eqb_refl. cbn [negb]. destruct n; reflexivity.
Qed.

(** [ip_network(str(net)) == net] *)
Lemma ip_network_str_net n : wf_net n -> ip_network (str_net n) = Some n.
Proof.
  intros Hwf. unfold ip_network.
  destruct (version n) eqn:Ev.
  - pose proof (Network_init_str_net n Hwf) as H. rewrite Ev in H. now rewrite H.
  - pose proof Hwf as (Hp & Ha & Hm). rewrite Ev in Ha, Hp.
    destruct (str_addr_v6_parse (network_address n) Ha) as (_ & Hs & Hd).
    destruct (prefix_text_facts V6 (prefixlen n) Hp) as (Hc & _).
    assert (E4 : Network_init V4 (str_net n) = None).
    { unfold Network_init, str_net. rewrite Ev. cbn [str_addr].
      rewrite (split_addr_prefix_text _ _ Hs Hc). cbn [_ip_int_from_string].
      now rewrite (ip_int_from_string_v4_no_dot _ Hd). }
    rewrite E4. pose proof (Network_init_str_net n Hwf) as H. now rewrite Ev in H.
Qed.

Lemma str_net_inj n m : wf_net n -> wf_net m -> str_net n = str_net m -> n = m.
Proof.
  intros Hn Hm E. pose proof (ip_network_str_net n Hn) as H1.
  rewrite E, (ip_network_str_net m Hm) in H1. congruence.
Qed.

(** ** [ip_to_netmask] *)

Lemma netmask_range n :
  0 <= prefixlen n <= _max_prefixlen (version n) ->
  0 <= netmask n < 2 ^ _max_prefixlen (version n).
Proof.
  intros Hp. unfold netmask. rewrite ip_int_from_prefix_closed by assumption.
  pose proof (max_prefixlen_pos (version n)) as Hw.
  assert (H1 : 0 < 2 ^ (_max_prefixlen (version n) - prefixlen n))
    by (apply Z.pow_pos_nonneg; lia).
  assert (H2 : 2 ^ (_max_prefixlen (version n) - prefixlen n)
               <= 2 ^ _max_prefixlen (version n))
    by (apply Z.pow_le_mono_r; lia).
  lia.
Qed.

Lemma netmask_text_v4 p :
  0 <= p <= 32 ->
  _make_netmask V4 (Some (str_addr V4 (_ip_int_from_prefix V4 p))) = Some p.
Proof.
  intros Hp.
  assert (H : (match _make_netmask V4 (Some (str_addr V4 (_ip_int_from_prefix V4 p))) with
               | Some q => q =? p
               | None => false
               end) = true).
  { apply (Z_range_forallb
             (fun p => match _make_netmask V4
                                (Some (str_addr V4 (_ip_int_from_prefix V4 p))) with
                       | Some q => q =? p
                       | None => false
                       end) 0 33); [vm_compute; reflexivity|lia]. }
  destruct (_make_netmask V4 (Some (str_addr V4 (_ip_int_from_prefix V4 p)))) as [q|];
    [|discriminate].
  apply Z.eqb_eq in H. now subst q.
Qed.

(** X1.  On the text of a network, as [str(net)] prints it, [ip_to_netmask]
    returns the text of its address and the text of its netmask: it does
    not raise, for either IP version. *)
Theorem ip_to_netmask_str_net n :
  wf_net n ->
  ip_to_netmask (str_net n)
  = Ok (str_addr (version n) (network_address n), str_addr (version n) (netmask n)).
Proof.
  intros Hwf. unfold ip_to_netmask. now rewrite (ip_network_str_net n Hwf).
Qed.

Lemma ip_to_netmask_str_net_witness :
  ip_to_netmask (str_net (mkNet V6 (2 ^ 127) 1))
  = Ok (str_addr V6 (2 ^ 127), str_addr V6 (netmask (mkNet V6 (2 ^ 127) 1))).
Proof.
  apply (ip_to_netmask_str_net (mkNet V6 (2 ^ 127) 1)).
  unfold wf_net. vm_compute. repeat split; intros H; discriminate H.
Defined.

(** X2.  For an IPv4 network given in any accepted notation, the address
    and the netmask that [ip_to_netmask] returns, joined by ['/'], are
    accepted by [ip_network] and denote the same network as the input. *)
Theorem ip_to_netmask_roundtrip_v4 network n :
  ip_network network = Some n -> version n = V4 ->
  exists ip mask,
    ip_to_netmask network = Ok (ip, mask)
    /\ ip_network (ip ++ "/" ++ mask) = Some n.
Proof.
  intros Hn Hv. pose proof (ip_network_wf _ _ Hn) as Hwf.
  pose proof Hwf as (Hp & Ha & Hm). rewrite Hv in Hp, Ha. cbn [_max_prefixlen] in Hp, Ha.
  unfold ip_to_netmask. rewrite Hn, Hv.
  eexists. eexists. split; [reflexivity|].
  destruct (str_addr_v4_parse (network_address n) Ha) as (Hparse & Hs).
  pose proof (netmask_range n) as Hr. rewrite Hv in Hr. specialize (Hr Hp).
  destruct (str_addr_v4_parse (netmask n) Hr) as (_ & Hsm).
  unfold ip_network, Network_init. cbn [str_addr].
  rewrite (split_addr_prefix_text _ _ Hs Hsm). cbn [_ip_int_from_string].
  rewrite Hparse.
  pose proof (netmask_text_v4 (prefixlen n) Hp) as Hmask. cbn [str_addr] in Hmask.
  unfold netmask at 1. rewrite Hv, Hmask.
  pose proof (wf_net_land_netmask n Hwf) as Hl. unfold netmask in Hl. rewrite Hv in Hl.
  rewrite Hl, Z.eqb_refl. cbn [negb]. destruct n; cbn in Hv; subst; reflexivity.
Qed.

Lemma ip_to_netmask_roundtrip_v4_witness :
  exists ip mask,
    ip_to_netmask "10.1.2.3/0.0.0.255" = Ok (ip, mask)
    /\ ip_network (ip ++ "/" ++ mask) = Some (mkNet V4 167838208 24).
Proof.
  apply (ip_to_netmask_roundtrip_v4 "10.1.2.3/0.0.0.255" (mkNet V4 167838208 24)).
  - vm_compute. reflexivity.
  - reflexivity.
Defined.

(** X3.  Whatever [ip_to_netmask] returns parses back, with the parser of
    one IP version, to an address and a mask of which the address has no
    bit outside the mask (host bits of the input are dropped), the mask
    being the netmask of a prefix length of that version. *)
Theorem ip_to_netmask_no_host_bits network ip mask :
  ip_to_netmask network = Ok (ip, mask) ->
  exists v a p,
    0 <= p <= _max_prefixlen v
    /\ _ip_int_from_string v ip = Some a
    /\ _ip_int_from_string v mask = Some (_ip_int_from_prefix v p)
    /\ Z.land a (_ip_int_from_prefix v p) = a.
Proof.
  unfold ip_to_netmask. intros H.
  destruct (ip_network network) as [n|] eqn:Hn; [|discriminate].
  injection H as <- <-.
  pose proof (ip_network_wf _ _ Hn) as Hwf. pose proof Hwf as (Hp & Ha & Hm).
  exists (version n), (network_address n), (prefixlen n).
  split; [exact Hp|]. split; [apply str_addr_parse; exact Ha|]. split.
  - apply (str_addr_parse (version n) (netmask n)). apply netmask_range. exact Hp.
  - apply (wf_net_land_netmask n Hwf).
Qed.

Lemma ip_to_netmask_no_host_bits_witness :
  exists v a p,
    0 <= p <= _max_prefixlen v
    /\ _ip_int_from_string v "10.1.2.0" = Some a
    /\ _ip_int_from_string v "255.255.255.0" = Some (_ip_int_from_prefix v p)
    /\ Z.land a (_ip_int_from_prefix v p) = a.
Proof.
  apply (ip_to_netmask_no_host_bits "10.1.2.3/24" "10.1.2.0" "255.255.255.0").
  vm_compute. reflexivity.
Defined.

(** ** The networks that [collapse_addresses] returns are well formed *)

Lemma skip_subsumed_In l : forall last x, In x (skip_subsumed last l) -> In x l.
Proof.
  induction l as [|n r IH]; intros last x H; [contradiction|].
  cbn [skip_subsumed] in H. destruct last as [la|].
  - destruct (broadcast_address n <=? broadcast_address la).
    + right. eapply IH; eassumption.
    + destruct H as [<-|H]; [now left|right; eapply IH; eassumption].
  - destruct H as [<-|H]; [now left|right; eapply IH; eassumption].
Qed.

Lemma merge_weight_rev l : merge_weight (rev l) = merge_weight l.
Proof.
  unfold merge_weight. induction l as [|a l IH]; simpl; [reflexivity|].
  rewrite fold_right_app. simpl. rewrite <- IH.
  generalize (rev l). intros l'. induction l' as [|b l' IH']; simpl; lia.
Qed.

Lemma collapse_internal_wf addresses out :
  Forall wf_net addresses ->
  _collapse_addresses_internal addresses = Ok out ->
  Forall wf_net out.
Proof.
  intros Hwf H. unfold _collapse_addresses_internal in H.
  set (sn := merge_loop (merge_fuel addresses) (rev addresses) []) in *.
  destruct (sorted_nets net_lt (map snd sn)) as [sorted|] eqn:ES; [|discriminate].
  cbn [bind] in H. injection H as <-.
  apply sorted_nets_Ok in ES. destruct ES as (_ & ->).
  assert (Hsn : subnets_ok sn).
  { destruct addresses as [|a0 r] eqn:Ea.
    - unfold sn. cbn. constructor.
    - rewrite <- Ea in *.
      assert (Hrev : Forall wf_net (rev addresses)).
      { rewrite Forall_forall in *. intros y Hy. apply Hwf. now apply in_rev. }
      destruct (merge_loop_covers (merge_fuel addresses) (rev addresses) [] a0) as (_ & Hm).
      + assumption.
      + constructor.
      + rewrite merge_weight_rev. unfold merge_fuel. fold (merge_weight addresses).
        pose proof (merge_weight_nonneg addresses Hwf). simpl List.length. lia.
      + rewrite app_nil_r. exists a0. split; [|apply covers_refl].
        apply -> in_rev. rewrite Ea. now left.
      + unfold sn. rewrite <- Ea. exact Hm. }
  rewrite Forall_forall. intros x Hx. apply skip_subsumed_In in Hx.
  apply (proj1 (stable_sort_In net_lt _ x)) in Hx. apply in_map_iff in Hx.
  destruct Hx as (kv & <- & Hkv). unfold subnets_ok in Hsn.
  rewrite Forall_forall in Hsn. apply (Hsn kv Hkv).
Qed.

Lemma collapse_addresses_wf addresses out :
  Forall wf_net addresses ->
  collapse_addresses addresses = Ok out ->
  Forall wf_net out.
Proof.
  intros Hwf H. unfold collapse_addresses in H.
  destruct (split_ips_nets addresses [] []) as [[ips nets]|] eqn:Es; [|discriminate].
  cbn [bind] in H.
  destruct (split_ips_nets_spec addresses [] [] ips nets Es ltac:(intros a b []))
    as (I1 & I2 & I3 & _ & _ & _).
  rewrite Forall_forall in Hwf.
  eapply collapse_internal_wf; [|exact H].
  apply Forall_app. split.
  - destruct ips as [|[v a0] t] eqn:Eips; [constructor|]. rewrite <- Eips in *.
    assert (Hv : forall e, In e ips -> fst e = v).
    { intros e He. apply (I1 e (v, a0)); [assumption|]. rewrite Eips. now left. }
    assert (Hips : forall e, In e ips -> 0 <= snd e <= _ALL_ONES (fst e)).
    { intros e He. destruct (I2 e He) as [[]|(m & Hm & Hp & ->)].
      destruct (Hwf m Hm) as (_ & Ha & _). unfold _ALL_ONES. cbn [fst snd]. lia. }
    set (sorted_ips := stable_sort Z.ltb (nodup Z.eq_dec (map snd ips))).
    assert (HP : Forall (fun a => 0 <= a <= _ALL_ONES v) sorted_ips).
    { rewrite Forall_forall. intros a Ha.
      apply (stable_sort_In Z.ltb), nodup_In, in_map_iff in Ha.
      destruct Ha as (e & <- & He). rewrite <- (Hv e He). now apply Hips. }
    destruct (find_address_range_spec _ _ HP) as (R1 & _).
    rewrite Forall_forall in R1.
    rewrite Forall_forall. intros m Hm. apply in_flat_map in Hm.
    destruct Hm as (fl & Hfl & Hm). destruct (R1 fl Hfl) as (? & (? & ?) & (? & ?)).
    pose proof (summarize_loop_wf (Z.to_nat (snd fl - fst fl + 1)) v (fst fl) (snd fl)
                  ltac:(lia) ltac:(lia)) as W.
    rewrite Forall_forall in W. now apply W.
  - rewrite Forall_forall. intros m Hm.
    destruct (I3 m Hm) as [[]|Hin]. now apply Hwf.
Qed.

(** ** A property of every entry of the mapping *)

(** What [_find_tightest_summary] returns is the text of a well-formed
    network that covers the members of the group, with their texts. *)
Lemma scan_prefix_lengths_wf sorted v min_addr minp : forall pls best be e,
  (forall b, best = Some b -> entry_wf sorted b) ->
  2 <= Z.of_nat (List.length sorted) ->
  scan_prefix_lengths sorted v min_addr minp pls best be = Ok (Some e) ->
  entry_wf sorted e.
Proof.
  induction pls as [|L rest IH]; intros best be e Hbest Hlen H;
    cbn [scan_prefix_lengths] in H.
  - destruct best as [b|]; [|discriminate].
    destruct (Qltb 0 be); [|discriminate]. injection H as <-. auto.
  - destruct (summary_candidate v min_addr L) as [c|] eqn:Ec; [|eauto].
    destruct (all_subnet_of sorted c) as [[|]|] eqn:Ea; cbn [bind] in H;
      [|eauto|discriminate].
    destruct (L <? minp) eqn:EL; [|eauto].
    assert (Hthis : entry_wf sorted (str_net c, map str_net sorted)).
    { exists c, sorted. split; [reflexivity|]. split.
      - unfold summary_candidate in Ec. eapply ip_network_wf; eauto.
      - split; [assumption|]. intros o Ho. split; [assumption|].
        pose proof (all_subnet_of_true _ _ Ea) as Hc. rewrite Forall_forall in Hc. auto. }
    destruct (Qle_bool float_0_05 (efficiency sorted c)).
    + injection H as <-. assumption.
    + eapply IH; [|assumption|exact H].
      intros b. destruct (Qltb be (efficiency sorted c)); [intros [= <-]; assumption|auto].
Qed.

Lemma find_tightest_summary_wf g e :
  Forall wf_net g ->
  _find_tightest_summary g = Some e ->
  entry_wf g e.
Proof.
  intros Hwf H. unfold _find_tightest_summary in H.
  destruct (Z.of_nat (List.length g) <? 2) eqn:El; [discriminate|].
  apply Z.ltb_ge in El.
  destruct (tightest_summary_body g) as [r|] eqn:Eb; [|discriminate]. subst r.
  unfold tightest_summary_body in Eb.
  apply bind_Ok in Eb. destruct Eb as (sorted & Es & Eb).
  apply sorted_nets_Ok in Es. destruct Es as (_ & ->).
  set (sorted := stable_sort lt_addr g) in *.
  assert (Hws : Forall wf_net sorted).
  { rewrite Forall_forall in *. intros n Hn. apply Hwf. now apply (stable_sort_In lt_addr). }
  assert (Hlen : 2 <= Z.of_nat (List.length sorted))
    by (unfold sorted; rewrite stable_sort_length; exact El).
  assert (Hup : forall e', entry_wf sorted e' -> entry_wf g e').
  { intros e' (s & os & E & Ws & Hl & Hos). exists s, os.
    split; [assumption|]. split; [assumption|]. split; [assumption|].
    intros o Ho. destruct (Hos o Ho) as (Hin & Hc). split; [|assumption].
    exact (proj1 (stable_sort_In lt_addr g o) Hin). }
  apply Hup.
  apply bind_Ok in Eb. destruct Eb as (collapsed & Ec & Eb).
  apply bind_Ok in Eb. destruct Eb as (a & Ea & Eb).
  destruct a as [a|].
  - injection Eb as <-.
    unfold exact_collapse in Ea.
    destruct collapsed as [|s [|? ?]]; try discriminate.
    apply bind_Ok in Ea. destruct Ea as (m & Em & Ea).
    destruct (prefixlen s <? m) eqn:Elt; [|discriminate].
    injection Ea as <-. exists s, sorted. split; [reflexivity|]. split.
    + pose proof (collapse_addresses_wf sorted [s] Hws Ec) as W. now inversion W.
    + split; [assumption|]. intros o Ho. split; [assumption|].
      destruct (collapse_addresses_covers sorted [s] Hws Ec o Ho) as (s' & [<-|[]] & Hc).
      assumption.
  - apply bind_Ok in Eb. destruct Eb as (min_addr & _ & Eb).
    apply bind_Ok in Eb. destruct Eb as (minp & Em & Eb).
    eapply scan_prefix_lengths_wf; [|assumption|exact Eb]. discriminate.
Qed.

Section Entries.
Variable P : string * list string -> Prop.

Lemma find_major_network_summaries_Forall networks :
  (forall g e, In g (_group_by_major_network_class networks) ->
               _find_tightest_summary g = Some e -> P e) ->
  Forall P (_find_major_network_summaries networks).
Proof.
  unfold _find_major_network_summaries.
  generalize (_group_by_major_network_class networks) as groups.
  assert (Hacc : Forall P (@nil (string * list string))) by constructor.
  revert Hacc. generalize (@nil (string * list string)) as acc.
  intros acc Hacc groups. revert acc Hacc.
  induction groups as [|g r IH]; intros acc Hacc Hg; cbn [fold_left]; [assumption|].
  apply IH; [|intros; eapply Hg; [right|]; eassumption].
  destruct (Z.of_nat (List.length g) <? 2); [assumption|].
  destruct (_find_tightest_summary g) as [[k origs]|] eqn:E; [|assumption].
  apply dict_set_Forall; [|assumption].
  apply (Hg g); [now left|assumption].
Qed.

Lemma pair_loop_Forall remaining :
  (forall ri rj s,
      In ri remaining -> In rj remaining ->
      collapse_addresses [ri; rj] = Ok [s] ->
      prefixlen s < Z.max (prefixlen ri) (prefixlen rj) ->
      prefixlen s <= 28 ->
      P (str_net s, [str_net ri; str_net rj])) ->
  forall summaries, Forall P summaries -> Forall P (pair_loop remaining summaries).
Proof.
  induction remaining as [|ri rest IH]; intros Hr summaries Hs; cbn [pair_loop];
    [assumption|].
  apply IH.
  - intros ri' rj s Hi Hj. apply Hr; now right.
  - assert (Hrest : forall rj s,
               In rj rest ->
               collapse_addresses [ri; rj] = Ok [s] ->
               prefixlen s < Z.max (prefixlen ri) (prefixlen rj) ->
               prefixlen s <= 28 ->
               P (str_net s, [str_net ri; str_net rj])).
    { intros rj s Hj. apply Hr; [now left|now right]. }
    clear IH Hr. revert summaries Hs.
    induction rest as [|rj rest' IH']; intros summaries Hs; cbn [fold_left]; [assumption|].
    apply IH'; [intros rj' s Hj'; apply Hrest; now right|].
    unfold try_pair.
    destruct (collapse_addresses [ri; rj]) as [[|s [|? ?]]|] eqn:Ec; try assumption.
    destruct (prefixlen s <? Z.max (prefixlen ri) (prefixlen rj)) eqn:E1; [|assumption].
    destruct (prefixlen s <=? 28) eqn:E2; [|assumption].
    apply Z.ltb_lt in E1. apply Z.leb_le in E2.
    apply dict_set_Forall; [|assumption].
    apply Hrest; auto. now left.
Qed.

Lemma find_contiguous_summaries_Forall networks existing :
  (forall ri rj s,
      In ri networks -> In rj networks ->
      str_in (str_net ri) (flat_map snd existing) = false ->
      str_in (str_net rj) (flat_map snd existing) = false ->
      collapse_addresses [ri; rj] = Ok [s] ->
      prefixlen s < Z.max (prefixlen ri) (prefixlen rj) ->
      prefixlen s <= 28 ->
      P (str_net s, [str_net ri; str_net rj])) ->
  Forall P (_find_contiguous_summaries networks existing).
Proof.
  intros H. unfold _find_contiguous_summaries.
  destruct (Z.of_nat _ <? 2); [constructor|].
  apply pair_loop_Forall; [|constructor].
  intros ri rj s Hi Hj. apply filter_In in Hi, Hj.
  destruct Hi as (Hi & Fi). destruct Hj as (Hj & Fj).
  apply negb_true_iff in Fi, Fj. now apply H.
Qed.

(** What holds of the results of the two stages holds of every entry of
    the mapping that [find_summary_routes] returns. *)
Lemma find_summary_routes_Forall networks summaries :
  find_summary_routes networks = Ok summaries ->
  (forall g e,
      In g (_group_by_major_network_class
              (stable_sort lt_addr_prefixlen (parse_networks networks))) ->
      _find_tightest_summary g = Some e -> P e) ->
  (forall ri rj s,
      In ri (parse_networks networks) -> In rj (parse_networks networks) ->
      collapse_addresses [ri; rj] = Ok [s] ->
      prefixlen s < Z.max (prefixlen ri) (prefixlen rj) ->
      prefixlen s <= 28 ->
      P (str_net s, [str_net ri; str_net rj])) ->
  Forall P summaries.
Proof.
  unfold find_summary_routes.
  destruct (parse_networks networks) as [|n0 r] eqn:Ep.
  - intros [= <-]. constructor.
  - rewrite <- Ep.
    destruct (sorted_nets lt_addr_prefixlen (parse_networks networks)) as [sorted|] eqn:Es;
      [|discriminate].
    cbn [bind]. intros [= <-] Hg Hp.
    apply sorted_nets_Ok in Es. destruct Es as (_ & ->).
    apply dict_update_Forall.
    + apply dict_update_Forall; [constructor|].
      now apply find_major_network_summaries_Forall.
    + apply find_contiguous_summaries_Forall.
      intros ri rj s Hi Hj _ _.
      apply Hp; apply (proj1 (stable_sort_In lt_addr_prefixlen _ _)); assumption.
Qed.
End Entries.

Lemma group_members_wf networks g :
  In g (_group_by_major_network_class
          (stable_sort lt_addr_prefixlen (parse_networks networks))) ->
  Forall wf_net g.
Proof.
  intros Hg. destruct (group_by_major_network_class_members _ _ Hg) as (_ & Hin).
  rewrite Forall_forall. intros n Hn. apply Hin in Hn.
  apply (proj1 (stable_sort_In lt_addr_prefixlen _ n)) in Hn.
  pose proof (parse_networks_wf networks) as W. rewrite Forall_forall in W. auto.
Qed.

Lemma entry_wf_incl nets nets' e :
  (forall n, In n nets -> In n nets') -> entry_wf nets e -> entry_wf nets' e.
Proof.
  intros Hincl (s & os & E & Ws & Hl & Hos). exists s, os.
  split; [assumption|]. split; [assumption|]. split; [assumption|].
  intros o Ho. destruct (Hos o Ho). auto.
Qed.

(** Every entry of the mapping that [find_summary_routes] returns is the
    text of a well-formed network with the texts of at least two parsed
    networks of the input that it covers. *)
Lemma find_summary_routes_wf networks summaries :
  find_summary_routes networks = Ok summaries ->
  Forall (entry_wf (parse_networks networks)) summaries.
Proof.
  intros H. apply (find_summary_routes_Forall _ networks summaries H).
  - intros g e Hg He.
    apply (entry_wf_incl g).
    + intros n Hn. destruct (group_by_major_network_class_members _ _ Hg) as (_ & Hin).
      apply Hin in Hn. exact (proj1 (stable_sort_In lt_addr_prefixlen _ n) Hn).
    + eapply find_tightest_summary_wf; [|exact He].
      eapply group_members_wf; eassumption.
  - intros ri rj s Hi Hj Hc _ _.
    pose proof (parse_networks_wf networks) as W. rewrite Forall_forall in W.
    assert (Wl : Forall wf_net [ri; rj])
      by exact (Forall_cons _ (W ri Hi) (Forall_cons _ (W rj Hj) (Forall_nil _))).
    exists s, [ri; rj]. split; [reflexivity|]. split.
    + pose proof (collapse_addresses_wf [ri; rj] [s] Wl Hc) as Ws. now inversion Ws.
    + split; [cbn; lia|].
      intros o Ho. split; [destruct Ho as [<-|[<-|[]]]; assumption|].
      destruct (collapse_addresses_covers [ri; rj] [s] Wl Hc o Ho) as (s' & [<-|[]] & Hcov).
      assumption.
Qed.

(** ** What [get_optimized_networks] keeps and what it replaces *)

Lemma str_in_true s l : str_in s l = true <-> In s l.
Proof.
  unfold str_in. rewrite existsb_exists. split.
  - intros (x & Hx & E). apply String.eqb_eq in E. now subst.
  - intros H. exists s. split; [assumption|apply String.eqb_refl].
Qed.

Lemma str_in_false s l : str_in s l = false <-> ~ In s l.
Proof.
  rewrite <- str_in_true. destruct (str_in s l); split; congruence.
Qed.

Lemma get_optimized_networks_Ok networks optimized summaries :
  get_optimized_networks networks = Ok (optimized, summaries) ->
  find_summary_routes networks = Ok summaries
  /\ optimized
     = map fst summaries
       ++ filter (fun net => negb (str_in net (flat_map snd summaries))) networks.
Proof.
  unfold get_optimized_networks. intros H.
  destruct (find_summary_routes networks) as [d|]; [|discriminate].
  cbn [bind] in H. injection H as <- <-. auto.
Qed.

(** The originals of the mapping are texts of parsed networks, and the
    key of their entry is the text of a network that covers them. *)
Lemma summarized_networks_canonical networks summaries original :
  find_summary_routes networks = Ok summaries ->
  In original (flat_map snd summaries) ->
  exists s o,
    In (str_net s) (map fst summaries)
    /\ wf_net s
    /\ original = str_net o /\ In o (parse_networks networks) /\ wf_net o
    /\ covers s o.
Proof.
  intros H Hin. apply in_flat_map in Hin. destruct Hin as (e & He & Ho).
  pose proof (find_summary_routes_wf _ _ H) as Hent. rewrite Forall_forall in Hent.
  destruct (Hent _ He) as (s & os & E & Ws & _ & Hos). subst e. cbn [snd] in Ho.
  apply in_map_iff in Ho. destruct Ho as (o & <- & Ho).
  destruct (Hos o Ho) as (Hin & Hc).
  exists s, o. split; [apply in_map_iff; exists (str_net s, map str_net os); auto|].
  split; [assumption|]. split; [reflexivity|]. split; [assumption|]. split; [|assumption].
  pose proof (parse_networks_wf networks) as W. rewrite Forall_forall in W. auto.
Qed.

Lemma summary_keys_canonical networks summaries summary :
  find_summary_routes networks = Ok summaries ->
  In summary (map fst summaries) ->
  exists s, summary = str_net s /\ wf_net s.
Proof.
  intros H Hin. apply in_map_iff in Hin. destruct Hin as (e & <- & He).
  pose proof (find_summary_routes_wf _ _ H) as Hent. rewrite Forall_forall in Hent.
  destruct (Hent _ He) as (s & os & -> & Ws & _). exists s. auto.
Qed.

(** The originals and the keys of the mapping are accepted by
    [ip_network]. *)
Lemma summarized_networks_parse networks summaries original :
  find_summary_routes networks = Ok summaries ->
  In original (flat_map snd summaries) -> ip_network original <> None.
Proof.
  intros Hf Ho.
  destruct (summarized_networks_canonical _ _ _ Hf Ho) as (_ & o & _ & _ & -> & _ & Wo & _).
  rewrite (ip_network_str_net o Wo). discriminate.
Qed.

Lemma summary_keys_parse networks summaries summary :
  find_summary_routes networks = Ok summaries ->
  In summary (map fst summaries) -> ip_network summary <> None.
Proof.
  intros Hf Hk. destruct (summary_keys_canonical _ _ _ Hf Hk) as (n & -> & Wn).
  rewrite (ip_network_str_net n Wn). discriminate.
Qed.

(** X4.  Entries that [ip_network] rejects are neither summarised nor
    dropped: a malformed string is in the optimized list exactly when it
    is in the input. *)
Theorem malformed_inputs_pass_through networks optimized summaries :
  get_optimized_networks networks = Ok (optimized, summaries) ->
  forall s, ip_network s = None -> (In s optimized <-> In s networks).
Proof.
  intros H s Hs. destruct (get_optimized_networks_Ok _ _ _ H) as (Hf & ->).
  rewrite in_app_iff, filter_In. split.
  - intros [Hk|(Hin & _)]; [|assumption].
    exfalso. exact (summary_keys_parse _ _ _ Hf Hk Hs).
  - intros Hin. right. split; [assumption|].
    apply negb_true_iff, str_in_false. intros Ho.
    exact (summarized_networks_parse _ _ _ Hf Ho Hs).
Qed.

Lemma malformed_inputs_pass_through_witness :
  In "ospf" ["10.0.0.0/23"; "ospf"] <-> In "ospf" ["10.0.0.0/24"; "ospf"; "10.0.1.0/24"].
Proof.
  apply (malformed_inputs_pass_through
           ["10.0.0.0/24"; "ospf"; "10.0.1.0/24"] ["10.0.0.0/23"; "ospf"]
           [("10.0.0.0/23", ["10.0.0.0/24"; "10.0.1.0/24"])]).
  - vm_compute. reflexivity.
  - vm_compute. reflexivity.
Defined.

(** X5.  No network is lost: every input that [ip_network] accepts is
    covered by an entry of the optimized list, which is the input itself
    or a summary of the same IP version whose address range includes the
    range of the input. *)
Theorem every_input_network_covered networks optimized summaries :
  get_optimized_networks networks = Ok (optimized, summaries) ->
  forall t n,
    In t networks -> ip_network t = Some n ->
    exists o c,
      In o optimized /\ ip_network o = Some c
      /\ version c = version n
      /\ forall a, has_address n a -> has_address c a.
Proof.
  intros H t n Ht Hn. destruct (get_optimized_networks_Ok _ _ _ H) as (Hf & ->).
  destruct (str_in t (flat_map snd summaries)) eqn:E.
  - apply str_in_true in E.
    destruct (summarized_networks_canonical _ _ _ Hf E)
      as (s & o & Hk & Ws & -> & _ & Wo & Hc).
    rewrite (ip_network_str_net o Wo) in Hn. injection Hn as ->.
    exists (str_net s), s. split; [apply in_or_app; now left|].
    split; [apply ip_network_str_net; assumption|].
    split; [apply Hc|]. intros a. now apply covers_has_address.
  - exists t, n. split.
    + apply in_or_app. right. apply filter_In. split; [assumption|]. now rewrite E.
    + split; [assumption|]. split; [reflexivity|]. auto.
Qed.

Lemma every_input_network_covered_witness :
  exists o c,
    In o ["10.0.0.0/23"; "ospf"] /\ ip_network o = Some c
    /\ version c = version (mkNet V4 167772416 24)
    /\ forall a, has_address (mkNet V4 167772416 24) a -> has_address c a.
Proof.
  apply (every_input_network_covered
           ["10.0.0.0/24"; "ospf"; "10.0.1.0/24"] ["10.0.0.0/23"; "ospf"]
           [("10.0.0.0/23", ["10.0.0.0/24"; "10.0.1.0/24"])]
           eq_refl "10.0.1.0/24" (mkNet V4 167772416 24)).
  - right. right. now left.
  - vm_compute. reflexivity.
Defined.

(** Every entry of the optimized list is accepted by [ip_network], or is a
    malformed entry of the input. *)
Lemma optimized_entries networks optimized summaries o :
  get_optimized_networks networks = Ok (optimized, summaries) ->
  In o optimized ->
  (exists c, ip_network o = Some c /\ wf_net c)
  \/ (In o networks /\ ip_network o = None).
Proof.
  intros H Ho. destruct (get_optimized_networks_Ok _ _ _ H) as (Hf & ->).
  apply in_app_or in Ho. destruct Ho as [Hk|Hin].
  - destruct (summary_keys_canonical _ _ _ Hf Hk) as (n & -> & Wn).
    left. exists n. split; [apply ip_network_str_net|]; assumption.
  - apply filter_In in Hin. destruct Hin as (Hin & _).
    destruct (ip_network o) as [c|] eqn:E; [left|right; auto].
    exists c. split; [reflexivity|]. eapply ip_network_wf; eassumption.
Qed.

(** X6.  With fewer than two entries that [ip_network] accepts, whatever
    the number of malformed entries, nothing is summarised: the mapping
    is empty and the optimized list is the input. *)
Theorem fewer_than_two_networks_unchanged networks :
  (List.length (parse_networks networks) < 2)%nat ->
  get_optimized_networks networks = Ok (networks, []).
Proof.
  intros Hlen.
  assert (Hf : find_summary_routes networks = Ok []).
  { unfold find_summary_routes.
    destruct (parse_networks networks) as [|n [|m r]]; [reflexivity| |cbn in Hlen; lia].
    unfold sorted_nets.
    cbn [same_version forallb stable_sort fold_right insert_sorted bind].
    unfold _find_major_network_summaries, _group_by_major_network_class.
    cbn [fold_left]. unfold group_add. cbn [dict_get dict_set map snd filter List.length].
    change (1 <? Z.of_nat 1) with false. cbn [fold_left dict_update].
    unfold _find_contiguous_summaries.
    cbn [flat_map filter str_in existsb negb List.length].
    change (Z.of_nat 1 <? 2) with true. reflexivity. }
  unfold get_optimized_networks. rewrite Hf. cbn [bind map flat_map app].
  f_equal. f_equal. clear.
  induction networks as [|x r IH]; [reflexivity|].
  cbn [filter str_in existsb negb]. f_equal. exact IH.
Qed.

Lemma fewer_than_two_networks_unchanged_witness :
  get_optimized_networks ["ospf"; "10.0.0.0/24"; "::1/200"]
  = Ok (["ospf"; "10.0.0.0/24"; "::1/200"], []).
Proof.
  apply (fewer_than_two_networks_unchanged ["ospf"; "10.0.0.0/24"; "::1/200"]).
  vm_compute. lia.
Defined.

(** ** When the engine raises *)

Lemma same_version_true l :
  same_version l = true <-> forall a b, In a l -> In b l -> version a = version b.
Proof.
  split; [apply same_version_spec|].
  intros H. destruct l as [|x r]; [reflexivity|]. cbn [same_version].
  apply forallb_forall. intros y Hy. apply ipver_eqb_eq.
  apply H; [now right|now left].
Qed.

Lemma same_version_false l :
  same_version l = false <-> exists a b, In a l /\ In b l /\ version a <> version b.
Proof.
  split.
  - intros H. destruct l as [|x r]; [discriminate|]. cbn [same_version] in H.
    assert (E : existsb (fun y => negb (ipver_eqb (version y) (version x))) r = true).
    { clear - H. induction r as [|y r IH]; [discriminate|]. cbn [forallb existsb] in *.
      destruct (ipver_eqb (version y) (version x)); cbn [negb orb andb] in *; auto. }
    apply existsb_exists in E. destruct E as (y & Hy & E).
    exists y, x. split; [now right|]. split; [now left|].
    intros Ev. apply ipver_eqb_eq in Ev. rewrite Ev in E. discriminate.
  - intros (a & b & Ha & Hb & Hne).
    destruct (same_version l) eqn:E; [|reflexivity].
    exfalso. apply Hne. eapply same_version_spec; eassumption.
Qed.

Lemma find_summary_routes_result networks :
  (find_summary_routes networks = Raise TypeError <-> mixed_versions networks)
  /\ ((exists summaries, find_summary_routes networks = Ok summaries)
      <-> ~ mixed_versions networks).
Proof.
  set (mixed := mixed_versions networks).
  assert (Hm : mixed <-> same_version (parse_networks networks) = false).
  { rewrite same_version_false. unfold mixed, mixed_versions. split.
    - intros (s & t & n & m & Hs & Ht & En & Em & Hne).
      exists n, m. repeat split; [apply parse_networks_In; eauto ..|assumption].
    - intros (n & m & Hn & Hm & Hne).
      apply parse_networks_In in Hn, Hm.
      destruct Hn as (s & Hs & En). destruct Hm as (t & Ht & Em).
      exists s, t, n, m. auto. }
  rewrite Hm. unfold find_summary_routes, sorted_nets.
  destruct (parse_networks networks) as [|n0 r] eqn:Ep.
  - cbn [same_version]. split; split; try discriminate; eauto.
  - destruct (same_version (n0 :: r)); cbn [bind].
    + split; split; try discriminate; eauto.
    + split; split; auto.
      * intros (d & Hd). discriminate.
      * intros H. exfalso. now apply H.
Qed.

(** X7.  The only exception that [find_summary_routes] raises is the
    [TypeError] of the sort, and it raises it exactly when the input holds
    an IPv4 and an IPv6 network that [ip_network] both accepts; on every
    other input it returns a mapping. *)
Theorem find_summary_routes_raises networks :
  (forall e, find_summary_routes networks = Raise e
             <-> e = TypeError /\ mixed_versions networks)
  /\ ((exists summaries, find_summary_routes networks = Ok summaries)
      <-> ~ mixed_versions networks).
Proof.
  destruct (find_summary_routes_result networks) as (R1 & R2).
  split; [|exact R2]. intros e. split.
  - intros H. assert (E : e = TypeError).
    { unfold find_summary_routes, sorted_nets in H.
      destruct (parse_networks networks); [discriminate|].
      destruct (same_version _); cbn [bind] in H; [discriminate|]. now injection H. }
    subst e. split; [reflexivity|]. now apply R1.
  - intros (-> & Hm). now apply R1.
Qed.

(** ** The mapping does not depend on the order of the input *)

Lemma stable_sort_key_le l : StronglySorted key_le (stable_sort lt_addr_prefixlen l).
Proof.
  apply stable_sort_sorted; unfold key_le, lt_addr_prefixlen.
  - intros a b c; lia.
  - intros x y H. apply orb_true_iff in H. destruct H as [H|H].
    + apply Z.ltb_lt in H. lia.
    + apply andb_true_iff in H. destruct H as (H1 & H2).
      apply Z.eqb_eq in H1. apply Z.ltb_lt in H2. lia.
  - intros x y H. apply orb_false_iff in H. destruct H as (H1 & H2).
    apply Z.ltb_ge in H1. apply andb_false_iff in H2.
    destruct H2 as [H2|H2]; [apply Z.eqb_neq in H2|apply Z.ltb_ge in H2]; lia.
Qed.

Lemma sorted_perm_eq (l : list IPNetwork) : forall l',
  StronglySorted key_le l -> StronglySorted key_le l' -> Permutation l l' ->
  (forall a b, In a l -> In b l -> version a = version b) ->
  l = l'.
Proof.
  induction l as [|a r IH]; intros l' Hs Hs' Hp Hv.
  - apply Permutation_nil in Hp. now subst.
  - destruct l' as [|a' r'];
      [apply Permutation_sym, Permutation_nil in Hp; discriminate|].
    inversion Hs as [|? ? Hsr Ha]; subst. inversion Hs' as [|? ? Hsr' Ha']; subst.
    rewrite Forall_forall in Ha, Ha'.
    assert (E : a = a').
    { assert (Hin' : In a (a' :: r')) by (eapply Permutation_in; [exact Hp|now left]).
      assert (Hin : In a' (a :: r))
        by (eapply Permutation_in; [apply Permutation_sym; exact Hp|now left]).
      destruct Hin' as [E|Hin']; [now symmetry|].
      destruct Hin as [E|Hin]; [assumption|].
      pose proof (Ha' a Hin') as K1. pose proof (Ha a' Hin) as K2.
      pose proof (Hv a a' ltac:(now left) ltac:(now right)) as Ev.
      unfold key_le in K1, K2.
      destruct a as [v x p], a' as [v' x' p']. cbn in *.
      assert (x = x') by lia. assert (p = p') by lia. congruence. }
    subst a'. f_equal. apply IH; [assumption|assumption| |].
    + eapply Permutation_cons_inv; eassumption.
    + intros x y Hx Hy. apply Hv; now right.
Qed.

Lemma sorted_nets_perm l l' :
  Permutation l l' ->
  sorted_nets lt_addr_prefixlen l = sorted_nets lt_addr_prefixlen l'.
Proof.
  intros Hp. unfold sorted_nets.
  destruct (same_version l) eqn:E.
  - assert (E' : same_version l' = true).
    { apply same_version_true. intros a b Ha Hb.
      apply (proj1 (same_version_true l) E);
        (eapply Permutation_in; [apply Permutation_sym; exact Hp|assumption]). }
    rewrite E'. f_equal. apply sorted_perm_eq.
    + apply stable_sort_key_le.
    + apply stable_sort_key_le.
    + rewrite (stable_sort_perm lt_addr_prefixlen l), Hp.
      symmetry. apply stable_sort_perm.
    + intros a b Ha Hb. apply (proj1 (same_version_true l) E);
        apply (proj1 (stable_sort_In lt_addr_prefixlen l _)); assumption.
  - assert (E' : same_version l' = false).
    { apply same_version_false. apply same_version_false in E.
      destruct E as (a & b & Ha & Hb & Hne). exists a, b.
      repeat split; try assumption; (eapply Permutation_in; [exact Hp|assumption]). }
    now rewrite E'.
Qed.

(** ** The pair stage leaves summarised networks alone *)

(** X9.  Every entry that [_find_contiguous_summaries] returns has exactly
    two originals, the texts of two networks of the list that no entry of
    the existing summaries lists among its originals. *)
Theorem contiguous_summaries_skip_summarized networks existing summary originals :
  In (summary, originals) (_find_contiguous_summaries networks existing) ->
  exists ri rj,
    originals = [str_net ri; str_net rj]
    /\ In ri networks /\ In rj networks
    /\ ~ In (str_net ri) (flat_map snd existing)
    /\ ~ In (str_net rj) (flat_map snd existing).
Proof.
  intros H.
  assert (K : Forall (fun e => exists ri rj,
                          snd e = [str_net ri; str_net rj]
                          /\ In ri networks /\ In rj networks
                          /\ ~ In (str_net ri) (flat_map snd existing)
                          /\ ~ In (str_net rj) (flat_map snd existing))
                     (_find_contiguous_summaries networks existing)).
  { apply find_contiguous_summaries_Forall.
    intros ri rj s Hi Hj Fi Fj _ _ _. exists ri, rj. cbn [snd].
    repeat split; auto; now apply str_in_false. }
  rewrite Forall_forall in K. exact (K _ H).
Qed.

Lemma contiguous_summaries_skip_summarized_witness :
  exists ri rj,
    ["10.0.2.0/24"; "10.0.3.0/24"] = [str_net ri; str_net rj]
    /\ In ri [mkNet V4 167772160 24; mkNet V4 167772416 24;
              mkNet V4 167772672 24; mkNet V4 167772928 24]
    /\ In rj [mkNet V4 167772160 24; mkNet V4 167772416 24;
              mkNet V4 167772672 24; mkNet V4 167772928 24]
    /\ ~ In (str_net ri) (flat_map snd [("10.0.0.0/23", ["10.0.0.0/24"; "10.0.1.0/24"])])
    /\ ~ In (str_net rj) (flat_map snd [("10.0.0.0/23", ["10.0.0.0/24"; "10.0.1.0/24"])]).
Proof.
  apply (contiguous_summaries_skip_summarized
           [mkNet V4 167772160 24; mkNet V4 167772416 24;
            mkNet V4 167772672 24; mkNet V4 167772928 24]
           [("10.0.0.0/23", ["10.0.0.0/24"; "10.0.1.0/24"])]
           "10.0.2.0/23" ["10.0.2.0/24"; "10.0.3.0/24"]).
  vm_compute. left. reflexivity.
Defined.

(** ** When [generate_config] raises *)

Lemma ip_to_netmask_Ok network :
  (exists im, ip_to_netmask network = Ok im) <-> ip_network network <> None.
Proof.
  unfold ip_to_netmask. destruct (ip_network network) as [n|]; split.
  - discriminate.
  - eauto.
  - intros (im & H). discriminate.
  - congruence.
Qed.

Lemma ip_to_netmask_Raise network e :
  ip_to_netmask network = Raise e -> e = ValueError /\ ip_network network = None.
Proof.
  unfold ip_to_netmask. destruct (ip_network network) as [n|]; [discriminate|].
  intros [= <-]. auto.
Qed.

Lemma network_lines_result area nets : forall i,
  (Forall (fun s => ip_network s <> None) nets ->
   exists lines, network_lines area i nets = Ok lines)
  /\ (~ Forall (fun s => ip_network s <> None) nets ->
      network_lines area i nets = Raise ValueError).
Proof.
  induction nets as [|s r IH]; intros i; cbn [network_lines].
  - split; [eauto|]. intros H. exfalso. apply H. constructor.
  - unfold ip_to_netmask. destruct (ip_network s) as [n|] eqn:E; cbn [bind].
    + destruct (IH (i + 1)) as (IH1 & IH2). split.
      * intros H. inversion H; subst. destruct (IH1 ltac:(assumption)) as (l & ->).
        cbn [bind]. eauto.
      * intros H. rewrite IH2; [reflexivity|].
        intros Hr. apply H. constructor; [congruence|assumption].
    + split; [|reflexivity]. intros H. inversion H; subst. congruence.
Qed.

Lemma summary_lines_result keys : forall i,
  Forall (fun s => ip_network s <> None) keys ->
  exists lines, summary_lines i keys = Ok lines.
Proof.
  induction keys as [|s r IH]; intros i H; cbn [summary_lines]; [eauto|].
  inversion H; subst. unfold ip_to_netmask.
  destruct (ip_network s) as [n|]; [|congruence]. cbn [bind].
  destruct (IH (i + 1) ltac:(assumption)) as (l & ->). cbn [bind]. eauto.
Qed.

Lemma parses_dec l :
  Forall (fun s => ip_network s <> None) l
  \/ exists s, In s l /\ ip_network s = None.
Proof.
  induction l as [|x r IH]; [left; constructor|].
  destruct (ip_network x) as [n|] eqn:E.
  - destruct IH as [IH|(s & Hs & Es)].
    + left. constructor; [congruence|assumption].
    + right. exists s. split; [now right|assumption].
  - right. exists x. split; [now left|assumption].
Qed.

Lemma find_summary_routes_Raise networks e :
  find_summary_routes networks = Raise e -> e = TypeError.
Proof.
  unfold find_summary_routes, sorted_nets.
  destruct (parse_networks networks); [discriminate|].
  destruct (same_version _); cbn [bind]; [discriminate|]. now intros [= <-].
Qed.

Lemma generate_config_result config :
  (generate_config config = Raise TypeError <-> mixed_versions (networks config))
  /\ (generate_config config = Raise ValueError
      <-> ~ mixed_versions (networks config) /\ has_malformed (networks config))
  /\ ((exists text, generate_config config = Ok text)
      <-> ~ mixed_versions (networks config) /\ ~ has_malformed (networks config)).
Proof.
  set (mixed := mixed_versions (networks config)).
  set (malformed := has_malformed (networks config)).
  destruct (find_summary_routes_result (networks config)) as (R1 & R2).
  fold mixed in R1, R2.
  unfold generate_config, output_lines, get_optimized_networks.
  destruct (find_summary_routes (networks config)) as [summaries|e] eqn:Ef; cbn [bind].
  - assert (Hnm : ~ mixed) by (apply R2; eauto).
    set (optimized :=
           map fst summaries
             ++ filter (fun net => negb (str_in net (flat_map snd summaries)))
                       (networks config)).
    assert (Hopt : get_optimized_networks (networks config) = Ok (optimized, summaries)).
    { unfold get_optimized_networks. rewrite Ef. reflexivity. }
    assert (MK : forall s, ip_network s = None ->
                           (In s optimized <-> In s (networks config))).
    { intros s Es. unfold optimized. rewrite in_app_iff, filter_In. split.
      - intros [Hk|(Hin & _)]; [|assumption].
        exfalso. exact (summary_keys_parse _ _ _ Ef Hk Es).
      - intros Hin. right. split; [assumption|].
        apply negb_true_iff, str_in_false. intros Ho.
        exact (summarized_networks_parse _ _ _ Ef Ho Es). }
    assert (Hmal : malformed <-> ~ Forall (fun s => ip_network s <> None) optimized).
    { split.
      - intros (s & Hs & Es) HF. rewrite Forall_forall in HF.
        apply (HF s); [|assumption].
        apply (MK s Es). assumption.
      - intros HF. destruct (parses_dec optimized) as [HF'|(s & Hs & Es)]; [contradiction|].
        exists s. split; [|assumption].
        apply (MK s Es). assumption. }
    assert (Hkeys : Forall (fun s => ip_network s <> None) (map fst summaries)).
    { rewrite Forall_forall. intros k Hk.
      destruct (summary_keys_canonical _ _ _ Ef Hk) as (n & -> & Wn).
      rewrite (ip_network_str_net n Wn). discriminate. }
    set (area := match areas config with a :: _ => a | [] => "0.0.0.0" end).
    destruct (network_lines_result area optimized 1) as (N1 & N2).
    destruct (network_lines area 1 optimized) as [net_lines|e] eqn:En; cbn [bind].
    + assert (HF : Forall (fun s => ip_network s <> None) optimized).
      { destruct (parses_dec optimized) as [HF'|(s & Hs & Es)]; [assumption|].
        assert (HnF : ~ Forall (fun s => ip_network s <> None) optimized).
        { intros HF'. rewrite Forall_forall in HF'. apply (HF' s Hs Es). }
        specialize (N2 HnF). discriminate. }
      assert (Hsum : exists sum_lines,
                 match summaries with
                 | [] => Ok []
                 | _ :: _ =>
                     lines <- summary_lines 1 (map fst summaries) ;;
                     Ok (["    config summary-address"] ++ lines ++ ["    end"])
                 end = Ok sum_lines).
      { destruct summaries as [|e0 r0] eqn:Es; [eauto|]. rewrite <- Es in *.
        destruct (summary_lines_result (map fst summaries) 1 Hkeys) as (l & ->).
        cbn [bind]. eauto. }
      destruct Hsum as (sum_lines & ->). cbn [bind].
      split; [split; [discriminate|intros Hx; exfalso; auto]|].
      split; [split; [discriminate|]|].
      * intros (_ & Hx). apply Hmal in Hx. contradiction.
      * split; [intros _|eauto]. split; [assumption|]. intros Hx. apply Hmal in Hx. auto.
    + assert (HnF : ~ Forall (fun s => ip_network s <> None) optimized).
      { intros HF. destruct (N1 HF) as (l & Hl). discriminate. }
      specialize (N2 HnF). injection N2 as ->.
      split; [split; [discriminate|intros Hx; exfalso; auto]|].
      split; [split; [intros _; split; [assumption|now apply Hmal]|reflexivity]|].
      split; [intros (t & Ht); discriminate|].
      intros (_ & Hx). exfalso. apply Hx. now apply Hmal.
  - pose proof (find_summary_routes_Raise _ _ Ef) as ->.
    assert (Hm : mixed) by now apply R1.
    split; [split; auto|].
    split; [split; [discriminate|intros (Hx & _); contradiction]|].
    split; [intros (t & Ht); discriminate|intros (Hx & _); contradiction].
Qed.

(** X10.  [generate_config] raises, before it writes anything, in two
    cases only: the [TypeError] of the summarizer when the networks of the
    configuration hold an IPv4 and an IPv6 network, and otherwise the
    [ValueError] of [ip_to_netmask] when one of them is malformed.  In
    every other case it reaches the point where it writes the file. *)
Theorem generate_config_raises config :
  (forall e, generate_config config = Raise e
             <-> (e = TypeError /\ mixed_versions (networks config))
                 \/ (e = ValueError /\ ~ mixed_versions (networks config)
                     /\ has_malformed (networks config)))
  /\ ((exists text, generate_config config = Ok text)
      <-> ~ mixed_versions (networks config) /\ ~ has_malformed (networks config)).
Proof.
  destruct (generate_config_result config) as (G1 & G2 & G3).
  split; [|exact G3]. intros e. split.
  - intros H. destruct e.
    + right. split; [reflexivity|]. now apply G2.
    + left. split; [reflexivity|]. now apply G1.
  - intros [(-> & Hm)|(-> & Hm)]; [now apply G1|now apply G2].
Qed.

(** ** The generated configuration is well nested *)

Lemma nest_area_lines areas : forall st,
  fold_left nest_step (flat_map area_lines areas) (Some (BConfig :: st))
  = Some (BConfig :: st).
Proof.
  induction areas as [|a r IH]; intros st; [reflexivity|].
  cbn [flat_map]. rewrite fold_left_app.
  replace (fold_left nest_step (area_lines a) (Some (BConfig :: st)))
    with (Some (BConfig :: st)) by reflexivity.
  apply IH.
Qed.

Lemma nest_interface_lines ifs : forall st,
  fold_left nest_step (flat_map interface_lines ifs) (Some (BConfig :: st))
  = Some (BConfig :: st).
Proof.
  induction ifs as [|a r IH]; intros st; [reflexivity|].
  cbn [flat_map]. rewrite fold_left_app.
  replace (fold_left nest_step (interface_lines a) (Some (BConfig :: st)))
    with (Some (BConfig :: st)); [apply IH|].
  unfold interface_lines.
  destruct (negb (authentication a =? "none")%string); reflexivity.
Qed.

Lemma nest_network_lines area nets : forall i lines st,
  network_lines area i nets = Ok lines ->
  fold_left nest_step lines (Some (BConfig :: st)) = Some (BConfig :: st).
Proof.
  induction nets as [|s r IH]; intros i lines st H; cbn [network_lines] in H.
  - injection H as <-. reflexivity.
  - apply bind_Ok in H. destruct H as (im & _ & H).
    apply bind_Ok in H. destruct H as (rest & Hr & H). injection H as <-.
    change (fold_left nest_step
              ([("        edit " ++ str_int i)%string;
                ("            set prefix " ++ fst im ++ " " ++ snd im)%string;
                ("            set area " ++ area)%string;
                "        next"] ++ rest) (Some (BConfig :: st))
            = Some (BConfig :: st)).
    rewrite fold_left_app.
    replace (fold_left nest_step
               [("        edit " ++ str_int i)%string;
                ("            set prefix " ++ fst im ++ " " ++ snd im)%string;
                ("            set area " ++ area)%string;
                "        next"] (Some (BConfig :: st)))
      with (Some (BConfig :: st)) by reflexivity.
    eapply IH; eassumption.
Qed.

Lemma nest_summary_lines keys : forall i lines st,
  summary_lines i keys = Ok lines ->
  fold_left nest_step lines (Some (BConfig :: st)) = Some (BConfig :: st).
Proof.
  induction keys as [|s r IH]; intros i lines st H; cbn [summary_lines] in H.
  - injection H as <-. reflexivity.
  - apply bind_Ok in H. destruct H as (im & _ & H).
    apply bind_Ok in H. destruct H as (rest & Hr & H). injection H as <-.
    change (fold_left nest_step
              ([("        edit " ++ str_int i)%string;
                ("            set prefix " ++ fst im ++ " " ++ snd im)%string;
                "            set advertise enable";
                "        next"] ++ rest) (Some (BConfig :: st))
            = Some (BConfig :: st)).
    rewrite fold_left_app.
    replace (fold_left nest_step
               [("        edit " ++ str_int i)%string;
                ("            set prefix " ++ fst im ++ " " ++ snd im)%string;
                "            set advertise enable";
                "        next"] (Some (BConfig :: st)))
      with (Some (BConfig :: st)) by reflexivity.
    eapply IH; eassumption.
Qed.

(** X11.  The lines that [generate_config] writes are well nested,
    whatever the texts of the configuration: every [config] is closed by
    its [end], every [edit] stands inside a [config] block and is closed
    by its [next], and every [set] line stands inside a block. *)
Theorem output_lines_well_nested config lines :
  output_lines config = Ok lines -> well_nested lines = true.
Proof.
  unfold output_lines. intros H.
  apply bind_Ok in H. destruct H as ([optimized summaries] & _ & H).
  apply bind_Ok in H. destruct H as (net_lines & Hn & H).
  apply bind_Ok in H. destruct H as (sum_lines & Hs & H).
  apply (f_equal (fun r => match r with Ok l => l | Raise _ => [] end)) in H.
  cbv beta iota in H. subst lines.
  unfold well_nested.
  repeat rewrite fold_left_app.
  replace (fold_left nest_step
             ["config router ospf"; ("    set router-id " ++ router_id config)%string;
              "    config area"] (Some []))
    with (Some [BConfig; BConfig]) by reflexivity.
  rewrite nest_area_lines.
  replace (fold_left nest_step ["    end"; "    config network"] (Some [BConfig; BConfig]))
    with (Some [BConfig; BConfig]) by reflexivity.
  rewrite (nest_network_lines _ _ _ _ _ Hn).
  replace (fold_left nest_step ["    end"] (Some [BConfig; BConfig]))
    with (Some [BConfig]) by reflexivity.
  assert (Hi : fold_left nest_step
                 match interfaces config with
                 | [] => []
                 | _ :: _ =>
                     ["    config ospf-interface"]
                       ++ flat_map interface_lines (interfaces config) ++ ["    end"]
                 end (Some [BConfig]) = Some [BConfig]).
  { destruct (interfaces config) as [|i0 r0] eqn:Ei; [reflexivity|]. rewrite <- Ei.
    repeat rewrite fold_left_app.
    replace (fold_left nest_step ["    config ospf-interface"] (Some [BConfig]))
      with (Some [BConfig; BConfig]) by reflexivity.
    rewrite nest_interface_lines. reflexivity. }
  rewrite Hi.
  assert (Hsl : fold_left nest_step sum_lines (Some [BConfig]) = Some [BConfig]).
  { destruct summaries as [|e0 r0] eqn:Es; [injection Hs as <-; reflexivity|].
    rewrite <- Es in *. apply bind_Ok in Hs. destruct Hs as (ls & Hls & Hs).
    apply (f_equal (fun r => match r with Ok l => l | Raise _ => [] end)) in Hs.
    cbv beta iota in Hs. subst sum_lines. repeat rewrite fold_left_app.
    replace (fold_left nest_step ["    config summary-address"] (Some [BConfig]))
      with (Some [BConfig; BConfig]) by reflexivity.
    rewrite (nest_summary_lines _ _ _ _ Hls). reflexivity. }
  rewrite Hsl. reflexivity.
Qed.

Lemma output_lines_well_nested_witness :
  well_nested
    ["config router ospf"; "    set router-id 1.1.1.1"; "    config area";
     "    end"; "    config network"; "        edit 1";
     "            set prefix 10.0.0.0 255.255.255.0";
     "            set area 0.0.0.0"; "        next"; "    end"; "end"] = true.
Proof.
  apply (output_lines_well_nested (mkConfig "1.1.1.1" [] ["10.0.0.7/24"] [])).
  vm_compute. reflexivity.
Defined.

(** ** The configuration parser *)

Lemma split1_contains c s :
  contains c s = true -> exists a b, split1 c s = [a; b].
Proof.
  induction s as [|d r IH]; cbn [contains split1]; [discriminate|].
  destruct (Ascii.eqb d c); cbn [orb]; [eauto|].
  intros H. destruct (IH H) as (a & b & ->). eauto.
Qed.

Lemma startswith_contains s : forall p c,
  startswith s p = true -> contains c p = true -> contains c s = true.
Proof.
  induction s as [|b s IH]; intros [|a p] c; cbn [startswith contains];
    try discriminate.
  intros H. apply andb_true_iff in H. destruct H as (E & H).
  apply Ascii.eqb_eq in E. subst b.
  destruct (Ascii.eqb a c); cbn [orb]; [reflexivity|]. now apply IH.
Qed.

Lemma value_of_startswith line p :
  startswith line p = true -> contains ":" p = true ->
  exists v, value_of line = Some v.
Proof.
  intros H Hp. pose proof (startswith_contains _ _ _ H Hp) as Hc.
  destruct (split1_contains _ _ Hc) as (a & b & E).
  unfold value_of. rewrite E. cbn. eauto.
Qed.

Lemma startswith_excl s a p b q :
  startswith s (String a p) = true -> a <> b -> startswith s (String b q) = false.
Proof.
  destruct s as [|c s]; cbn [startswith]; [discriminate|].
  intros H Hne. apply andb_true_iff in H. destruct H as (E & _).
  apply Ascii.eqb_eq in E. subst c.
  destruct (Ascii.eqb_spec a b); [contradiction|reflexivity].
Qed.

Lemma startswith_empty p : startswith "" (String "N" p) = false.
Proof. reflexivity. Qed.

Lemma set_field_Some config cur v set_ :
  is_some cur = true ->
  (forall i x, exists i', set_ i x = Some i' /\ name i' = name i) ->
  exists i i', cur = Some i
               /\ set_field config cur (Some v) set_ = Some (config, Some i')
               /\ name i' = name i.
Proof.
  intros Hc Hs. destruct cur as [i|]; [|discriminate].
  destruct (Hs i v) as (i' & E & En). exists i, i'. cbn [set_field]. rewrite E. auto.
Qed.

Local Ltac excl H :=
  rewrite (startswith_excl _ _ _ _ _ H) by discriminate.

Lemma parse_line_spec cfg cur line :
  (parse_line (cfg, cur) line = None <-> is_some cur = true /\ bad_cost_line line = true)
  /\ forall cfg' cur',
       parse_line (cfg, cur) line = Some (cfg', cur') ->
       is_some cur' = is_some cur || name_line line
       /\ map name (interfaces cfg' ++ pending cur')
          = map name (interfaces cfg ++ pending cur)
              ++ (if name_line line then [name_of line] else [])
       /\ (networks cfg' = networks cfg
           \/ (networks cfg' = networks cfg ++ [strip line]
               /\ ip_network (strip line) <> None
               /\ contains "/" (strip line) = true
               /\ contains "." (strip line) = true)).
Proof.
  unfold parse_line, bad_cost_line, name_line, name_of.
  set (L := strip line).
  destruct (str_empty L) eqn:E0.
  { destruct L; [|discriminate]. cbn [startswith andb].
    split; [split; [discriminate|intros (_ & H); discriminate]|].
    intros cfg' cur' [= <- <-]. rewrite orb_false_r, app_nil_r. auto. }
  destruct (startswith L "OSPF Router ID:") eqn:E1.
  { destruct (value_of_startswith _ _ E1 eq_refl) as (v & ->).
    excl E1. excl E1. cbn [andb].
    split; [split; [discriminate|intros (_ & H); discriminate]|].
    intros cfg' cur' [= <- <-]. cbn [interfaces networks].
    rewrite orb_false_r, app_nil_r. auto. }
  destruct (startswith L "Areas:") eqn:E2.
  { destruct (value_of_startswith _ _ E2 eq_refl) as (v & ->).
    excl E2. excl E2. cbn [andb].
    split; [split; [discriminate|intros (_ & H); discriminate]|].
    intros cfg' cur' [= <- <-]. cbn [interfaces networks].
    rewrite orb_false_r, app_nil_r. auto. }
  destruct (startswith L "Name:") eqn:E3.
  { destruct (value_of_startswith _ _ E3 eq_refl) as (v & ->).
    excl E3. cbn [andb].
    split; [split; [discriminate|intros (_ & H); discriminate]|].
    intros cfg' cur' [= <- <-]. rewrite orb_true_r.
    split; [reflexivity|]. split.
    - destruct cur as [i|]; cbn [interfaces pending map];
        rewrite ?app_nil_r, !map_app; reflexivity.
    - left. destruct cur; reflexivity. }
  rewrite orb_false_r, app_nil_r.
  destruct (startswith L "Interface:" && is_some cur) eqn:E4.
  { apply andb_true_iff in E4. destruct E4 as (E4 & Ec).
    destruct (value_of_startswith _ _ E4 eq_refl) as (v & ->).
    excl E4. cbn [andb].
    destruct (set_field_Some cfg cur v
                (fun i v => Some (mkInterface (name i) v (cost i) (authentication i)
                                              (passive i) (priority i))) Ec)
      as (i & i' & -> & -> & En); [intros i x; eexists; split; reflexivity|].
    split; [split; [discriminate|intros (_ & H); discriminate]|].
    intros cfg' cur' [= <- <-]. cbn [is_some pending].
    rewrite !map_app. cbn [map]. rewrite En. auto. }
  destruct (startswith L "Cost:" && is_some cur) eqn:E5.
  { apply andb_true_iff in E5. destruct E5 as (E5 & Ec).
    destruct (value_of_startswith _ _ E5 eq_refl) as (v & ->).
    rewrite E5. cbn [andb]. destruct cur as [i|]; [|discriminate]. cbn [set_field is_some].
    destruct (py_int v) as [c|]; cbn [is_some negb].
    - split; [split; [discriminate|intros (_ & H); discriminate]|].
      intros cfg' cur' [= <- <-]. cbn [is_some pending].
      rewrite !map_app. cbn [map name]. auto.
    - split; [split; auto|]. intros cfg' cur' H. discriminate. }
  assert (Hnc : ~ (is_some cur = true
                   /\ startswith L "Cost:"
                      && match value_of L with
                         | Some v => negb (is_some (py_int v))
                         | None => true
                         end = true)).
  { intros (Hc & H). apply andb_true_iff in H. destruct H as (H & _).
    rewrite H, Hc in E5. discriminate. }
  destruct (startswith L "Authentication:" && is_some cur) eqn:E6.
  { apply andb_true_iff in E6. destruct E6 as (E6 & Ec).
    destruct (value_of_startswith _ _ E6 eq_refl) as (v & Ev). rewrite Ev in *.
    destruct (set_field_Some cfg cur v
                (fun i v => Some (mkInterface (name i) (interface i) (cost i) (lower v)
                                              (passive i) (priority i))) Ec)
      as (i & i' & -> & -> & En); [intros i x; eexists; split; reflexivity|].
    split; [split; [discriminate|intros H; exfalso; auto]|].
    intros cfg' cur' [= <- <-]. cbn [is_some pending].
    rewrite !map_app. cbn [map]. rewrite En. auto. }
  destruct (startswith L "Passive:" && is_some cur) eqn:E7.
  { apply andb_true_iff in E7. destruct E7 as (E7 & Ec).
    destruct (value_of_startswith _ _ E7 eq_refl) as (v & Ev). rewrite Ev in *.
    destruct (set_field_Some cfg cur v
                (fun i v => Some (mkInterface (name i) (interface i) (cost i)
                                              (authentication i)
                                              (lower v =? "enabled")%string (priority i))) Ec)
      as (i & i' & -> & -> & En); [intros i x; eexists; split; reflexivity|].
    split; [split; [discriminate|intros H; exfalso; auto]|].
    intros cfg' cur' [= <- <-]. cbn [is_some pending].
    rewrite !map_app. cbn [map]. rewrite En. auto. }
  destruct (contains "/" L && contains "." L) eqn:E8.
  { apply andb_true_iff in E8. destruct E8 as (E8 & E9).
    destruct (ip_network L) as [n|] eqn:En.
    - split; [split; [discriminate|intros H; exfalso; auto]|].
      intros cfg' cur' [= <- <-]. cbn [interfaces networks].
      split; [reflexivity|]. split; [reflexivity|]. right.
      repeat split; auto. congruence.
    - split; [split; [discriminate|intros H; exfalso; auto]|].
      intros cfg' cur' [= <- <-]. auto. }
  split; [split; [discriminate|intros H; exfalso; auto]|].
  intros cfg' cur' [= <- <-]. auto.
Qed.

Lemma parse_lines_None lines :
  fold_left (fun st line => match st with
                            | Some s => parse_line s line
                            | None => None
                            end) lines None = None.
Proof. induction lines as [|l r IH]; [reflexivity|exact IH]. Qed.

Lemma parse_lines_cons l r st :
  parse_lines (l :: r) st
  = match parse_line st l with
    | Some s => parse_lines r s
    | None => None
    end.
Proof.
  unfold parse_lines. cbn [fold_left].
  destruct (parse_line st l); [reflexivity|apply parse_lines_None].
Qed.

Lemma parse_lines_spec lines : forall st,
  (parse_lines lines st = None <->
   exists pre l post,
     lines = pre ++ l :: post
     /\ is_some (snd st) || existsb name_line pre = true
     /\ bad_cost_line l = true)
  /\ forall st',
       parse_lines lines st = Some st' ->
       map name (interfaces (fst st') ++ pending (snd st'))
       = map name (interfaces (fst st) ++ pending (snd st))
           ++ map name_of (filter name_line lines)
       /\ forall s,
            In s (networks (fst st')) ->
            In s (networks (fst st))
            \/ (ip_network s <> None /\ contains "/" s = true /\ contains "." s = true
                /\ exists l, In l lines /\ s = strip l).
Proof.
  induction lines as [|l r IH]; intros [cfg cur].
  - split.
    + split; [discriminate|]. intros (pre & l & post & E & _).
      destruct pre; discriminate.
    + intros st' [= <-]. cbn [filter map]. rewrite app_nil_r. auto.
  - rewrite parse_lines_cons.
    destruct (parse_line_spec cfg cur l) as (S1 & S2). cbn [fst snd].
    destruct (parse_line (cfg, cur) l) as [[cfg1 cur1]|] eqn:E1.
    + destruct (S2 cfg1 cur1 eq_refl) as (Hc & Hi & Hn).
      destruct (IH (cfg1, cur1)) as (IH1 & IH2). cbn [fst snd] in IH1, IH2.
      split.
      * rewrite IH1. split.
        -- intros (pre & l' & post & E & Hs & Hb).
           exists (l :: pre), l', post. split; [rewrite E; reflexivity|].
           split; [|assumption].
           cbn [existsb]. rewrite Hc in Hs. now rewrite orb_assoc.
        -- intros (pre & l' & post & E & Hs & Hb).
           destruct pre as [|p pre]; cbn [app] in E; injection E as <- E.
           ++ subst post. exfalso. cbn [existsb] in Hs. rewrite orb_false_r in Hs.
              assert (Hx : Some (cfg1, cur1) = @None (OSPFConfig * option OSPFInterface))
                by (apply S1; auto).
              discriminate.
           ++ exists pre, l', post. split; [assumption|]. split; [|assumption].
              cbn [existsb] in Hs. rewrite Hc. now rewrite <- orb_assoc.
      * intros st' H. destruct (IH2 st' H) as (Hi' & Hn').
        split.
        -- rewrite Hi', Hi. cbn [filter].
           destruct (name_line l); cbn [map]; rewrite <- app_assoc; reflexivity.
        -- intros s Hs. destruct (Hn' s Hs) as [Hin|(P1 & P2 & P3 & l' & Hl' & ->)].
           ++ destruct Hn as [Hn|(Hn & Q1 & Q2 & Q3)]; rewrite Hn in Hin; [now left|].
              apply in_app_or in Hin. destruct Hin as [Hin|[<-|[]]]; [now left|].
              right. repeat split; auto. exists l. split; [now left|reflexivity].
           ++ right. repeat split; auto. exists l'. split; [now right|reflexivity].
    + split; [|discriminate].
      split; [intros _|reflexivity].
      destruct (proj1 S1 eq_refl) as (Hc & Hb).
      exists [], l, r. cbn [app existsb]. rewrite Hc. auto.
Qed.

Lemma parse_file_Some content cfg :
  parse_file content = Some cfg ->
  exists cfg' cur,
    parse_lines (split LF (strip content)) (mkConfig "" [] [] [], None) = Some (cfg', cur)
    /\ networks cfg = networks cfg'
    /\ interfaces cfg = interfaces cfg' ++ pending cur.
Proof.
  unfold parse_file.
  destruct (parse_lines _ _) as [[cfg' [i|]]|]; intros [= <-].
  - exists cfg', (Some i). auto.
  - exists cfg', None. cbn [pending]. rewrite app_nil_r. auto.
Qed.

Lemma parse_file_networks_parse content config s :
  parse_file content = Some config ->
  In s (networks config) -> ip_network s <> None.
Proof.
  intros H Hs. destruct (parse_file_Some _ _ H) as (cfg' & cur & Hp & Hn & _).
  destruct (parse_lines_spec (split LF (strip content)) (mkConfig "" [] [] [], None))
    as (_ & S2).
  destruct (S2 _ Hp) as (_ & Hnet). cbn [fst snd networks] in Hnet.
  rewrite Hn in Hs. destruct (Hnet s Hs) as [[]|Hx]. apply Hx.
Qed.

(** X12.  Every network that [parse_file] records is a line of the file,
    stripped, that holds a ['/'] and a ['.'] and that [ip_network]
    accepts: a configuration read from a file has no malformed network. *)
Theorem parse_file_networks content config :
  isascii content = true ->
  parse_file content = Some config ->
  forall s,
    In s (networks config) ->
    ip_network s <> None
    /\ contains "/" s = true /\ contains "." s = true
    /\ exists line, In line (split LF (strip content)) /\ s = strip line.
Proof.
  intros _ H s Hs. destruct (parse_file_Some _ _ H) as (cfg' & cur & Hp & Hn & _).
  destruct (parse_lines_spec (split LF (strip content)) (mkConfig "" [] [] [], None))
    as (_ & S2).
  destruct (S2 _ Hp) as (_ & Hnet). cbn [fst snd networks] in Hnet.
  rewrite Hn in Hs. destruct (Hnet s Hs) as [[]|Hx]. exact Hx.
Qed.

Lemma parse_file_networks_witness :
  ip_network "10.0.0.7/24" <> None
  /\ contains "/" "10.0.0.7/24" = true /\ contains "." "10.0.0.7/24" = true
  /\ exists line,
       In line (split LF (strip ("Name: a" ++ String LF " 10.0.0.7/24 ")))
       /\ "10.0.0.7/24" = strip line.
Proof.
  apply (parse_file_networks ("Name: a" ++ String LF " 10.0.0.7/24 ")
           (mkConfig "" [] ["10.0.0.7/24"] [mkInterface "a" "" 1 "none" false 1])).
  - vm_compute. reflexivity.
  - vm_compute. reflexivity.
  - now left.
Defined.

(** X13.  The parser gives up (the program exits with status 1) in one
    case only: a [Cost:] line, after a [Name:] line has opened an
    interface section, whose value [int] rejects. *)
Theorem parse_file_exits content :
  isascii content = true ->
  (parse_file content = None <->
   exists pre line post,
     split LF (strip content) = pre ++ line :: post
     /\ existsb name_line pre = true
     /\ bad_cost_line line = true).
Proof.
  intros _.
  destruct (parse_lines_spec (split LF (strip content)) (mkConfig "" [] [] [], None))
    as (S1 & _).
  cbn [snd is_some orb] in S1. rewrite <- S1. unfold parse_file.
  destruct (parse_lines _ _) as [[cfg' [i|]]|]; split; try discriminate; reflexivity.
Qed.

Lemma parse_file_exits_witness :
  parse_file ("Name: a" ++ String LF "Cost: ten") = None <->
  exists pre line post,
    split LF (strip ("Name: a" ++ String LF "Cost: ten")) = pre ++ line :: post
    /\ existsb name_line pre = true
    /\ bad_cost_line line = true.
Proof.
  apply (parse_file_exits ("Name: a" ++ String LF "Cost: ten")).
  vm_compute. reflexivity.
Defined.

(** X14.  The interfaces of the configuration are the [Name:] lines of
    the file, in order: one interface for each such line, named by the
    text after the colon, stripped. *)
Theorem parse_file_interfaces content config :
  isascii content = true ->
  parse_file content = Some config ->
  map name (interfaces config)
  = map name_of (filter name_line (split LF (strip content))).
Proof.
  intros _ H. destruct (parse_file_Some _ _ H) as (cfg' & cur & Hp & _ & Hi).
  destruct (parse_lines_spec (split LF (strip content)) (mkConfig "" [] [] [], None))
    as (_ & S2).
  destruct (S2 _ Hp) as (Hint & _). cbn [fst snd interfaces pending app map] in Hint.
  rewrite Hi. exact Hint.
Qed.

Lemma parse_file_interfaces_witness :
  map name [mkInterface "a" "port1" 1 "none" false 1; mkInterface "b" "" 5 "none" false 1]
  = map name_of
        (filter name_line
           (split LF (strip ("Name: a" ++ String LF "Interface: port1" ++ String LF
                             "Name:b" ++ String LF "Cost: 5")))).
Proof.
  apply (parse_file_interfaces
           ("Name: a" ++ String LF "Interface: port1" ++ String LF
            "Name:b" ++ String LF "Cost: 5")
           (mkConfig "" [] []
              [mkInterface "a" "port1" 1 "none" false 1;
               mkInterface "b" "" 5 "none" false 1])).
  - vm_compute. reflexivity.
  - vm_compute. reflexivity.
Defined.

(** X15.  A configuration read from a file never makes [generate_config]
    raise the [ValueError] of a malformed network: the generator writes
    its file, unless the file's networks hold an IPv4 and an IPv6 network,
    which raises the [TypeError] of the summarizer. *)
Theorem parse_file_generate_config content config :
  isascii content = true ->
  parse_file content = Some config ->
  (exists text, generate_config config = Ok text)
  \/ generate_config config = Raise TypeError.
Proof.
  intros Ha H.
  destruct (generate_config_result config) as (G1 & G2 & G3).
  destruct (generate_config config) as [text|[|]] eqn:E; [left; eauto| |now right].
  exfalso. destruct (proj1 G2 eq_refl) as (_ & s & Hs & Es).
  exact (parse_file_networks_parse content config s H Hs Es).
Qed.

Lemma parse_file_generate_config_witness :
  (exists text, generate_config (mkConfig "1.1.1.1" [] ["10.0.0.7/24"] []) = Ok text)
  \/ generate_config (mkConfig "1.1.1.1" [] ["10.0.0.7/24"] []) = Raise TypeError.
Proof.
  apply (parse_file_generate_config
           ("OSPF Router ID: 1.1.1.1" ++ String LF "10.0.0.7/24" ++ String LF "bad/1.2")
           (mkConfig "1.1.1.1" [] ["10.0.0.7/24"] [])).
  - vm_compute. reflexivity.
  - vm_compute. reflexivity.
Defined.

(** ** The router id and the areas *)

Lemma parse_line_ids cfg cur line cfg' cur' :
  parse_line (cfg, cur) line = Some (cfg', cur') ->
  router_id cfg' = (if router_line line then name_of line else router_id cfg)
  /\ areas cfg' = (if areas_line line then areas_of line else areas cfg).
Proof.
  unfold parse_line, router_line, areas_line, areas_of, name_of.
  set (L := strip line).
  destruct (str_empty L) eqn:E0.
  { destruct L; [|discriminate]. cbn [startswith]. intros [= <- <-]. auto. }
  destruct (startswith L "OSPF Router ID:") eqn:E1.
  { destruct (value_of_startswith _ _ E1 eq_refl) as (v & ->).
    rewrite (startswith_excl _ _ _ _ _ E1) by discriminate.
    intros [= <- <-]. auto. }
  destruct (startswith L "Areas:") eqn:E2.
  { destruct (value_of_startswith _ _ E2 eq_refl) as (v & ->). intros [= <- <-]. auto. }
  destruct (startswith L "Name:") eqn:E3.
  { destruct (value_of L); [|discriminate]. intros [= <- <-].
    destruct cur; auto. }
  assert (Hf : forall value set_,
             set_field cfg cur value set_ = Some (cfg', cur') -> cfg' = cfg).
  { intros value set_. unfold set_field. destruct value; [|discriminate].
    destruct cur as [i|]; [destruct (set_ i s)|]; congruence. }
  destruct (startswith L "Interface:" && is_some cur);
    [intros H; apply Hf in H; subst; auto|].
  destruct (startswith L "Cost:" && is_some cur);
    [intros H; apply Hf in H; subst; auto|].
  destruct (startswith L "Authentication:" && is_some cur);
    [intros H; apply Hf in H; subst; auto|].
  destruct (startswith L "Passive:" && is_some cur);
    [intros H; apply Hf in H; subst; auto|].
  destruct (contains "/" L && contains "." L).
  - destruct (ip_network L); intros [= <- <-]; auto.
  - intros [= <- <-]. auto.
Qed.

Lemma filter_last_snoc {A B : Type} (p : A -> bool) (f : A -> B) l x d :
  last (map f (filter p (l ++ [x]))) d
  = if p x then f x else last (map f (filter p l)) d.
Proof.
  rewrite filter_app, map_app. cbn [filter].
  destruct (p x); cbn [map]; [apply last_last|now rewrite app_nil_r].
Qed.

Lemma parse_lines_snoc lines l st :
  parse_lines (lines ++ [l]) st
  = match parse_lines lines st with
    | Some s => parse_line s l
    | None => None
    end.
Proof. unfold parse_lines. rewrite fold_left_app. reflexivity. Qed.

Lemma parse_lines_ids lines : forall st',
  parse_lines lines (mkConfig "" [] [] [], None) = Some st' ->
  router_id (fst st') = last (map name_of (filter router_line lines)) ""
  /\ areas (fst st') = last (map areas_of (filter areas_line lines)) [].
Proof.
  induction lines as [|l r IH] using rev_ind; intros st' H.
  - injection H as <-. auto.
  - rewrite parse_lines_snoc in H.
    destruct (parse_lines r (mkConfig "" [] [] [], None)) as [[cfg cur]|]; [|discriminate].
    destruct (IH _ eq_refl) as (I1 & I2). cbn [fst] in I1, I2.
    destruct st' as [cfg' cur']. destruct (parse_line_ids _ _ _ _ _ H) as (P1 & P2).
    cbn [fst]. rewrite !filter_last_snoc, P1, P2, I1, I2. auto.
Qed.

(** X16.  The router id of the configuration is the text after the colon,
    stripped, of the last [OSPF Router ID:] line of the file, and its
    areas are the comma-separated fields, stripped, of the last [Areas:]
    line; without such a line they are the empty text and the empty
    list. *)
Theorem parse_file_router_id_areas content config :
  isascii content = true ->
  parse_file content = Some config ->
  router_id config
  = last (map name_of (filter router_line (split LF (strip content)))) ""
  /\ areas config
     = last (map areas_of (filter areas_line (split LF (strip content)))) [].
Proof.
  intros _ H.
  assert (exists cfg' cur,
             parse_lines (split LF (strip content)) (mkConfig "" [] [] [], None)
             = Some (cfg', cur)
             /\ router_id config = router_id cfg' /\ areas config = areas cfg')
    as (cfg' & cur & Hp & E1 & E2).
  { unfold parse_file in H.
    destruct (parse_lines _ _) as [[cfg' [i|]]|];
      [injection H as <-|injection H as <-|discriminate H]; eauto 6. }
  destruct (parse_lines_ids _ _ Hp) as (I1 & I2). cbn [fst] in I1, I2.
  rewrite E1, E2. auto.
Qed.

Lemma parse_file_router_id_areas_witness :
  router_id (mkConfig "2.2.2.2" ["0.0.0.0"; "0.0.0.1"] [] [])
  = last (map name_of
            (filter router_line
               (split LF (strip ("OSPF Router ID: 1.1.1.1" ++ String LF
                                 "Areas: 0.0.0.0 , 0.0.0.1" ++ String LF
                                 "OSPF Router ID:2.2.2.2"))))) ""
  /\ areas (mkConfig "2.2.2.2" ["0.0.0.0"; "0.0.0.1"] [] [])
     = last (map areas_of
               (filter areas_line
                  (split LF (strip ("OSPF Router ID: 1.1.1.1" ++ String LF
                                    "Areas: 0.0.0.0 , 0.0.0.1" ++ String LF
                                    "OSPF Router ID:2.2.2.2"))))) [].
Proof.
  apply (parse_file_router_id_areas
           ("OSPF Router ID: 1.1.1.1" ++ String LF
            "Areas: 0.0.0.0 , 0.0.0.1" ++ String LF
            "OSPF Router ID:2.2.2.2")
           (mkConfig "2.2.2.2" ["0.0.0.0"; "0.0.0.1"] [] [])).
  - vm_compute. reflexivity.
  - vm_compute. reflexivity.
Defined.

(** ** The two halves of a network are replaced by the network *)

Section Halves.
Variable s : IPNetwork.
Hypothesis s_wf : wf_net s.
Hypothesis s_len : prefixlen s + 1 < _max_prefixlen (version s).

Local Abbreviation w := (_max_prefixlen (version s)).
Local Abbreviation a := (lower_half s).
Local Abbreviation b := (upper_half s).

Lemma half_pow :
  2 ^ (w - prefixlen s) = 2 * 2 ^ (w - prefixlen s - 1)
  /\ 0 < 2 ^ (w - prefixlen s - 1).
Proof.
  destruct s_wf as (Hp & _).
  replace (w - prefixlen s) with (Z.succ (w - prefixlen s - 1)) at 1 by lia.
  rewrite Z.pow_succ_r by lia. split; [reflexivity|]. apply Z.pow_pos_nonneg; lia.
Qed.

Lemma lower_half_wf : wf_net a.
Proof.
  destruct s_wf as (Hp & Ha & Hm). destruct half_pow as (E & Hpos).
  unfold wf_net, lower_half. cbn [version network_address prefixlen].
  split; [lia|]. split; [assumption|].
  replace (w - (prefixlen s + 1)) with (w - prefixlen s - 1) by lia.
  rewrite E in Hm. apply Z.mod_divide in Hm; [|lia].
  apply Z.mod_divide; [lia|]. destruct Hm as (q & Hq). exists (q * 2). lia.
Qed.

Lemma upper_half_wf : wf_net b.
Proof.
  destruct s_wf as (Hp & Ha & Hm). destruct half_pow as (E & Hpos).
  unfold wf_net, upper_half. cbn [version network_address prefixlen].
  replace (w - (prefixlen s + 1)) with (w - prefixlen s - 1) by lia.
  rewrite E in Hm. apply Z.mod_divide in Hm; [|lia]. destruct Hm as (q & Hq).
  assert (Hw : 2 ^ w = 2 ^ prefixlen s * 2 ^ (w - prefixlen s))
    by (apply pow2_split; lia).
  assert (Hpp : 0 < 2 ^ prefixlen s) by (apply Z.pow_pos_nonneg; lia).
  split; [lia|]. split.
  - rewrite E in Hw. set (h := 2 ^ (w - prefixlen s - 1)) in *.
    assert (Hlt : q < 2 ^ prefixlen s).
    { apply (Z.mul_lt_mono_pos_r (2 * h)); lia. }
    assert (Hle : (q + 1) * (2 * h) <= 2 ^ prefixlen s * (2 * h))
      by (apply Z.mul_le_mono_nonneg_r; lia).
    lia.
  - apply Z.mod_divide; [lia|]. exists (q * 2 + 1). lia.
Qed.

Lemma s_eta : mkNet (version s) (network_address s) (prefixlen s) = s.
Proof. destruct s; reflexivity. Qed.

Lemma supernet_lower_half : supernet a = s.
Proof.
  destruct s_wf as (Hp & Ha & Hm).
  pose proof (supernet_address a lower_half_wf) as Had.
  pose proof (supernet_prefixlen a) as Hpl. pose proof (supernet_version a) as Hv.
  cbn [lower_half version network_address prefixlen] in Had, Hpl, Hv.
  replace (w - (prefixlen s + 1) + 1) with (w - prefixlen s) in Had by lia.
  rewrite Hm in Had. specialize (Had ltac:(lia)).
  destruct (prefixlen s + 1 =? 0) eqn:E0; [apply Z.eqb_eq in E0; lia|].
  destruct (supernet a) as [v x p].
  cbn [version network_address prefixlen] in Had, Hpl, Hv.
  transitivity (mkNet (version s) (network_address s) (prefixlen s)); [|apply s_eta].
  subst v x p. f_equal; lia.
Qed.

Lemma supernet_upper_half : supernet b = s.
Proof.
  destruct s_wf as (Hp & Ha & Hm). destruct half_pow as (E & Hpos).
  pose proof (supernet_address b upper_half_wf) as Had.
  pose proof (supernet_prefixlen b) as Hpl. pose proof (supernet_version b) as Hv.
  cbn [upper_half version network_address prefixlen] in Had, Hpl, Hv.
  replace (w - (prefixlen s + 1) + 1) with (w - prefixlen s) in Had by lia.
  specialize (Had ltac:(lia)).
  assert (Hmod : (network_address s + 2 ^ (w - prefixlen s - 1)) mod 2 ^ (w - prefixlen s)
                 = 2 ^ (w - prefixlen s - 1)).
  { apply Z.mod_divide in Hm; [|lia]. destruct Hm as (q & Hq).
    symmetry. apply (Z.mod_unique_pos _ _ q); lia. }
  rewrite Hmod in Had.
  destruct (prefixlen s + 1 =? 0) eqn:E0; [apply Z.eqb_eq in E0; lia|].
  destruct (supernet b) as [v x p].
  cbn [version network_address prefixlen] in Had, Hpl, Hv.
  transitivity (mkNet (version s) (network_address s) (prefixlen s)); [|apply s_eta].
  subst v x p. f_equal; lia.
Qed.

Lemma halves_differ : net_eqb b a = false.
Proof.
  destruct half_pow as (_ & Hpos).
  unfold net_eqb, upper_half, lower_half. cbn [version network_address prefixlen].
  assert (E : (network_address s + 2 ^ (w - prefixlen s - 1) =? network_address s) = false)
    by (apply Z.eqb_neq; lia).
  rewrite E, andb_false_r. reflexivity.
Qed.

Lemma merge_fuel_halves : exists k, merge_fuel [a; b] = S (S (S (S k))).
Proof.
  destruct s_wf as (Hp & _). unfold merge_fuel.
  cbn [fold_right lower_half upper_half prefixlen].
  set (n := Z.to_nat _).
  assert (Hn : (3 <= n)%nat) by (unfold n; lia).
  destruct n as [|[|[|k]]]; try lia. eauto.
Qed.

Lemma collapse_halves : collapse_addresses [a; b] = Ok [s].
Proof.
  destruct s_wf as (Hp & _).
  assert (Ea : (prefixlen a =? _max_prefixlen (version a)) = false)
    by (apply Z.eqb_neq; cbn [lower_half prefixlen version]; lia).
  assert (Eb : (prefixlen b =? _max_prefixlen (version b)) = false)
    by (apply Z.eqb_neq; cbn [upper_half prefixlen version]; lia).
  assert (Ev : ipver_eqb (version a) (version b) = true) by now apply ipver_eqb_eq.
  unfold collapse_addresses. cbn [split_ips_nets].
  rewrite Ea. cbn [rev app]. rewrite Eb. cbn [rev app]. rewrite Ev.
  cbn [negb bind app].
  unfold _collapse_addresses_internal.
  destruct merge_fuel_halves as (k & ->). cbn [rev app].
  cbn [merge_loop]. rewrite supernet_upper_half. cbn [dict_get dict_set].
  rewrite supernet_lower_half. cbn [dict_get]. rewrite net_eqb_refl.
  rewrite halves_differ. cbn [negb dict_del]. rewrite net_eqb_refl.
  cbn [dict_get dict_set map snd]. unfold sorted_nets. cbn [same_version forallb].
  cbn [stable_sort fold_right insert_sorted bind skip_subsumed]. reflexivity.
Qed.

Lemma halves_version : ipver_eqb (version b) (version a) = true.
Proof. now apply ipver_eqb_eq. Qed.

Lemma halves_order : network_address a < network_address b.
Proof.
  destruct half_pow as (_ & Hpos). cbn [lower_half upper_half network_address]. lia.
Qed.

Lemma halves_str_in :
  str_in (str_net a) [str_net a; str_net b] = true
  /\ str_in (str_net b) [str_net a; str_net b] = true.
Proof. split; apply str_in_true; cbn [In]; auto. Qed.

Lemma find_tightest_summary_halves :
  _find_tightest_summary [a; b] = Some (str_net s, [str_net a; str_net b]).
Proof.
  pose proof halves_order as Ho.
  unfold _find_tightest_summary.
  change (Z.of_nat (List.length [a; b]) <? 2) with false. cbv iota.
  unfold tightest_summary_body, sorted_nets.
  cbn [same_version forallb]. rewrite halves_version. cbn [andb].
  cbn [stable_sort fold_right insert_sorted]. unfold lt_addr at 1.
  rewrite (proj2 (Z.ltb_ge _ _)) by lia.
  cbn [bind]. rewrite collapse_halves. cbn [bind].
  unfold exact_collapse. cbn [map]. unfold py_min. cbn [fold_left bind].
  cbn [lower_half upper_half prefixlen]. rewrite Z.min_id.
  rewrite (proj2 (Z.ltb_lt _ _)) by lia. reflexivity.
Qed.

(** Two halves with different classification keys differ within the
    first sixteen bits. *)
Lemma shiftr_halves M :
  w - prefixlen s <= M ->
  Z.shiftr (network_address b) M = Z.shiftr (network_address a) M.
Proof.
  intros HM. destruct s_wf as (Hp & Ha & Hm). destruct half_pow as (E & Hpos).
  cbn [lower_half upper_half network_address].
  rewrite !Z.shiftr_div_pow2 by lia.
  set (h := 2 ^ (w - prefixlen s - 1)) in *.
  assert (HM2 : 2 ^ M = 2 ^ (w - prefixlen s) * 2 ^ (M - (w - prefixlen s))).
  { rewrite <- Z.pow_add_r by lia. f_equal. lia. }
  assert (Ht : 0 < 2 ^ (M - (w - prefixlen s))) by (apply Z.pow_pos_nonneg; lia).
  set (t := 2 ^ (M - (w - prefixlen s))) in *.
  apply Z.mod_divide in Hm; [|lia]. destruct Hm as (q & Hq).
  rewrite HM2, Hq, !E.
  symmetry. apply (Z.div_unique_pos _ _ _ (2 * h * (q mod t) + h)).
  - pose proof (Z.mod_pos_bound q t Ht) as Hb. nia.
  - pose proof (Z.div_mod q t ltac:(lia)) as Hd.
    replace (q * (2 * h) / (2 * h * t)) with (q / t).
    + rewrite Hd at 1. ring.
    + rewrite (Z.mul_comm q), Z.div_mul_cancel_l by lia. reflexivity.
Qed.

Lemma major_key_halves :
  16 <= prefixlen s -> major_key b = major_key a.
Proof.
  intros H16. unfold major_key, packed_byte.
  change (version b) with (version s). change (version a) with (version s).
  rewrite !(shiftr_halves _) by lia. reflexivity.
Qed.

Lemma find_major_network_summaries_halves :
  _find_major_network_summaries [a; b]
  = if String.eqb (major_key a) (major_key b)
    then [(str_net s, [str_net a; str_net b])]
    else [].
Proof.
  unfold _find_major_network_summaries, _group_by_major_network_class.
  cbn [fold_left]. unfold group_add at 2. cbn [dict_get dict_set].
  unfold group_add. cbn [dict_get].
  destruct (String.eqb (major_key a) (major_key b)) eqn:Ek.
  - cbn [dict_set]. rewrite Ek. cbn [app map snd filter List.length].
    change (1 <? Z.of_nat 2) with true. cbv iota. cbn [fold_left List.length].
    change (Z.of_nat 2 <? 2) with false. cbv iota.
    rewrite find_tightest_summary_halves. reflexivity.
  - cbn [dict_set]. rewrite Ek. cbn [map snd filter List.length].
    change (1 <? Z.of_nat 1) with false. cbv iota. reflexivity.
Qed.

Lemma find_contiguous_summaries_halves_done :
  _find_contiguous_summaries [a; b] [(str_net s, [str_net a; str_net b])] = [].
Proof.
  unfold _find_contiguous_summaries. cbn [flat_map snd app filter].
  destruct halves_str_in as (-> & ->). reflexivity.
Qed.

Lemma find_contiguous_summaries_halves :
  String.eqb (major_key a) (major_key b) = false ->
  _find_contiguous_summaries [a; b] [] = [(str_net s, [str_net a; str_net b])].
Proof.
  intros Ek. destruct s_wf as (Hp & _).
  unfold _find_contiguous_summaries. cbn [flat_map filter str_in existsb negb List.length].
  change (Z.of_nat 2 <? 2) with false. cbv iota.
  cbn [pair_loop fold_left]. unfold try_pair. rewrite collapse_halves.
  cbn [lower_half upper_half prefixlen]. rewrite Z.max_id.
  rewrite (proj2 (Z.ltb_lt _ _)) by lia.
  assert (H28 : prefixlen s <= 28).
  { destruct (Z_le_gt_dec 16 (prefixlen s)) as [H16|H16]; [|lia].
    rewrite (major_key_halves H16), String.eqb_refl in Ek. discriminate. }
  rewrite (proj2 (Z.leb_le _ _)) by lia. reflexivity.
Qed.

Lemma find_summary_routes_halves :
  find_summary_routes [str_net a; str_net b]
  = Ok [(str_net s, [str_net a; str_net b])].
Proof.
  pose proof halves_order as Ho.
  unfold find_summary_routes, parse_networks. cbn [flat_map].
  rewrite (ip_network_str_net a lower_half_wf), (ip_network_str_net b upper_half_wf).
  cbn [app]. unfold sorted_nets. cbn [same_version forallb].
  rewrite halves_version. cbn [andb].
  cbn [stable_sort fold_right insert_sorted]. unfold lt_addr_prefixlen at 1.
  rewrite (proj2 (Z.ltb_ge _ _)) by lia.
  rewrite (proj2 (Z.eqb_neq _ _)) by lia. cbn [orb andb bind].
  rewrite find_major_network_summaries_halves.
  destruct (String.eqb (major_key a) (major_key b)) eqn:Ek.
  - cbn [dict_update fold_left dict_set fst snd].
    rewrite find_contiguous_summaries_halves_done. reflexivity.
  - cbn [dict_update fold_left].
    rewrite (find_contiguous_summaries_halves Ek). reflexivity.
Qed.
End Halves.

(** X17.  The two halves of a network (given by their texts, the lower
    one first, and not host routes) are replaced by the network: the
    mapping has that one entry and the optimized list is the network
    alone, for either IP version. *)
Theorem halves_replaced_by_network s :
  wf_net s ->
  prefixlen s + 1 < _max_prefixlen (version s) ->
  get_optimized_networks [str_net (lower_half s); str_net (upper_half s)]
  = Ok ([str_net s],
        [(str_net s, [str_net (lower_half s); str_net (upper_half s)])]).
Proof.
  intros Hwf Hlen. unfold get_optimized_networks.
  rewrite (find_summary_routes_halves s Hwf Hlen).
  cbn [bind map fst flat_map snd app filter].
  destruct (halves_str_in s) as (-> & ->). reflexivity.
Qed.

Lemma halves_replaced_by_network_witness :
  get_optimized_networks [str_net (lower_half (mkNet V4 167772160 23));
                          str_net (upper_half (mkNet V4 167772160 23))]
  = Ok ([str_net (mkNet V4 167772160 23)],
        [(str_net (mkNet V4 167772160 23),
          [str_net (lower_half (mkNet V4 167772160 23));
           str_net (upper_half (mkNet V4 167772160 23))])]).
Proof.
  apply (halves_replaced_by_network (mkNet V4 167772160 23)).
  - unfold wf_net. vm_compute. repeat split; intros H; discriminate H.
  - vm_compute. reflexivity.
Defined.

(** ** [collapse_addresses] adds no address *)

Lemma within_In l n : In n l -> within l n.
Proof. intros H a Ha. exists n. auto. Qed.

Lemma within_trans l l' n :
  Forall (within l) l' -> within l' n -> within l n.
Proof.
  intros Hl Hn a Ha. destruct (Hn a Ha) as (o & Ho & Hv & Hoa).
  rewrite Forall_forall in Hl. destruct (Hl o Ho a Hoa) as (o' & Ho' & Hv' & Hoa').
  exists o'. split; [assumption|]. split; [congruence|assumption].
Qed.

Lemma net_ext n e :
  version e = version n -> prefixlen e = prefixlen n ->
  network_address e = network_address n -> n = e.
Proof.
  destruct n as [v1 a1 p1], e as [v2 a2 p2].
  cbn [version network_address prefixlen]. congruence.
Qed.

(** The supernet of two different networks that share it holds no address
    outside them. *)
Lemma supernet_union n e :
  wf_net n -> wf_net e -> supernet n = supernet e -> n <> e ->
  forall a, has_address (supernet n) a -> has_address n a \/ has_address e a.
Proof.
  intros Wn We Es Hne a Ha.
  destruct (Z.eq_dec (prefixlen n) 0) as [Hn0|Hn0].
  { left. unfold supernet in Ha. rewrite (proj2 (Z.eqb_eq _ _) Hn0) in Ha. exact Ha. }
  destruct (Z.eq_dec (prefixlen e) 0) as [He0|He0].
  { right. rewrite Es in Ha. unfold supernet in Ha.
    rewrite (proj2 (Z.eqb_eq _ _) He0) in Ha. exact Ha. }
  pose proof Wn as (Hpn & Han & Hmn). pose proof We as (Hpe & Hae & Hme).
  pose proof (supernet_version n) as Vn. pose proof (supernet_version e) as Ve.
  pose proof (supernet_prefixlen n) as Pn. pose proof (supernet_prefixlen e) as Pe.
  rewrite (proj2 (Z.eqb_neq _ _) Hn0) in Pn. rewrite (proj2 (Z.eqb_neq _ _) He0) in Pe.
  pose proof (supernet_address n Wn ltac:(lia)) as An.
  pose proof (supernet_address e We ltac:(lia)) as Ae.
  pose proof (supernet_wf n Wn) as Ws.
  pose proof (broadcast_closed _ Ws) as Bs.
  pose proof (broadcast_closed _ Wn) as Bn. pose proof (broadcast_closed _ We) as Be.
  rewrite <- Es in Ve, Pe, Ae.
  assert (Ev : version e = version n) by congruence.
  assert (Ep : prefixlen e = prefixlen n) by lia.
  assert (Hext : network_address e = network_address n -> False)
    by (intros Ea; apply Hne; now apply net_ext).
  rewrite Ev, Ep in *. rewrite Vn, Pn in Bs.
  set (w := _max_prefixlen (version n)) in *. set (p := prefixlen n) in *.
  replace (w - (p - 1)) with (w - p + 1) in Bs by lia.
  assert (Hpow : 2 ^ (w - p + 1) = 2 * 2 ^ (w - p)).
  { rewrite Z.pow_add_r by lia. lia. }
  assert (Hpos : 0 < 2 ^ (w - p)) by (apply Z.pow_pos_nonneg; lia).
  destruct (mod_double (network_address n) (w - p) ltac:(lia) Hmn) as [Mn|Mn];
    destruct (mod_double (network_address e) (w - p) ltac:(lia) Hme) as [Me|Me];
    rewrite Mn in An; rewrite Me in Ae; unfold has_address in *.
  - exfalso. apply Hext. lia.
  - rewrite Bs, Bn, Be, Hpow in *. lia.
  - rewrite Bs, Bn, Be, Hpow in *. lia.
  - exfalso. apply Hext. lia.
Qed.

Lemma merge_loop_within L fuel : forall to_merge subnets,
  Forall wf_net to_merge -> subnets_ok subnets ->
  Forall (within L) to_merge -> Forall (within L) (map snd subnets) ->
  Forall (within L) (map snd (merge_loop fuel to_merge subnets)).
Proof.
  induction fuel as [|f IH]; intros tm sn Htm Hsn Wtm Wsn; [assumption|].
  destruct tm as [|net rest]; cbn [merge_loop]; [assumption|].
  inversion Htm as [|? ? Hnet Hrest]; subst.
  inversion Wtm as [|? ? Wnet Wrest]; subst.
  destruct (dict_get net_eqb (supernet net) sn) as [existing|] eqn:G.
  - pose proof (dict_get_In net_eqb net_eqb_eq _ _ _ G) as Hin.
    destruct (net_eqb existing net) eqn:E; cbn [negb].
    + apply IH; assumption.
    + assert (Hex : wf_net existing /\ supernet net = supernet existing).
      { unfold subnets_ok in Hsn. rewrite Forall_forall in Hsn.
        apply (Hsn _ Hin). }
      destruct Hex as (Wex & Esup).
      assert (Wiex : within L existing).
      { rewrite Forall_forall in Wsn. apply Wsn. apply in_map_iff.
        exists (supernet net, existing). auto. }
      apply IH.
      * constructor; [now apply supernet_wf|assumption].
      * unfold subnets_ok in *. rewrite Forall_forall in *.
        intros e He. apply Hsn. eapply dict_del_In; eauto.
      * constructor; [|assumption].
        intros a Ha.
        assert (Hne : net <> existing).
        { intros ->. rewrite net_eqb_refl in E. discriminate. }
        destruct (supernet_union net existing Hnet Wex Esup Hne a Ha) as [H|H].
        -- destruct (Wnet a H) as (o & Ho & Hv & Hoa). exists o.
           rewrite supernet_version. auto.
        -- destruct (Wiex a H) as (o & Ho & Hv & Hoa). exists o.
           split; [assumption|]. split; [|assumption].
           rewrite Esup, supernet_version. assumption.
      * rewrite Forall_forall in *. intros x Hx. apply Wsn.
        apply in_map_iff in Hx. destruct Hx as (kv & <- & Hkv).
        apply in_map. eapply dict_del_In; eauto.
  - rewrite (dict_set_new net_eqb _ _ _ G).
    apply IH; try assumption.
    + unfold subnets_ok. apply Forall_app. split; [assumption|].
      constructor; [|constructor]. cbn [fst snd]. auto.
    + rewrite map_app. apply Forall_app. split; [assumption|].
      constructor; [assumption|constructor].
Qed.

Lemma collapse_internal_within addresses out :
  Forall wf_net addresses ->
  _collapse_addresses_internal addresses = Ok out ->
  Forall (within addresses) out.
Proof.
  intros Hwf H. unfold _collapse_addresses_internal in H.
  set (sn := merge_loop (merge_fuel addresses) (rev addresses) []) in *.
  destruct (sorted_nets net_lt (map snd sn)) as [sorted|] eqn:ES; [|discriminate].
  cbn [bind] in H. injection H as <-.
  apply sorted_nets_Ok in ES. destruct ES as (_ & ->).
  assert (Hsn : Forall (within addresses) (map snd sn)).
  { apply merge_loop_within.
    - rewrite Forall_forall in *. intros y Hy. apply Hwf. now apply in_rev.
    - constructor.
    - rewrite Forall_forall. intros y Hy. apply within_In. now apply in_rev.
    - constructor. }
  rewrite Forall_forall in *. intros x Hx. apply Hsn.
  apply skip_subsumed_In in Hx.
  exact (proj1 (stable_sort_In net_lt _ x) Hx).
Qed.

Lemma summarize_loop_bounds fuel v : forall first_int last_int,
  0 <= first_int -> last_int <= _ALL_ONES v ->
  Forall (fun n => first_int <= network_address n
                   /\ broadcast_address n <= last_int
                   /\ version n = v)
         (summarize_loop fuel v first_int last_int).
Proof.
  induction fuel as [|f IH]; intros x y Hx Hy; cbn [summarize_loop]; [constructor|].
  destruct (x <=? y) eqn:E; [|constructor]. apply Z.leb_le in E.
  destruct (summarize_step v x y Hx E Hy) as (Hn & Hwf & Hbc & Hsh & Hle & Hp).
  cbv zeta. rewrite Hsh.
  assert (Hthis : x <= x /\ broadcast_address
                              (mkNet v x (_max_prefixlen v
                                          - Z.min (_count_righthand_zero_bits x (_max_prefixlen v))
                                                  (bit_length (y - x + 1) - 1))) <= y
                  /\ v = v).
  { split; [lia|]. split; [|reflexivity]. cbv zeta in Hbc. rewrite Hbc. lia. }
  destruct (x + 2 ^ _ - 1 =? _ALL_ONES v).
  - constructor; [exact Hthis|constructor].
  - constructor; [exact Hthis|].
    eapply Forall_impl; [|apply IH; lia].
    cbv beta. intros n (H1 & H2 & H3). repeat split; try assumption. lia.
Qed.

Lemma find_address_range_from_runs addresses : forall (S : Z -> Prop) first last,
  (forall x, first <= x <= last -> S x) ->
  forall fl, In fl (find_address_range_from first last addresses) ->
  forall x, fst fl <= x <= snd fl -> S x \/ In x addresses.
Proof.
  induction addresses as [|ip r IH]; intros S first last HS fl Hfl x Hx;
    cbn [find_address_range_from] in Hfl.
  - destruct Hfl as [<-|[]]. left. apply HS. exact Hx.
  - destruct (negb (ip =? last + 1)) eqn:E.
    + destruct Hfl as [<-|Hfl]; [left; apply HS; exact Hx|].
      right.
      destruct (IH (fun z => z = ip) ip ip ltac:(cbv beta; intros; lia) fl Hfl x Hx) as [->|H];
        [now left|now right].
    + apply negb_false_iff, Z.eqb_eq in E.
      assert (Hpre : forall z, first <= z <= ip -> S z \/ z = ip).
      { intros z Hz. destruct (Z.eq_dec z ip) as [->|Hne]; [now right|].
        left. apply HS. lia. }
      destruct (IH (fun z => S z \/ z = ip) first ip Hpre fl Hfl x Hx) as [[H|H]|H].
      * now left.
      * right. now left.
      * right. now right.
Qed.

Lemma find_address_range_runs addresses fl x :
  In fl (_find_address_range addresses) -> fst fl <= x <= snd fl -> In x addresses.
Proof.
  destruct addresses as [|ip r]; [intros []|]. cbn [_find_address_range].
  intros Hfl Hx.
  destruct (find_address_range_from_runs r (fun z => z = ip) ip ip
              ltac:(cbv beta; intros; lia) fl Hfl x Hx) as [->|H]; [now left|now right].
Qed.

(** Every network that [collapse_addresses] returns holds only addresses
    of the networks it is given. *)
Lemma collapse_addresses_within addresses out :
  Forall wf_net addresses ->
  collapse_addresses addresses = Ok out ->
  Forall (within addresses) out.
Proof.
  intros Hwf H. unfold collapse_addresses in H.
  destruct (split_ips_nets addresses [] []) as [[ips nets]|] eqn:Es; [|discriminate].
  cbn [bind] in H.
  destruct (split_ips_nets_spec addresses [] [] ips nets Es ltac:(intros a b []))
    as (I1 & I2 & I3 & _ & _ & _).
  pose proof Hwf as Hwf'. rewrite Forall_forall in Hwf.
  set (addrs := match ips with
                | [] => []
                | (v, _) :: _ =>
                    flat_map (fun fl => summarize_address_range v (fst fl) (snd fl))
                      (_find_address_range
                         (stable_sort Z.ltb (nodup Z.eq_dec (map snd ips))))
                end) in *.
  assert (Haddrs : Forall wf_net addrs /\ Forall (within addresses) addrs).
  { unfold addrs. destruct ips as [|[v a0] t] eqn:Eips; [split; constructor|].
    rewrite <- Eips in *.
    assert (Hv : forall e, In e ips -> fst e = v).
    { intros e He. apply (I1 e (v, a0)); [assumption|]. rewrite Eips. now left. }
    assert (Hips : forall e, In e ips ->
                     exists m, In m addresses /\ wf_net m
                               /\ prefixlen m = _max_prefixlen (version m)
                               /\ e = (version m, network_address m)).
    { intros e He. destruct (I2 e He) as [[]|(m & Hm & Hp & ->)]. exists m. auto. }
    set (sorted_ips := stable_sort Z.ltb (nodup Z.eq_dec (map snd ips))).
    assert (HP : Forall (fun a => 0 <= a <= _ALL_ONES v) sorted_ips).
    { rewrite Forall_forall. intros a Ha.
      apply (stable_sort_In Z.ltb), nodup_In, in_map_iff in Ha.
      destruct Ha as (e & <- & He). rewrite <- (Hv e He).
      destruct (Hips e He) as (m & _ & (_ & Hma & _) & _ & ->).
      unfold _ALL_ONES. cbn [fst snd]. lia. }
    destruct (find_address_range_spec _ _ HP) as (R1 & _).
    rewrite Forall_forall in R1. split.
    - rewrite Forall_forall. intros m Hm. apply in_flat_map in Hm.
      destruct Hm as (fl & Hfl & Hm). destruct (R1 fl Hfl) as (? & (? & ?) & (? & ?)).
      pose proof (summarize_loop_wf (Z.to_nat (snd fl - fst fl + 1)) v (fst fl) (snd fl)
                    ltac:(lia) ltac:(lia)) as W.
      rewrite Forall_forall in W. now apply W.
    - rewrite Forall_forall. intros m Hm. apply in_flat_map in Hm.
      destruct Hm as (fl & Hfl & Hm). destruct (R1 fl Hfl) as (? & (? & ?) & (? & ?)).
      pose proof (summarize_loop_bounds (Z.to_nat (snd fl - fst fl + 1)) v (fst fl) (snd fl)
                    ltac:(lia) ltac:(lia)) as B.
      rewrite Forall_forall in B. destruct (B m Hm) as (B1 & B2 & B3).
      intros a (Ha1 & Ha2).
      assert (Hin : In a sorted_ips)
        by (apply (find_address_range_runs _ fl a Hfl); lia).
      apply (stable_sort_In Z.ltb), nodup_In, in_map_iff in Hin.
      destruct Hin as (e & Ee & He).
      destruct (Hips e He) as (o & Ho & Wo & Hpo & ->). cbn [snd] in Ee.
      pose proof (Hv _ He) as Hvo. cbn [fst] in Hvo.
      exists o. split; [assumption|]. split; [congruence|].
      unfold has_address. rewrite (broadcast_closed o Wo), Hpo, Z.sub_diag.
      change (2 ^ 0) with 1. lia. }
  destruct Haddrs as (Hwa & Hia).
  assert (Hall : Forall wf_net (addrs ++ nets)).
  { apply Forall_app. split; [assumption|].
    rewrite Forall_forall. intros m Hm. destruct (I3 m Hm) as [[]|Hin]. now apply Hwf. }
  pose proof (collapse_internal_within _ _ Hall H) as Hout.
  rewrite Forall_forall in Hout. rewrite Forall_forall. intros x Hx.
  apply (within_trans addresses (addrs ++ nets)); [|now apply Hout].
  apply Forall_app. split; [assumption|].
  rewrite Forall_forall. intros m Hm. apply within_In.
  destruct (I3 m Hm) as [[]|Hin]. assumption.
Qed.

(** ** The entries of the mapping, stage by stage *)




(** *** The group stage *)




(** *** The pair stage *)

Lemma subnet_of_covers a b : subnet_of a b = Ok true -> covers b a.
Proof.
  unfold subnet_of, covers.
  destruct (negb (ipver_eqb (version a) (version b))) eqn:Ev; [discriminate|].
  apply negb_false_iff, ipver_eqb_eq in Ev. intros [= H].
  apply andb_true_iff in H. destruct H as (H1 & H2).
  apply Z.leb_le in H1, H2. auto.
Qed.

(** Two well-formed networks with the same addresses are the same network. *)
Lemma same_addresses_eq s a :
  wf_net s -> wf_net a -> covers s a ->
  (forall x, has_address s x -> has_address a x) ->
  s = a.
Proof.
  intros Ws Wa (Hv & H1 & H2) Hsub.
  pose proof (broadcast_closed s Ws) as Bs. pose proof (broadcast_closed a Wa) as Ba.
  pose proof Ws as (Hps & Has & _). pose proof Wa as (Hpa & Haa & _).
  assert (Hpos : 0 < 2 ^ (_max_prefixlen (version s) - prefixlen s))
    by (apply Z.pow_pos_nonneg; lia).
  assert (L1 : has_address s (network_address s)) by (unfold has_address; lia).
  assert (L2 : has_address s (broadcast_address s)) by (unfold has_address; lia).
  apply Hsub in L1, L2. unfold has_address in L1, L2.
  assert (Ea : network_address s = network_address a) by lia.
  assert (Eb : broadcast_address s = broadcast_address a) by lia.
  rewrite Bs, Ba, Ea, <- Hv in Eb.
  assert (Ep : 2 ^ (_max_prefixlen (version s) - prefixlen s)
               = 2 ^ (_max_prefixlen (version s) - prefixlen a)) by lia.
  apply Z.pow_inj_r in Ep; [|lia|lia|rewrite Hv; lia].
  apply net_ext; [congruence|lia|congruence].
Qed.

(** What [collapse_addresses] makes of a pair when it returns one network. *)
Lemma collapse_pair ri rj s :
  wf_net ri -> wf_net rj ->
  collapse_addresses [ri; rj] = Ok [s] ->
  wf_net s /\ covers s ri /\ covers s rj
  /\ (forall x, has_address s x -> has_address ri x \/ has_address rj x)
  /\ (covers ri rj -> s = ri) /\ (covers rj ri -> s = rj).
Proof.
  intros Wi Wj Hc.
  assert (Wl : Forall wf_net [ri; rj])
    by exact (Forall_cons _ Wi (Forall_cons _ Wj (Forall_nil _))).
  pose proof (collapse_addresses_wf _ _ Wl Hc) as Ws. inversion Ws as [|? ? Ws' _]; subst.
  pose proof (collapse_addresses_within _ _ Wl Hc) as Hin.
  inversion Hin as [|? ? Hs _]; subst.
  destruct (collapse_addresses_covers [ri; rj] [s] Wl Hc ri ltac:(now left))
    as (s1 & [<-|[]] & Ci).
  destruct (collapse_addresses_covers [ri; rj] [s] Wl Hc rj ltac:(right; now left))
    as (s2 & [<-|[]] & Cj).
  assert (Hor : forall x, has_address s x -> has_address ri x \/ has_address rj x).
  { intros x Hx. destruct (Hs x Hx) as (o & [<-|[<-|[]]] & _ & Hox); auto. }
  split; [assumption|]. split; [assumption|]. split; [assumption|].
  split; [assumption|]. split.
  - intros Cij. apply same_addresses_eq; try assumption.
    intros x Hx. destruct (Hor x Hx) as [H|H]; [assumption|].
    exact (covers_has_address _ _ _ Cij H).
  - intros Cji. apply same_addresses_eq; try assumption.
    intros x Hx. destruct (Hor x Hx) as [H|H]; [|assumption].
    exact (covers_has_address _ _ _ Cji H).
Qed.

(** Every entry of the pair stage: the summary is the text of a
    well-formed network with a prefix shorter than the longer of the
    prefixes of its two originals and of at most 28 bits, which holds
    exactly their addresses; when one of the two is a subnet of the other,
    the summary is that other. *)
Lemma pair_stage_entries nets existing summary originals :
  Forall wf_net nets ->
  In (summary, originals) (_find_contiguous_summaries nets existing) ->
  exists s a b,
    summary = str_net s /\ wf_net s
    /\ originals = [str_net a; str_net b]
    /\ In a nets /\ In b nets
    /\ covers s a /\ covers s b
    /\ (forall x, has_address s x -> has_address a x \/ has_address b x)
    /\ prefixlen s < Z.max (prefixlen a) (prefixlen b)
    /\ prefixlen s <= 28
    /\ (subnet_of b a = Ok true -> s = a)
    /\ (subnet_of a b = Ok true -> s = b).
Proof.
  intros Hwf Hin. rewrite Forall_forall in Hwf.
  assert (K : Forall (fun e => exists s a b,
                          (fst e = str_net s /\ wf_net s)
                          /\ snd e = [str_net a; str_net b]
                          /\ In a nets /\ In b nets
                          /\ covers s a /\ covers s b
                          /\ (forall x, has_address s x
                                        -> has_address a x \/ has_address b x)
                          /\ prefixlen s < Z.max (prefixlen a) (prefixlen b)
                          /\ prefixlen s <= 28
                          /\ (subnet_of b a = Ok true -> s = a)
                          /\ (subnet_of a b = Ok true -> s = b))
                     (_find_contiguous_summaries nets existing)).
  { apply find_contiguous_summaries_Forall.
    intros ri rj s Hi Hj _ _ Hc Hlt Hle. exists s, ri, rj. cbn [fst snd].
    destruct (collapse_pair ri rj s (Hwf ri Hi) (Hwf rj Hj) Hc)
      as (Ws & Ci & Cj & Hor & Hij & Hji).
    split; [split; [reflexivity|assumption]|]. split; [reflexivity|].
    split; [assumption|]. split; [assumption|].
    split; [assumption|]. split; [assumption|]. split; [assumption|].
    split; [assumption|]. split; [assumption|]. split.
    - intros H. apply Hij. now apply subnet_of_covers.
    - intros H. apply Hji. now apply subnet_of_covers. }
  rewrite Forall_forall in K.
  destruct (K _ Hin) as (s & a & b & (E & Ws) & K').
  exists s, a, b. split; [exact E|]. split; [exact Ws|exact K'].
Qed.

(** ** The strings that [ip_network] accepts hold no zone identifier *)

Lemma contains_split c sep s :
  Ascii.eqb sep c = false ->
  contains c s = existsb (contains c) (split sep s).
Proof.
  intros Hc. induction s as [|d r IH]; [reflexivity|].
  cbn [contains split]. destruct (Ascii.eqb d sep) eqn:E.
  - apply Ascii.eqb_eq in E. subst d. rewrite Hc. cbn [existsb contains orb]. exact IH.
  - pose proof (split_nonempty sep r) as Hne.
    destruct (split sep r) as [|p ps]; [congruence|].
    cbn [existsb contains] in *. rewrite IH. now rewrite orb_assoc.
Qed.

Lemma forallb_no_percent (P : ascii -> bool) s :
  P "%"%char = false ->
  forallb P (list_ascii_of_string s) = true ->
  contains "%" s = false.
Proof.
  intros HP. induction s as [|d r IH]; [reflexivity|].
  cbn [list_ascii_of_string forallb contains]. intros H.
  apply andb_true_iff in H. destruct H as (H1 & H2).
  rewrite (IH H2), orb_false_r.
  destruct (Ascii.eqb d "%") eqn:E; [|reflexivity].
  apply Ascii.eqb_eq in E. subst d. congruence.
Qed.

Lemma isdigit_no_percent s : isdigit s = true -> contains "%" s = false.
Proof.
  unfold isdigit. intros H. apply andb_true_iff in H. destruct H as (_ & H).
  now apply (forallb_no_percent is_digit).
Qed.

Lemma all_hex_no_percent s : all_hex s = true -> contains "%" s = false.
Proof.
  unfold all_hex.
  now apply (forallb_no_percent
               (fun c => match hex_value c with Some _ => true | None => false end)).
Qed.

Lemma parse_octet_no_percent s x : _parse_octet s = Some x -> contains "%" s = false.
Proof.
  unfold _parse_octet. destruct (str_empty s); [discriminate|].
  destruct (isdigit s) eqn:E; [|discriminate]. intros _. now apply isdigit_no_percent.
Qed.

Lemma parse_hextet_no_percent s x : _parse_hextet s = Some x -> contains "%" s = false.
Proof.
  unfold _parse_hextet. destruct (all_hex s) eqn:E; [|discriminate].
  intros _. now apply all_hex_no_percent.
Qed.

Lemma map_opt_Forall {A B : Type} (f : A -> option B) l ys :
  map_opt f l = Some ys -> Forall (fun x => exists y, f x = Some y) l.
Proof.
  revert ys. induction l as [|x r IH]; intros ys H; [constructor|].
  cbn [map_opt] in H. destruct (f x) as [y|] eqn:E; [|discriminate].
  destruct (map_opt f r) as [ys'|]; [|discriminate].
  constructor; [eauto|eapply IH; reflexivity].
Qed.

Lemma existsb_false {A : Type} (f : A -> bool) l :
  (forall x, In x l -> f x = false) -> existsb f l = false.
Proof.
  induction l as [|x r IH]; intros H; [reflexivity|].
  cbn [existsb]. rewrite (H x (or_introl eq_refl)), IH; [reflexivity|].
  intros y Hy. apply H. now right.
Qed.

Lemma ip_int_from_string_v4_no_percent s x :
  _ip_int_from_string_v4 s = Some x -> contains "%" s = false.
Proof.
  unfold _ip_int_from_string_v4. destruct (str_empty s); [discriminate|].
  cbv zeta. destruct (negb _); [discriminate|].
  destruct (map_opt _parse_octet (split "." s)) as [os|] eqn:E; [|discriminate].
  intros _. rewrite (contains_split "%" "." s eq_refl).
  apply existsb_false. intros p Hp.
  pose proof (map_opt_Forall _ _ _ E) as F. rewrite Forall_forall in F.
  destruct (F p Hp) as (y & Hy). eapply parse_octet_no_percent; eauto.
Qed.

Lemma parse_hextets_Some l : forall acc x,
  parse_hextets acc l = Some x ->
  forall p, In p l -> contains "%" p = false.
Proof.
  unfold parse_hextets.
  induction l as [|q r IH]; intros acc x H p Hp; [destruct Hp|].
  cbn [fold_left] in H.
  destruct acc as [a|]; [|fold (parse_hextets None r) in H;
                          rewrite parse_hextets_None in H; discriminate].
  destruct (_parse_hextet q) as [h|] eqn:E;
    [|fold (parse_hextets None r) in H; rewrite parse_hextets_None in H; discriminate].
  destruct Hp as [<-|Hp]; [eapply parse_hextet_no_percent; eauto|].
  eapply IH; eauto.
Qed.

Lemma str_empty_true s : str_empty s = true -> s = "".
Proof. destruct s; [reflexivity|discriminate]. Qed.

(** The scan for ['::'] returns the position of an empty part. *)
Lemma find_skip_Some l : forall i k,
  find_skip l i None = Some (Some k) ->
  exists l1 l2, l = l1 ++ "" :: l2 /\ k = i + Z.of_nat (List.length l1).
Proof.
  induction l as [|p r IH]; intros i k H; cbn [find_skip] in H; [discriminate|].
  destruct (str_empty p) eqn:E.
  - apply str_empty_true in E. subst p. exists [], r. split; [reflexivity|].
    cbn [List.length].
    assert (K : forall l j k0 k', find_skip l j (Some k0) = Some (Some k') -> k' = k0).
    { clear. induction l as [|q t IHt]; intros j k0 k' H; cbn [find_skip] in H.
      - now injection H.
      - destruct (str_empty q); [discriminate|]. eapply IHt; eauto. }
    apply K in H. lia.
  - destruct (IH _ _ H) as (l1 & l2 & -> & ->). exists (p :: l1), l2.
    split; [reflexivity|]. cbn [List.length]. lia.
Qed.

Lemma ip_int_from_parts_no_percent parts x :
  _ip_int_from_parts parts = Some x ->
  forall p, In p parts -> contains "%" p = false.
Proof.
  unfold _ip_int_from_parts. cbv zeta.
  destruct (9 <? Z.of_nat (List.length parts)); [discriminate|].
  destruct (find_skip (removelast (tl parts)) 1 None) as [[k|]|] eqn:Ef; [| |discriminate].
  - (* one '::' *)
    destruct (find_skip_Some _ _ _ Ef) as (l1 & l2 & El & Ek).
    destruct parts as [|p0 t]; [destruct l1; discriminate El|].
    cbn [tl hd] in *.
    assert (Ht : t <> []) by (intros ->; destruct l1; discriminate El).
    pose proof (app_removelast_last "" Ht) as Et. rewrite El in Et.
    set (pl := last t "") in *.
    assert (Elast : last (p0 :: t) "" = pl).
    { unfold pl. destruct t as [|? ?]; [congruence|reflexivity]. }
    rewrite Elast.
    assert (Elen : Z.of_nat (List.length (p0 :: t))
                   = Z.of_nat (List.length l1) + Z.of_nat (List.length l2) + 3).
    { rewrite Et. cbn [List.length]. rewrite !length_app. cbn [List.length]. lia. }
    rewrite Elen, Ek.
    set (n1 := List.length l1) in *. set (n2 := List.length l2) in *.
    intros H p Hp.
    assert (Hparts : p0 :: t = (p0 :: l1) ++ "" :: (l2 ++ [pl])).
    { rewrite Et. cbn [app]. rewrite <- app_assoc. reflexivity. }
    (* the parts read after the '::' *)
    assert (HL : List.length (p0 :: t) = (n1 + n2 + 3)%nat) by lia.
    assert (Hlo : lastn (S n2) (p0 :: t) = l2 ++ [pl]).
    { unfold lastn. rewrite HL.
      replace (n1 + n2 + 3 - S n2)%nat with (List.length ((p0 :: l1) ++ [""]))
        by (rewrite length_app; cbn [List.length]; fold n1; lia).
      rewrite Hparts.
      replace ((p0 :: l1) ++ "" :: l2 ++ [pl]) with (((p0 :: l1) ++ [""]) ++ (l2 ++ [pl]))
        by (rewrite <- app_assoc; reflexivity).
      rewrite skipn_app, Nat.sub_diag, skipn_all. reflexivity. }
    assert (Hlo0 : lastn 0 (p0 :: t) = []).
    { unfold lastn. rewrite Nat.sub_0_r. apply skipn_all. }
    rewrite Hparts in Hp. apply in_app_or in Hp.
    destruct (str_empty p0) eqn:E0; cbn [andb] in H.
    + (* the address starts with '::' *)
      destruct (1 + Z.of_nat n1 - 1 =? 0) eqn:Eh; cbn [negb] in H; [|discriminate].
      apply Z.eqb_eq in Eh. assert (n1 = 0%nat) by lia.
      assert (l1 = []) by (destruct l1; [reflexivity|discriminate]). subst l1.
      apply str_empty_true in E0. subst p0.
      destruct (str_empty pl) eqn:El'; cbn [andb] in H.
      * destruct (_ =? 0) eqn:Eq in H; cbn [negb] in H; [|discriminate].
        apply Z.eqb_eq in Eq. assert (n2 = 0%nat) by lia.
        assert (l2 = []) by (destruct l2; [reflexivity|discriminate]). subst l2.
        apply str_empty_true in El'.
        destruct Hp as [[<-|[]]|[<-|[Hp|[]]]]; try reflexivity.
        rewrite <- Hp, El'. reflexivity.
      * destruct (_ <? 1) in H; [discriminate|].
        destruct Hp as [[<-|[]]|[<-|Hp]]; try reflexivity.
        replace (Z.to_nat (Z.of_nat n1 + Z.of_nat n2 + 3 - (1 + Z.of_nat n1) - 1))
          with (S n2) in H by lia.
        rewrite Hlo in H. exact (parse_hextets_Some _ _ _ H p Hp).
    + destruct (str_empty pl) eqn:El'; cbn [andb] in H.
      * destruct (_ =? 0) eqn:Eq in H; cbn [negb] in H; [|discriminate].
        apply Z.eqb_eq in Eq. assert (n2 = 0%nat) by lia.
        assert (l2 = []) by (destruct l2; [reflexivity|discriminate]). subst l2.
        apply str_empty_true in El'.
        destruct (_ <? 1) in H; [discriminate|].
        replace (Z.to_nat (Z.of_nat n1 + Z.of_nat n2 + 3 - (1 + Z.of_nat n1) - 1 - 1))
          with 0%nat in H by lia.
        rewrite Hlo0 in H. cbn [parse_hextets fold_left] in H.
        destruct (parse_hextets (Some 0) (firstn (Z.to_nat (1 + Z.of_nat n1)) (p0 :: t)))
          as [hi|] eqn:Eh; [|discriminate].
        destruct Hp as [Hp|[<-|[Hp|[]]]]; try reflexivity.
        -- replace (Z.to_nat (1 + Z.of_nat n1)) with (S n1) in Eh by lia.
           rewrite Hparts in Eh. rewrite firstn_app in Eh.
           replace (S n1 - List.length (p0 :: l1))%nat with 0%nat in Eh
             by (cbn [List.length]; fold n1; lia).
           rewrite firstn_all2 in Eh by (cbn [List.length]; fold n1; lia).
           cbn [firstn] in Eh. rewrite app_nil_r in Eh.
           exact (parse_hextets_Some _ _ _ Eh p Hp).
        -- rewrite <- Hp, El'. reflexivity.
      * destruct (_ <? 1) in H; [discriminate|].
        replace (Z.to_nat (Z.of_nat n1 + Z.of_nat n2 + 3 - (1 + Z.of_nat n1) - 1))
          with (S n2) in H by lia.
        rewrite Hlo in H.
        destruct (parse_hextets (Some 0) (firstn (Z.to_nat (1 + Z.of_nat n1)) (p0 :: t)))
          as [hi|] eqn:Eh;
          [|cbn [option_map] in H; rewrite parse_hextets_None in H; discriminate].
        destruct Hp as [Hp|[<-|Hp]]; try reflexivity.
        -- replace (Z.to_nat (1 + Z.of_nat n1)) with (S n1) in Eh by lia.
           rewrite Hparts in Eh. rewrite firstn_app in Eh.
           replace (S n1 - List.length (p0 :: l1))%nat with 0%nat in Eh
             by (cbn [List.length]; fold n1; lia).
           rewrite firstn_all2 in Eh by (cbn [List.length]; fold n1; lia).
           cbn [firstn] in Eh. rewrite app_nil_r in Eh.
           exact (parse_hextets_Some _ _ _ Eh p Hp).
        -- exact (parse_hextets_Some _ _ _ H p Hp).
  - (* no '::' *)
    destruct (negb _); [discriminate|].
    destruct (str_empty (hd "" parts)); [discriminate|].
    destruct (str_empty (last parts "")); [discriminate|].
    intros H p Hp. exact (parse_hextets_Some _ _ _ H p Hp).
Qed.

Lemma ip_int_from_string_v6_no_percent s x :
  _ip_int_from_string_v6 s = Some x -> contains "%" s = false.
Proof.
  unfold _ip_int_from_string_v6. destruct (str_empty s); [discriminate|].
  cbv zeta. destruct (Z.of_nat (List.length (split ":" s)) <? 3); [discriminate|].
  pose proof (split_nonempty ":" s) as Hne.
  set (parts := split ":" s) in *.
  intros H. rewrite (contains_split "%" ":" s eq_refl). fold parts.
  apply existsb_false. intros p Hp.
  destruct (contains "." (last parts "")) eqn:Ed.
  - unfold IPv4Address in H.
    destruct (contains "/" (last parts "")); [discriminate|].
    destruct (_ip_int_from_string_v4 (last parts "")) as [v4|] eqn:E4; [|discriminate].
    rewrite (app_removelast_last "" Hne) in Hp. apply in_app_or in Hp.
    destruct Hp as [Hp|[<-|[]]].
    + eapply ip_int_from_parts_no_percent; [exact H|]. apply in_or_app. now left.
    + eapply ip_int_from_string_v4_no_percent; eauto.
  - eapply ip_int_from_parts_no_percent; eauto.
Qed.

Lemma make_netmask_no_percent v m p :
  _make_netmask v (Some m) = Some p -> contains "%" m = false.
Proof.
  assert (K : forall w, _prefix_from_prefix_string w m <> None -> contains "%" m = false).
  { intros w. unfold _prefix_from_prefix_string.
    destruct (isdigit m) eqn:E; cbn [negb]; [|congruence].
    intros _. now apply isdigit_no_percent. }
  unfold _make_netmask. destruct v.
  - destruct (_prefix_from_prefix_string V4 m) eqn:E.
    + intros _. apply (K V4). congruence.
    + unfold _prefix_from_ip_string. cbn [_ip_int_from_string].
      destruct (_ip_int_from_string_v4 m) eqn:E4; [|discriminate].
      intros _. eapply ip_int_from_string_v4_no_percent; eauto.
  - intros H. apply (K V6). congruence.
Qed.

Lemma Network_init_no_zone_id v t n :
  Network_init v t = Some n -> no_zone_id t = true.
Proof.
  unfold Network_init, _split_addr_prefix, no_zone_id.
  rewrite (contains_split "%" "/" t eq_refl).
  destruct (split "/" t) as [|addr [|mask [|? ?]]]; try discriminate.
  - destruct (_ip_int_from_string v addr) as [packed|] eqn:Ea; [|discriminate].
    intros _. cbn [existsb]. rewrite orb_false_r.
    destruct v; cbn [_ip_int_from_string] in Ea.
    + now rewrite (ip_int_from_string_v4_no_percent _ _ Ea).
    + now rewrite (ip_int_from_string_v6_no_percent _ _ Ea).
  - destruct (_ip_int_from_string v addr) as [packed|] eqn:Ea; [|discriminate].
    destruct (_make_netmask v (Some mask)) as [p|] eqn:Em; [|discriminate].
    intros _. cbn [existsb]. rewrite orb_false_r.
    rewrite (make_netmask_no_percent _ _ _ Em), orb_false_r.
    destruct v; cbn [_ip_int_from_string] in Ea.
    + now rewrite (ip_int_from_string_v4_no_percent _ _ Ea).
    + now rewrite (ip_int_from_string_v6_no_percent _ _ Ea).
Qed.

(** The model's [ip_network] accepts no string that holds a ['%']: every
    network it builds is free of zone identifier. *)
Lemma ip_network_no_zone_id t n : ip_network t = Some n -> no_zone_id t = true.
Proof.
  unfold ip_network. destruct (Network_init V4 t) as [m|] eqn:E.
  - intros _. eapply Network_init_no_zone_id; eauto.
  - apply Network_init_no_zone_id.
Qed.

Lemma ip_network_zone_free t n : ip_network t = Some n -> zone_free n.
Proof. intros H. exists t. split; [eapply ip_network_no_zone_id; eauto|assumption]. Qed.

(** ** The claims on the entries of the mapping *)



(** C5.  For every entry of the returned mapping, the summary is the text
    of the network [s] that [ip_network] reads from it, and the originals
    are the texts of networks parsed from the input, each of the IP version
    of [s] and each with all its addresses among the addresses of [s]. *)
Theorem containment_invariant networks optimized summaries :
  get_optimized_networks networks = Ok (optimized, summaries) ->
  forall summary originals,
    In (summary, originals) summaries ->
    exists s os,
      summary = str_net s
      /\ ip_network summary = Some s
      /\ originals = map str_net os
      /\ forall o, In o os ->
           (exists t, In t networks /\ ip_network t = Some o)
           /\ version o = version s
           /\ forall a, has_address o a -> has_address s a.
Proof.
  intros H summary originals Hin.
  destruct (get_optimized_networks_Ok _ _ _ H) as (Hf & _).
  pose proof (find_summary_routes_wf _ _ Hf) as He.
  rewrite Forall_forall in He.
  destruct (He _ Hin) as (s & os & E & Ws & _ & Hos).
  injection E as -> ->.
  exists s, os. split; [reflexivity|].
  split; [now apply ip_network_str_net|]. split; [reflexivity|].
  intros o Ho. destruct (Hos o Ho) as (Hn & Hc).
  split; [now apply parse_networks_In|]. split.
  - symmetry. apply Hc.
  - intros a. now apply covers_has_address.
Qed.

Lemma containment_invariant_witness :
  exists s os,
    "10.0.0.0/23" = str_net s
    /\ ip_network "10.0.0.0/23" = Some s
    /\ ["10.0.0.0/24"; "10.0.1.0/24"] = map str_net os
    /\ forall o, In o os ->
         (exists t, In t ["10.0.0.0/24"; "10.0.1.0/24"] /\ ip_network t = Some o)
         /\ version o = version s
         /\ forall a, has_address o a -> has_address s a.
Proof.
  apply (containment_invariant
           ["10.0.0.0/24"; "10.0.1.0/24"] ["10.0.0.0/23"]
           [("10.0.0.0/23", ["10.0.0.0/24"; "10.0.1.0/24"])]).
  - vm_compute. reflexivity.
  - left. reflexivity.
Defined.

(** ** Networks without zone identifier *)

(** X8.  For input strings without zone identifier, the mapping does not
    depend on the order of the input list: a reordered input gives the
    same mapping, entries in the same order (or the same exception), and
    an optimized list that is a reordering. *)
Theorem find_summary_routes_order_independent networks networks' :
  Forall (fun t => no_zone_id t = true) networks ->
  Permutation networks networks' ->
  find_summary_routes networks = find_summary_routes networks'
  /\ forall optimized summaries,
       get_optimized_networks networks = Ok (optimized, summaries) ->
       exists optimized',
         get_optimized_networks networks' = Ok (optimized', summaries)
         /\ Permutation optimized optimized'.
Proof.
  intros _ Hp.
  assert (Hpp : Permutation (parse_networks networks) (parse_networks networks'))
    by (unfold parse_networks; apply Permutation_flat_map; exact Hp).
  assert (Hf : find_summary_routes networks = find_summary_routes networks').
  { unfold find_summary_routes.
    destruct (parse_networks networks) as [|n0 r] eqn:Ep.
    - apply Permutation_nil in Hpp. now rewrite Hpp.
    - destruct (parse_networks networks') as [|n0' r'] eqn:Ep';
        [apply Permutation_sym, Permutation_nil in Hpp; discriminate|].
      now rewrite (sorted_nets_perm _ _ Hpp). }
  split; [exact Hf|].
  intros optimized summaries H.
  destruct (get_optimized_networks_Ok _ _ _ H) as (Hs & ->).
  unfold get_optimized_networks. rewrite <- Hf, Hs. cbn [bind].
  eexists. split; [reflexivity|].
  apply Permutation_app_head.
  clear - Hp. induction Hp; cbn [filter].
  - constructor.
  - destruct (negb (str_in x (flat_map snd summaries))); [now constructor|assumption].
  - destruct (negb (str_in x (flat_map snd summaries)));
      destruct (negb (str_in y (flat_map snd summaries)));
      try reflexivity; [apply perm_swap].
  - etransitivity; eassumption.
Qed.

Lemma find_summary_routes_order_independent_witness :
  find_summary_routes ["10.0.1.0/24"; "ospf"; "10.0.0.0/24"]
  = find_summary_routes ["10.0.0.0/24"; "10.0.1.0/24"; "ospf"].
Proof.
  apply (find_summary_routes_order_independent
           ["10.0.1.0/24"; "ospf"; "10.0.0.0/24"] ["10.0.0.0/24"; "10.0.1.0/24"; "ospf"]).
  - repeat constructor.
  - apply (perm_trans (l' := ["10.0.1.0/24"; "10.0.0.0/24"; "ospf"])).
    + apply perm_skip. apply perm_swap.
    + apply perm_swap.
Defined.

Lemma zone_free_wf l : Forall zone_free l -> Forall wf_net l.
Proof.
  intros H. eapply Forall_impl; [|exact H].
  cbv beta. intros n (t & _ & E). eapply ip_network_wf; eauto.
Qed.

(** X18.  A summary of the pair stage adds no address: for networks built
    from strings without zone identifier, every entry that
    [_find_contiguous_summaries] returns is the text of a network that
    holds exactly the addresses of its two originals, two networks of the
    list. *)
Theorem pair_summaries_exact networks existing summary originals :
  Forall zone_free networks ->
  In (summary, originals) (_find_contiguous_summaries networks existing) ->
  exists s ri rj,
    summary = str_net s /\ ip_network summary = Some s
    /\ originals = [str_net ri; str_net rj]
    /\ In ri networks /\ In rj networks
    /\ version ri = version s /\ version rj = version s
    /\ forall a, has_address s a <-> has_address ri a \/ has_address rj a.
Proof.
  intros Hz H.
  destruct (pair_stage_entries networks existing _ _ (zone_free_wf _ Hz) H)
    as (s & ri & rj & E & Ws & Eo & Hi & Hj & Ci & Cj & Hor & _).
  exists s, ri, rj. split; [exact E|].
  split; [rewrite E; now apply ip_network_str_net|]. split; [exact Eo|].
  split; [exact Hi|]. split; [exact Hj|].
  split; [symmetry; apply Ci|]. split; [symmetry; apply Cj|].
  intros a. split; [apply Hor|].
  intros [Ha|Ha];
    [exact (covers_has_address _ _ _ Ci Ha)|exact (covers_has_address _ _ _ Cj Ha)].
Qed.

Lemma pair_summaries_exact_witness :
  exists s ri rj,
    "10.0.2.0/23" = str_net s /\ ip_network "10.0.2.0/23" = Some s
    /\ ["10.0.2.0/24"; "10.0.3.0/24"] = [str_net ri; str_net rj]
    /\ In ri [mkNet V4 167772672 24; mkNet V4 167772928 24]
    /\ In rj [mkNet V4 167772672 24; mkNet V4 167772928 24]
    /\ version ri = version s /\ version rj = version s
    /\ forall a, has_address s a <-> has_address ri a \/ has_address rj a.
Proof.
  apply (pair_summaries_exact
           [mkNet V4 167772672 24; mkNet V4 167772928 24] []
           "10.0.2.0/23" ["10.0.2.0/24"; "10.0.3.0/24"]).
  - constructor; [|constructor; [|constructor]].
    + exists "10.0.2.0/24". split; vm_compute; reflexivity.
    + exists "10.0.3.0/24". split; vm_compute; reflexivity.
  - vm_compute. left. reflexivity.
Defined.

(** X19.  Step A adds no address: for a group of networks built from
    strings without zone identifier, when the sorted members collapse to
    one network with a prefix shorter than every member's,
    [_find_tightest_summary] returns that network, and it holds exactly
    the addresses of the members of the group. *)
Theorem stepA_summary_exact g sorted s :
  Forall zone_free g ->
  2 <= Z.of_nat (List.length g) ->
  sorted_nets lt_addr g = Ok sorted ->
  collapse_addresses sorted = Ok [s] ->
  (forall n, In n g -> prefixlen s < prefixlen n) ->
  _find_tightest_summary g = Some (str_net s, map str_net sorted)
  /\ ip_network (str_net s) = Some s
  /\ (forall o, In o g -> version o = version s)
  /\ forall a, has_address s a <-> exists o, In o g /\ has_address o a.
Proof.
  intros Hz Hlen Hs Hc Hp. pose proof (zone_free_wf _ Hz) as Hwf.
  pose proof (sorted_nets_Ok _ _ _ Hs) as (_ & Es).
  assert (Hin : forall n, In n sorted <-> In n g)
    by (intros n; subst sorted; apply stable_sort_In).
  assert (Hws : Forall wf_net sorted).
  { rewrite Forall_forall in *. intros n Hn. apply Hwf, Hin, Hn. }
  split; [|split; [|split]].
  - unfold _find_tightest_summary.
    destruct (Z.of_nat (List.length g) <? 2) eqn:El; [apply Z.ltb_lt in El; lia|].
    unfold tightest_summary_body. rewrite Hs. cbn [bind]. rewrite Hc. cbn [bind].
    unfold exact_collapse.
    destruct (py_min (map prefixlen sorted)) as [m|] eqn:Em.
    + cbn [bind]. destruct (py_min_spec _ _ Em) as (Hm & _).
      apply in_map_iff in Hm. destruct Hm as (n & <- & Hn).
      apply Hin in Hn. specialize (Hp n Hn).
      apply Z.ltb_lt in Hp. rewrite Hp. reflexivity.
    + exfalso. destruct sorted as [|x r]; [|discriminate].
      pose proof (stable_sort_length lt_addr g) as HL. rewrite <- Es in HL.
      cbn [List.length] in HL. rewrite <- HL in Hlen. cbn in Hlen. lia.
  - apply ip_network_str_net.
    pose proof (collapse_addresses_wf _ _ Hws Hc) as W. now inversion W.
  - intros o Ho. apply Hin in Ho.
    destruct (collapse_addresses_covers sorted [s] Hws Hc o Ho) as (s' & [<-|[]] & Hcov).
    symmetry. apply Hcov.
  - intros a. split.
    + intros Ha. pose proof (collapse_addresses_within _ _ Hws Hc) as Hw.
      inversion Hw as [|? ? Hsw _]; subst.
      destruct (Hsw a Ha) as (o & Ho & _ & Hoa). exists o. split; [apply Hin, Ho|assumption].
    + intros (o & Ho & Hoa). apply Hin in Ho.
      destruct (collapse_addresses_covers sorted [s] Hws Hc o Ho) as (s' & [<-|[]] & Hcov).
      eapply covers_has_address; eassumption.
Qed.

Lemma stepA_summary_exact_witness :
  _find_tightest_summary [mkNet V4 167772160 24; mkNet V4 167772416 24]
  = Some (str_net (mkNet V4 167772160 23),
          map str_net [mkNet V4 167772160 24; mkNet V4 167772416 24])
  /\ ip_network (str_net (mkNet V4 167772160 23)) = Some (mkNet V4 167772160 23)
  /\ (forall o, In o [mkNet V4 167772160 24; mkNet V4 167772416 24] ->
                version o = version (mkNet V4 167772160 23))
  /\ forall a, has_address (mkNet V4 167772160 23) a
               <-> exists o, In o [mkNet V4 167772160 24; mkNet V4 167772416 24]
                             /\ has_address o a.
Proof.
  apply (stepA_summary_exact
           [mkNet V4 167772160 24; mkNet V4 167772416 24]
           [mkNet V4 167772160 24; mkNet V4 167772416 24]
           (mkNet V4 167772160 23)).
  - constructor; [|constructor; [|constructor]].
    + exists "10.0.0.0/24". split; vm_compute; reflexivity.
    + exists "10.0.1.0/24". split; vm_compute; reflexivity.
  - cbn. lia.
  - vm_compute. reflexivity.
  - vm_compute. reflexivity.
  - intros n [<-|[<-|[]]]; vm_compute; reflexivity.
Defined.
